(** * WeatherWise: provider adapters, aggregator, cache and alert service

    A shallow embedding of the weather aggregation core
    ([weather/providers/weatherApi.ts], [weather/providers/openWeather.ts],
    [weather/aggregator.ts], [alerts/alertService.ts], [config.ts]) and the
    properties its specification states about it.

    Conventions of the embedding:
    - a JavaScript [number] is carried by a rational ([Q]); the three
      values a finite computation cannot produce ([NaN], [Infinity],
      [-Infinity]) are kept apart in [jsnum] where the source can produce
      them;
    - a product or quotient whose result is compared with a reading or
      rounded to an integer (the threshold of an alert, the chance of rain
      of a day) is rounded to the nearest binary64 value as IEEE 754 does
      ([Double]); sums and conversions that are only reported are exact;
    - an [async] function is a state-and-exception computation over [World]
      (clock, outbound requests, console, the three caches);
    - what the JavaScript engine and the libraries provide (number printing,
      [encodeURIComponent], [JSON.stringify], [Date], [axios],
      [Math.random]) is gathered in the record [Runtime]; every theorem
      holds for every runtime. *)

From Stdlib Require Import ZArith QArith Qround Qabs Qminmax Qpower Lqa Lia.
From Stdlib Require Import Ascii String Sorted.
From Stdlib Require OrderedTypeEx.
From stdpp Require Import base option list gmap strings sorting pretty.

Close Scope Q_scope.
Open Scope Z_scope.

(** ** JavaScript values *)
Module JS.

(** Truthiness of a string value that may be [undefined]. *)
Definition truthy_str (s : string) : bool :=
  negb (String.eqb s EmptyString).

Definition truthy_ostr (o : option string) : bool :=
  match o with
  | Some s => truthy_str s
  | None => false
  end.

(** Truthiness of a number that may be [undefined]. *)
Definition truthy_num (q : Q) : bool := negb (Qeq_bool q 0%Q).

Definition truthy_onum (o : option Q) : bool :=
  match o with
  | Some q => truthy_num q
  | None => false
  end.

(** [a || b] on optional strings and numbers. *)
Definition or_str (a b : option string) : option string :=
  if truthy_ostr a then a else b.

Definition or_num (a b : option Q) : option Q :=
  if truthy_onum a then a else b.

(** [a ?? b]. *)
Definition nullish {A} (a : option A) (b : A) : A :=
  match a with
  | Some x => x
  | None => b
  end.

(** Results of arithmetic that can leave the finite numbers. *)
Inductive jsnum : Type :=
| Finite (q : Q)
| NaN
| PosInfinity
| NegInfinity.

(** [Math.round]: the integer nearest to [q], halves going up. *)
Definition Math_round (q : Q) : Z := Qfloor (q + (1 # 2))%Q.

(** IEEE 754 binary64 arithmetic on the rationals: the result of an
    operation is the exact result rounded to the nearest number of the
    form [n * 2^e] with [|n| < 2^53] and [e >= -1074], a tie going to the
    even [n].  The exponent has no upper bound here: a result beyond the
    largest finite double, [Infinity] in JavaScript, is a rational above
    every finite double and compares with a finite double as [Infinity]
    does.  The operands stand for doubles: numbers read from JSON, integer
    counts, or results of [round]. *)
Module Double.

(** The integer nearest to [q], a half going to the even neighbour. *)
Definition round_half_even (q : Q) : Z :=
  let f := Qfloor q in
  match (q - inject_Z f ?= 1 # 2)%Q with
  | Lt => f
  | Gt => f + 1
  | Eq => if Z.even f then f else f + 1
  end.

Definition pow2 (e : Z) : Q := (2 ^ e)%Q.

(** The exponent [e] with [2^e <= |q| < 2^(e+1)], for [q] other than 0. *)
Definition ilog2 (q : Q) : Z :=
  let c := Z.log2 (Z.abs (Qnum q)) - Z.log2 (Z.pos (Qden q)) in
  if Qle_bool (pow2 c) (Qabs q) then c else c - 1.

(** The exponent of the unit in the last place of the doubles around [q]:
    53 significant bits, subnormal below [2^-1022]. *)
Definition ulp_exponent (q : Q) : Z := Z.max (ilog2 q - 52) (-1074).

(** The double nearest to [q]. *)
Definition round (q : Q) : Q :=
  if Qeq_bool q 0 then 0%Q
  else let e := ulp_exponent q in
       (inject_Z (round_half_even (q / pow2 e)) * pow2 e)%Q.

(** [a * b] and [a / b] on doubles. *)
Definition mul (a b : Q) : Q := round (a * b).
Definition div (a b : Q) : Q := round (a / b).

End Double.

(** [Math.max(...l)] and [Math.min(...l)]. *)
Definition Math_max (l : list Q) : jsnum :=
  match l with
  | [] => NegInfinity
  | x :: r => Finite (fold_left Qmax r x)
  end.

Definition Math_min (l : list Q) : jsnum :=
  match l with
  | [] => PosInfinity
  | x :: r => Finite (fold_left Qmin r x)
  end.

(** [l.reduce((a, b) => a + b, 0)]. *)
Definition sum (l : list Q) : Q := fold_left Qplus l 0%Q.

(** [s / n] for a sum [s] of [n] numbers: [0 / 0] is [NaN]. *)
Definition div_length (s : Q) (n : nat) : jsnum :=
  match n with
  | O => if Qeq_bool s 0%Q then NaN
         else if Qle_bool 0%Q s then PosInfinity else NegInfinity
  | S _ => Finite (s / inject_Z (Z.of_nat n))%Q
  end.

(** [arr.slice(0, n)] for an integer [n]: a negative [n] counts from the
    end. *)
Definition slice0 {A} (n : Z) (l : list A) : list A :=
  if 0 <=? n then take (Z.to_nat n) l
  else take (Z.to_nat (Z.of_nat (length l) + n)) l.

(** [s.slice(0, 10)] on a string. *)
Definition str_slice0_10 (s : string) : string := String.substring 0 10 s.

(** The time values a [Date] can hold, in milliseconds. *)
Definition valid_time (ms : Z) : bool :=
  (-8640000000000000 <=? ms) && (ms <=? 8640000000000000).

(** Default order of [Array.prototype.sort] on strings. *)
Definition str_le (a b : string) : Prop := String.leb a b = true.
Definition str_lt (a b : string) : Prop := String.ltb a b = true.

#[global] Instance str_le_dec a b : Decision (str_le a b).
Proof. unfold str_le. apply _. Defined.

Definition sort_strings (l : list string) : list string :=
  merge_sort str_le l.

End JS.

Export JS.

(** ** Data model ([weather/types.ts], [config.ts]) *)

Inductive Units : Type := metric | imperial.

#[global] Instance Units_eq_dec : EqDecision Units.
Proof. solve_decision. Defined.

Record LocationQuery : Type := {
  city : option string;
  country : option string;
  lat : option Q;
  lon : option Q
}.

Record Location : Type := {
  loc_name : string;
  loc_lat : Q;
  loc_lon : Q;
  loc_country : option string
}.

Record Condition : Type := {
  text : option string;
  iconUrl : option string;
  code : option Q
}.

Record CurrentWeather : Type := {
  provider : string;
  location : Location;
  observedAt : string;
  temperatureC : Q;
  temperatureF : Q;
  feelsLikeC : option Q;
  feelsLikeF : option Q;
  humidity : option Q;
  windKph : option Q;
  windMph : option Q;
  windDir : option string;
  pressureMb : option Q;
  uv : option Q;
  condition : Condition
}.

Record ForecastDay : Type := {
  date : string;
  avgTempC : option jsnum;
  avgTempF : option jsnum;
  maxTempC : option jsnum;
  maxTempF : option jsnum;
  minTempC : option jsnum;
  minTempF : option jsnum;
  chanceOfRainPct : option Q;
  chanceOfSnowPct : option Q;
  fd_condition : Condition
}.

Record Forecast : Type := {
  fc_provider : string;
  fc_location : Location;
  days : list ForecastDay
}.

(** [HistoricalWeather extends CurrentWeather] with a [date]. *)
Record HistoricalWeather : Type := {
  hw_date : string;
  hw_current : CurrentWeather
}.

Record Config : Type := {
  openWeatherApiKey : string;
  weatherApiKey : string;
  defaultUnits : Units;
  cacheTtlSeconds : Z;
  forecastCacheTtlSeconds : Z;
  alertPollIntervalSeconds : Z
}.

(** ** Alert definitions ([alerts/alertService.ts]) *)

Inductive AlertConditionType : Type := rain | temp_above | temp_below | wind_above.

Record WeatherAlertCondition : Type := {
  type : AlertConditionType;
  threshold : option Q;
  daysAhead : option Z
}.

Inductive AlertChannel : Type := console_channel | webhook.

Inductive Sensitivity : Type := low | medium | high.

Record WeatherAlert : Type := {
  id : string;
  name : option string;
  alert_location : LocationQuery;
  alert_condition : WeatherAlertCondition;
  channel : AlertChannel;
  webhookUrl : option string;
  sensitivity : option Sensitivity;
  createdAt : string;
  lastTriggeredAt : option string
}.

(** [Omit<WeatherAlert, "id" | "createdAt">], the argument of [registerAlert]. *)
Record AlertInput : Type := {
  in_name : option string;
  in_location : LocationQuery;
  in_condition : WeatherAlertCondition;
  in_channel : AlertChannel;
  in_webhookUrl : option string;
  in_sensitivity : option Sensitivity;
  in_lastTriggeredAt : option string
}.

(** ** Upstream response bodies

    [res.data] has type [any] in the source.  A body is kept as the part of
    the provider's JSON the adapters read; a sub-object the adapter
    dereferences without [?.] is an [option], its absence making the
    adapter throw a [TypeError]. *)

Record WaLocation : Type := {
  wa_name : string;
  wa_lat : Q;
  wa_lon : Q;
  wa_country : option string
}.

Record WaCondition : Type := {
  wa_text : option string;
  wa_icon : option string;
  wa_code : option Q
}.

Record WaCurrent : Type := {
  last_updated : option string;
  temp_c : Q;
  temp_f : Q;
  feelslike_c : option Q;
  feelslike_f : option Q;
  wa_humidity : option Q;
  wind_kph : option Q;
  wind_mph : option Q;
  wind_dir : option string;
  pressure_mb : option Q;
  wa_uv : option Q;
  wa_condition : option WaCondition
}.

Record WaDay : Type := {
  avgtemp_c : option Q;
  avgtemp_f : option Q;
  maxtemp_c : option Q;
  maxtemp_f : option Q;
  mintemp_c : option Q;
  mintemp_f : option Q;
  avghumidity : option Q;
  maxwind_kph : option Q;
  maxwind_mph : option Q;
  daily_chance_of_rain : option Q;
  daily_chance_of_snow : option Q;
  day_condition : option WaCondition
}.

Record WaForecastDay : Type := {
  fd_date : string;
  fd_day : option WaDay
}.

Record WaJson : Type := {
  wa_location : option WaLocation;
  wa_current : option WaCurrent;
  (** [d.forecast?.forecastday] *)
  wa_forecastday : option (list WaForecastDay)
}.

Record OwCoord : Type := { coord_lat : Q; coord_lon : Q }.

Record OwMain : Type := {
  temp : Q;
  feels_like : Q;
  ow_humidity : option Q;
  pressure : option Q
}.

Record OwWind : Type := { speed : Q; deg : option Q }.

Record OwWeather : Type := {
  description : option string;
  icon : option string;
  weather_id : option Q
}.

Record OwCurrentJson : Type := {
  ow_name : option string;
  ow_coord : option OwCoord;
  ow_sys_country : option string;
  ow_dt : Z;
  ow_main : option OwMain;
  ow_wind : option OwWind;
  (** [d.weather?.[0]] *)
  ow_weather0 : option OwWeather
}.

Record OwItem : Type := {
  dt : Z;
  main : option OwMain;
  weather0 : option OwWeather;
  (** [item.rain?.["3h"]] and [item.snow?.["3h"]] *)
  rain3h : option Q;
  snow3h : option Q
}.

Record OwCity : Type := {
  city_name : option string;
  city_coord : option OwCoord;
  city_country : option string
}.

Record OwForecastJson : Type := {
  ow_city : option OwCity;
  ow_list : option (list OwItem)
}.

Inductive Body : Type :=
| WaBody (d : WaJson)
| OwCurrentBody (d : OwCurrentJson)
| OwForecastBody (d : OwForecastJson)
| OtherBody.

Inductive HttpResult : Type :=
| HttpFail (message : string)
| HttpOk (data : Body).

(** ** Effects: errors, the world, the runtime *)

(** A thrown value; every one the code meets carries a [message]. *)
Inductive JsError : Type :=
| Error (message : string)
| TypeError (message : string)
| RangeError (message : string)
| AxiosError (message : string).

Definition message (e : JsError) : string :=
  match e with
  | Error m | TypeError m | RangeError m | AxiosError m => m
  end.

Inductive Result (A : Type) : Type :=
| Ok (a : A)
| Err (e : JsError).
Arguments Ok {A} a.
Arguments Err {A} e.

Definition is_ok {A} (r : Result A) : bool :=
  match r with
  | Ok _ => true
  | Err _ => false
  end.

Inductive Payload : Type :=
| PayloadCurrent (c : CurrentWeather)
| PayloadForecast (f : Forecast).

(** The body of the webhook POST, [{ id, message, alert, payload }]. *)
Record WebhookBody : Type := {
  wb_id : string;
  wb_message : string;
  wb_alert : WeatherAlert;
  wb_payload : option Payload
}.

Inductive Request : Type :=
| GET (url : string)
| POST (url : string) (body : WebhookBody).

(** A line of console output.  [ConsoleAlert i m p] is the line that
    [notify] logs for the alert of id [i], the text [[ALERT i] m] followed
    by the payload [p] if there is one, kept by its parts. *)
Inductive ConsoleLine : Type :=
| ConsoleWarn (label : string) (detail : string)
| ConsoleLog (line : string)
| ConsoleAlert (alert_id : string) (message : string) (payload : option Payload).

(** Modelled from the spec: the cache stores are instances of the
    [lru-cache] package, which is not part of the repository; sections 3
    and 4.4 of the specification give their behaviour.  An entry is
    [{key, value, insertedAt}], the store-wide [ttl] is passed by the
    caller; entries are kept most recently used first. *)
Record CacheEntry (V : Type) : Type := {
  ce_key : string;
  ce_value : V;
  ce_insertedAt : Z
}.
Arguments ce_key {V} _.
Arguments ce_value {V} _.
Arguments ce_insertedAt {V} _.

Module LRUCache.
Section Store.
Context {V : Type}.

Definition t : Type := list (CacheEntry V).

(** [max: 500] in all three stores of the aggregator. *)
Definition max : nat := 500.

(** Modelled from the spec: an entry is logically absent once
    [now - insertedAt > ttl]. *)
Definition expired (ttl now : Z) (e : CacheEntry V) : bool :=
  ttl <? now - ce_insertedAt e.

Definition find (key : string) (c : t) : option (CacheEntry V) :=
  List.find (fun e => String.eqb (ce_key e) key) c.

Definition remove (key : string) (c : t) : t :=
  List.filter (fun e => negb (String.eqb (ce_key e) key)) c.

(** Modelled from the spec: [get(key)] returns a value only if present
    and unexpired; an expired entry is evicted on the read, a live one
    becomes the most recently used. *)
Definition get (ttl now : Z) (key : string) (c : t) : option V * t :=
  match find key c with
  | None => (None, c)
  | Some e =>
      if expired ttl now e then (None, remove key c)
      else (Some (ce_value e), e :: remove key c)
  end.

(** Modelled from the spec: [set(key, value)] inserts or replaces,
    resets the age to zero and evicts the least recently used entry
    when the capacity is exceeded. *)
Definition set (now : Z) (key : string) (v : V) (c : t) : t :=
  take max ({| ce_key := key; ce_value := v; ce_insertedAt := now |}
              :: remove key c).
End Store.
Arguments t V : clear implicits.
End LRUCache.

Record World : Type := {
  now : Z;                                   (* the clock, in milliseconds *)
  requests : list Request;                   (* outbound HTTP calls, oldest first *)
  console : list ConsoleLine;                (* oldest first *)
  currentCache : LRUCache.t CurrentWeather;
  forecastCache : LRUCache.t Forecast;
  historicalCache : LRUCache.t HistoricalWeather
}.

(** The world of a process that has just started, at time [t]. *)
Definition initial_world (t : Z) : World :=
  {| now := t; requests := []; console := []; currentCache := [];
     forecastCache := []; historicalCache := [] |}.

(** The second argument of [keyOf] as the aggregator builds it. *)
Inductive Extra : Type :=
| ExtraUnits (units : Units)
| ExtraUnitsDays (units : Units) (ndays : Z)
| ExtraDate (dateISO : string).

(** What the engine and the libraries compute.  [axios_get] and
    [axios_post] answer from the requests made so far and the clock, and
    say how long the call took. *)
Record Runtime : Type := {
  num_to_string : Q -> string;
  encodeURIComponent : string -> string;
  JSON_stringify_query : LocationQuery -> string;
  JSON_stringify_extra : option Extra -> string;
  JSON_stringify_location : Location -> string;
  (** [new Date(ms).toISOString()] for a valid time value *)
  Date_toISOString : Z -> string;
  (** the time value of [new Date(s)], [None] for an invalid date *)
  Date_parse : string -> option Z;
  axios_get : list Request -> Z -> string -> HttpResult * Z;
  axios_post : list Request -> Z -> string -> WebhookBody -> option string * Z;
  (** [Math.random().toString(36).slice(2)], by draw *)
  random_id : nat -> string;
  type_error_message : string;
  range_error_message : string
}.

(** ** The computation monad *)
Definition M (A : Type) : Type := World -> Result A * World.

Definition ret {A} (a : A) : M A := fun w => (Ok a, w).

Definition throw {A} (e : JsError) : M A := fun w => (Err e, w).

Definition bind {A B} (m : M A) (k : A -> M B) : M B :=
  fun w =>
    match m w with
    | (Ok a, w') => k a w'
    | (Err e, w') => (Err e, w')
    end.

(** [try { m } catch (e) { h(e) }] *)
Definition try_catch {A} (m : M A) (h : JsError -> M A) : M A :=
  fun w =>
    match m w with
    | (Ok a, w') => (Ok a, w')
    | (Err e, w') => h e w'
    end.

Definition lift {A} (r : Result A) : M A := fun w => (r, w).

Definition get_now : M Z := fun w => (Ok (now w), w).

Declare Scope js_scope.
Delimit Scope js_scope with js.
Notation "'let*' x ':=' m 'in' k" := (bind m (fun x => k))
  (at level 10, x pattern, m at level 100, k at level 200) : js_scope.
Notation "m ';;' k" := (bind m (fun _ => k))
  (at level 100, k at level 200, right associativity) : js_scope.
Open Scope js_scope.

Definition console_warn (label detail : string) : M unit :=
  fun w =>
    (Ok tt, {| now := now w; requests := requests w;
               console := console w ++ [ConsoleWarn label detail];
               currentCache := currentCache w;
               forecastCache := forecastCache w;
               historicalCache := historicalCache w |}).

Definition console_log (l : ConsoleLine) : M unit :=
  fun w =>
    (Ok tt, {| now := now w; requests := requests w;
               console := console w ++ [l];
               currentCache := currentCache w;
               forecastCache := forecastCache w;
               historicalCache := historicalCache w |}).

(** Time passing between two calls. *)
Definition tick (delta : Z) (w : World) : World :=
  {| now := now w + delta; requests := requests w; console := console w;
     currentCache := currentCache w; forecastCache := forecastCache w;
     historicalCache := historicalCache w |}.

(** [await axios.get(url)] followed by [res.data]: the call is recorded, the
    clock advances, a transport or HTTP failure is thrown. *)
Definition http_get (rt : Runtime) (url : string) : M Body :=
  fun w =>
    let '(r, elapsed) := axios_get rt (requests w) (now w) url in
    let w' := {| now := now w + elapsed;
                 requests := requests w ++ [GET url];
                 console := console w;
                 currentCache := currentCache w;
                 forecastCache := forecastCache w;
                 historicalCache := historicalCache w |} in
    match r with
    | HttpOk d => (Ok d, w')
    | HttpFail m => (Err (AxiosError m), w')
    end.

(** Reading a property of [undefined]. *)
Definition required {A} (rt : Runtime) (o : option A) : M A :=
  match o with
  | Some a => ret a
  | None => throw (TypeError (type_error_message rt))
  end.

(** [new Date(ms).toISOString()] *)
Definition toISOString (rt : Runtime) (ms : Z) : Result string :=
  if valid_time ms then Ok (Date_toISOString rt ms)
  else Err (RangeError (range_error_message rt)).

(** [new Date(s).toISOString()] *)
Definition parsed_toISOString (rt : Runtime) (s : string) : M string :=
  match Date_parse rt s with
  | Some ms => ret (Date_toISOString rt ms)
  | None => throw (RangeError (range_error_message rt))
  end.

(** [new Date().toISOString()] *)
Definition now_toISOString (rt : Runtime) : M string :=
  fun w => (Ok (Date_toISOString rt (now w)), w).

(** [a ?? b] when [b] may be [undefined] too. *)
Definition nullish_o {A} (a b : option A) : option A :=
  match a with
  | Some x => Some x
  | None => b
  end.

(** ** The WeatherAPI adapter ([weather/providers/weatherApi.ts]) *)
Module wa.
Section Adapter.
Context (rt : Runtime) (cfg : Config).

Definition invalid_query : JsError :=
  Error "WeatherAPI: provide city or lat/lon".

Definition resolveQuery (q : LocationQuery) : Result string :=
  match lat q, lon q with
  | Some la, Some lo =>
      Ok (num_to_string rt la +:+ "," +:+ num_to_string rt lo)
  | _, _ =>
      match city q with
      | Some c =>
          if truthy_str c then
            match country q with
            | Some k => if truthy_str k then Ok (c +:+ "," +:+ k) else Ok c
            | None => Ok c
            end
          else Err invalid_query
      | None => Err invalid_query
      end
  end.

(** The body as the adapter reads it: a key the body lacks is
    [undefined]. *)
Definition body (b : Body) : WaJson :=
  match b with
  | WaBody d => d
  | _ => {| wa_location := None; wa_current := None;
            wa_forecastday := None |}
  end.

Definition location_of (l : WaLocation) : Location :=
  {| loc_name := wa_name l; loc_lat := wa_lat l; loc_lon := wa_lon l;
     loc_country := wa_country l |}.

Definition condition_of (c : option WaCondition) : Condition :=
  {| text := c ≫= wa_text; iconUrl := c ≫= wa_icon;
     code := c ≫= wa_code |}.

Definition current_url (qStr : string) : string :=
  "https://api.weatherapi.com/v1/current.json?key=" +:+ weatherApiKey cfg
    +:+ "&q=" +:+ encodeURIComponent rt qStr +:+ "&aqi=no".

Definition getCurrent (q : LocationQuery) : M CurrentWeather :=
  let* qStr := lift (resolveQuery q) in
  let* b := http_get rt (current_url qStr) in
  let d := body b in
  let* l := required rt (wa_location d) in
  let* c := required rt (wa_current d) in
  let* observed :=
    match last_updated c with
    | Some s => if truthy_str s then parsed_toISOString rt s
                else now_toISOString rt
    | None => now_toISOString rt
    end in
  ret {| provider := "weatherapi";
         location := location_of l;
         observedAt := observed;
         temperatureC := temp_c c;
         temperatureF := temp_f c;
         feelsLikeC := feelslike_c c;
         feelsLikeF := feelslike_f c;
         humidity := wa_humidity c;
         windKph := wind_kph c;
         windMph := wind_mph c;
         windDir := wind_dir c;
         pressureMb := pressure_mb c;
         uv := wa_uv c;
         condition := condition_of (wa_condition c) |}.

Definition forecast_url (qStr : string) (ndays : Z) : string :=
  "https://api.weatherapi.com/v1/forecast.json?key=" +:+ weatherApiKey cfg
    +:+ "&q=" +:+ encodeURIComponent rt qStr
    +:+ "&days=" +:+ num_to_string rt (inject_Z ndays)
    +:+ "&aqi=no&alerts=no".

Definition forecast_day_of (fd : WaForecastDay) : ForecastDay :=
  let day := fd_day fd in
  {| date := fd_date fd;
     avgTempC := Finite <$> (day ≫= avgtemp_c);
     avgTempF := Finite <$> (day ≫= avgtemp_f);
     maxTempC := Finite <$> (day ≫= maxtemp_c);
     maxTempF := Finite <$> (day ≫= maxtemp_f);
     minTempC := Finite <$> (day ≫= mintemp_c);
     minTempF := Finite <$> (day ≫= mintemp_f);
     chanceOfRainPct := day ≫= daily_chance_of_rain;
     chanceOfSnowPct := day ≫= daily_chance_of_snow;
     fd_condition := condition_of (day ≫= day_condition) |}.

Definition getForecast (q : LocationQuery) (ndays : option Z) : M Forecast :=
  let ndays := nullish ndays 3 in
  let* qStr := lift (resolveQuery q) in
  let* b := http_get rt (forecast_url qStr ndays) in
  let d := body b in
  let daysOut := forecast_day_of <$> nullish (wa_forecastday d) [] in
  let* l := required rt (wa_location d) in
  ret {| fc_provider := "weatherapi";
         fc_location := location_of l;
         days := daysOut |}.

Definition history_url (qStr dateISO : string) : string :=
  "https://api.weatherapi.com/v1/history.json?key=" +:+ weatherApiKey cfg
    +:+ "&q=" +:+ encodeURIComponent rt qStr
    +:+ "&dt=" +:+ encodeURIComponent rt (str_slice0_10 dateISO).

Definition getHistorical (q : LocationQuery) (dateISO : string)
  : M HistoricalWeather :=
  let* qStr := lift (resolveQuery q) in
  let* b := http_get rt (history_url qStr dateISO) in
  let d := body b in
  let day := wa_forecastday d ≫= head in
  let day_date :=
    match day with
    | Some fd => if truthy_str (fd_date fd) then Some (fd_date fd) else None
    | None => None
    end in
  let dd := day ≫= fd_day in
  let cur := wa_current d in
  let* l := required rt (wa_location d) in
  let* observed :=
    match day_date with
    | Some s => parsed_toISOString rt s
    | None => now_toISOString rt
    end in
  ret {| hw_date := nullish day_date (str_slice0_10 dateISO);
         hw_current :=
           {| provider := "weatherapi";
              location := location_of l;
              observedAt := observed;
              temperatureC :=
                nullish (nullish_o (dd ≫= avgtemp_c) (temp_c <$> cur)) 0%Q;
              temperatureF :=
                nullish (nullish_o (dd ≫= avgtemp_f) (temp_f <$> cur)) 0%Q;
              feelsLikeC := cur ≫= feelslike_c;
              feelsLikeF := cur ≫= feelslike_f;
              humidity := nullish_o (dd ≫= avghumidity) (cur ≫= wa_humidity);
              windKph := nullish_o (dd ≫= maxwind_kph) (cur ≫= wind_kph);
              windMph := nullish_o (dd ≫= maxwind_mph) (cur ≫= wind_mph);
              windDir := cur ≫= wind_dir;
              pressureMb := cur ≫= pressure_mb;
              uv := cur ≫= wa_uv;
              condition := condition_of (dd ≫= day_condition) |} |}.
End Adapter.
End wa.

(** ** The OpenWeather adapter ([weather/providers/openWeather.ts]) *)
Module ow.

(** The per-day accumulator of [getForecast]. *)
Record Bucket : Type := {
  tempsC : list Q;
  tempsF : list Q;
  rainSlots : nat;
  snowSlots : nat;
  totalSlots : nat;
  condText : option string;
  bk_icon : option string;
  bk_code : option Q
}.

Definition empty_bucket : Bucket :=
  {| tempsC := []; tempsF := []; rainSlots := 0; snowSlots := 0;
     totalSlots := 0; condText := None; bk_icon := None; bk_code := None |}.

Definition unitsParam (units : Units) : string :=
  match units with
  | imperial => "imperial"
  | metric => "metric"
  end.

(** [units === "metric" ? t : (t - 32) * (5 / 9)] *)
Definition to_celsius (units : Units) (t : Q) : Q :=
  match units with
  | metric => t
  | imperial => ((t - 32) * (5 / 9))%Q
  end.

(** [units === "imperial" ? t : t * (9 / 5) + 32] *)
Definition to_fahrenheit (units : Units) (t : Q) : Q :=
  match units with
  | imperial => t
  | metric => (t * (9 / 5) + 32)%Q
  end.

Definition icon_url (i : option string) : option string :=
  match i with
  | Some s =>
      if truthy_str s
      then Some ("https://openweathermap.org/img/wn/" +:+ s +:+ "@2x.png")
      else None
  | None => None
  end.

Section Adapter.
Context (rt : Runtime) (cfg : Config).

Definition invalid_query : JsError :=
  Error "OpenWeather: provide city or lat/lon".

Definition resolveQueryParams (q : LocationQuery) : Result string :=
  match lat q, lon q with
  | Some la, Some lo =>
      Ok ("lat=" +:+ num_to_string rt la +:+ "&lon=" +:+ num_to_string rt lo)
  | _, _ =>
      match city q with
      | Some c =>
          if truthy_str c then
            let k := match country q with
                     | Some k => if truthy_str k
                                 then "," +:+ encodeURIComponent rt k
                                 else EmptyString
                     | None => EmptyString
                     end in
            Ok ("q=" +:+ encodeURIComponent rt (c +:+ k))
          else Err invalid_query
      | None => Err invalid_query
      end
  end.

(** [`${x?.lat},${x?.lon}`] *)
Definition coord_label (c : option OwCoord) : string :=
  match c with
  | Some c => num_to_string rt (coord_lat c) +:+ "," +:+ num_to_string rt (coord_lon c)
  | None => "undefined,undefined"
  end.

Definition current_body (b : Body) : OwCurrentJson :=
  match b with
  | OwCurrentBody d => d
  | _ => {| ow_name := None; ow_coord := None; ow_sys_country := None;
            ow_dt := 0; ow_main := None; ow_wind := None;
            ow_weather0 := None |}
  end.

Definition current_url (params : string) (units : Units) : string :=
  "https://api.openweathermap.org/data/2.5/weather?" +:+ params
    +:+ "&appid=" +:+ openWeatherApiKey cfg
    +:+ "&units=" +:+ unitsParam units.

Definition getCurrent (q : LocationQuery) (units : option Units)
  : M CurrentWeather :=
  let units := nullish units (defaultUnits cfg) in
  let* params := lift (resolveQueryParams q) in
  let* b := http_get rt (current_url params units) in
  let d := current_body b in
  let name := if truthy_ostr (ow_name d) then nullish (ow_name d) EmptyString
              else coord_label (ow_coord d) in
  let* m := required rt (ow_main d) in
  let tempC := to_celsius units (temp m) in
  let tempF := to_fahrenheit units (temp m) in
  let feelsC := to_celsius units (feels_like m) in
  let feelsF := to_fahrenheit units (feels_like m) in
  let* c := required rt (ow_coord d) in
  let* observed := lift (toISOString rt (ow_dt d * 1000)) in
  let* wd := required rt (ow_wind d) in
  ret {| provider := "openweather";
         location := {| loc_name := name; loc_lat := coord_lat c;
                        loc_lon := coord_lon c;
                        loc_country := ow_sys_country d |};
         observedAt := observed;
         temperatureC := tempC;
         temperatureF := tempF;
         feelsLikeC := Some feelsC;
         feelsLikeF := Some feelsF;
         humidity := ow_humidity m;
         windKph := Some (match units with
                          | metric => speed wd * 3.6
                          | imperial => speed wd * 1.60934
                          end)%Q;
         windMph := Some (match units with
                          | imperial => speed wd
                          | metric => (speed wd * 3.6) / 1.60934
                          end)%Q;
         windDir := (fun g => num_to_string rt g +:+ "°") <$> deg wd;
         pressureMb := pressure m;
         uv := None;
         condition :=
           {| text := or_str (ow_weather0 d ≫= description) (Some "Unknown");
              iconUrl := icon_url (ow_weather0 d ≫= icon);
              code := ow_weather0 d ≫= weather_id |} |}.

Definition forecast_body (b : Body) : OwForecastJson :=
  match b with
  | OwForecastBody d => d
  | _ => {| ow_city := None; ow_list := None |}
  end.

Definition forecast_url (params : string) (units : Units) : string :=
  "https://api.openweathermap.org/data/2.5/forecast?" +:+ params
    +:+ "&appid=" +:+ openWeatherApiKey cfg
    +:+ "&units=" +:+ unitsParam units.

(** [new Date(item.dt * 1000).toISOString().slice(0, 10)] *)
Definition isoDate_of (item : OwItem) : Result string :=
  match toISOString rt (dt item * 1000) with
  | Ok s => Ok (str_slice0_10 s)
  | Err e => Err e
  end.

(** What one turn of the loop does to the record of its day: the two
    [push], the three counters, the three [cond?.x || rec.x]. *)
Definition push_slot (units : Units) (m : OwMain) (item : OwItem)
    (rec : Bucket) : Bucket :=
  let tempC := to_celsius units (temp m) in
  let tempF := to_fahrenheit units (temp m) in
  let cond := weather0 item in
  {| tempsC := tempsC rec ++ [tempC];
     tempsF := tempsF rec ++ [tempF];
     rainSlots := if truthy_onum (rain3h item)
                  then S (rainSlots rec) else rainSlots rec;
     snowSlots := if truthy_onum (snow3h item)
                  then S (snowSlots rec) else snowSlots rec;
     totalSlots := S (totalSlots rec);
     condText := or_str (cond ≫= description) (condText rec);
     bk_icon := or_str (cond ≫= icon) (bk_icon rec);
     bk_code := or_num (cond ≫= weather_id) (bk_code rec) |}.

(** One turn of the loop once [isoDate] and [item.main] are known: the
    record of the day is created if need be, then updated. *)
Definition add_slot (units : Units) (isoDate : string) (m : OwMain)
    (item : OwItem) (byDate : gmap string Bucket) : gmap string Bucket :=
  let rec := match byDate !! isoDate with
             | Some r => r
             | None => empty_bucket
             end in
  <[ isoDate := push_slot units m item rec ]> byDate.

(** [for (const item of d.list) { ... }] *)
Fixpoint aggregate (units : Units) (items : list OwItem)
    (byDate : gmap string Bucket) : Result (gmap string Bucket) :=
  match items with
  | [] => Ok byDate
  | item :: rest =>
      match isoDate_of item with
      | Err e => Err e
      | Ok isoDate =>
          match main item with
          | None => Err (TypeError (type_error_message rt))
          | Some m => aggregate units rest (add_slot units isoDate m item byDate)
          end
      end
  end.

(** [Math.round((slots / total) * 100)], guarded by [total]: the quotient
    and the product are those of doubles. *)
Definition chance (slots total : nat) : option Q :=
  match total with
  | O => None
  | S _ => Some (inject_Z (Math_round
             (Double.mul (Double.div (inject_Z (Z.of_nat slots))
                                     (inject_Z (Z.of_nat total))) 100)))
  end.

(** The body of [sortedDates.map(date => ...)]. *)
Definition day_of (date : string) (rec : Bucket) : ForecastDay :=
  {| date := date;
     avgTempC := Some (div_length (JS.sum (tempsC rec)) (length (tempsC rec)));
     avgTempF := Some (div_length (JS.sum (tempsF rec)) (length (tempsF rec)));
     maxTempC := Some (Math_max (tempsC rec));
     maxTempF := Some (Math_max (tempsF rec));
     minTempC := Some (Math_min (tempsC rec));
     minTempF := Some (Math_min (tempsF rec));
     chanceOfRainPct := chance (rainSlots rec) (totalSlots rec);
     chanceOfSnowPct := chance (snowSlots rec) (totalSlots rec);
     fd_condition := {| text := condText rec;
                        iconUrl := icon_url (bk_icon rec);
                        code := bk_code rec |} |}.

Fixpoint days_out (byDate : gmap string Bucket) (dates : list string)
  : Result (list ForecastDay) :=
  match dates with
  | [] => Ok []
  | date :: rest =>
      match byDate !! date with
      | None => Err (TypeError (type_error_message rt))
      | Some rec =>
          match days_out byDate rest with
          | Ok ds => Ok (day_of date rec :: ds)
          | Err e => Err e
          end
      end
  end.

(** [Object.keys(byDate).sort().slice(0, days)] *)
Definition sortedDates (byDate : gmap string Bucket) (ndays : Z) : list string :=
  slice0 ndays (sort_strings (map_to_list byDate).*1).

Definition getForecast (q : LocationQuery) (units : option Units)
    (ndays : option Z) : M Forecast :=
  let units := nullish units (defaultUnits cfg) in
  let ndays := nullish ndays 3 in
  let* params := lift (resolveQueryParams q) in
  let* b := http_get rt (forecast_url params units) in
  let d := forecast_body b in
  let name :=
    if truthy_ostr (ow_city d ≫= city_name)
    then nullish (ow_city d ≫= city_name) EmptyString
    else coord_label (ow_city d ≫= city_coord) in
  let* items := required rt (ow_list d) in
  let* byDate := lift (aggregate units items ∅) in
  let* daysOut := lift (days_out byDate (sortedDates byDate ndays)) in
  let* cy := required rt (ow_city d) in
  let* c := required rt (city_coord cy) in
  ret {| fc_provider := "openweather";
         fc_location := {| loc_name := name; loc_lat := coord_lat c;
                           loc_lon := coord_lon c;
                           loc_country := city_country cy |};
         days := daysOut |}.

(** [export async function getHistorical(): Promise<null>]: not
    supported on free OpenWeather. *)
Definition getHistorical : M (option HistoricalWeather) := ret None.
End Adapter.
End ow.

(** ** The aggregator ([weather/aggregator.ts]) *)
Module Aggregator.
Section Aggregator.
Context (rt : Runtime) (cfg : Config).

Definition keyOf (prefix : string) (q : LocationQuery)
    (extra : option Extra) : string :=
  prefix +:+ ":" +:+ JSON_stringify_query rt q
         +:+ ":" +:+ JSON_stringify_extra rt extra.

(** [ttl: config.cacheTtlSeconds * 1000] and
    [ttl: config.forecastCacheTtlSeconds * 1000] *)
Definition current_ttl : Z := cacheTtlSeconds cfg * 1000.
Definition forecast_ttl : Z := forecastCacheTtlSeconds cfg * 1000.
Definition historical_ttl : Z := cacheTtlSeconds cfg * 1000.

Definition currentCache_get (key : string) : M (option CurrentWeather) :=
  fun w =>
    let '(v, c) := LRUCache.get current_ttl (now w) key (currentCache w) in
    (Ok v, {| now := now w; requests := requests w; console := console w;
              currentCache := c; forecastCache := forecastCache w;
              historicalCache := historicalCache w |}).

Definition currentCache_set (key : string) (v : CurrentWeather) : M unit :=
  fun w =>
    (Ok tt, {| now := now w; requests := requests w; console := console w;
               currentCache := LRUCache.set (now w) key v (currentCache w);
               forecastCache := forecastCache w;
               historicalCache := historicalCache w |}).

Definition forecastCache_get (key : string) : M (option Forecast) :=
  fun w =>
    let '(v, c) := LRUCache.get forecast_ttl (now w) key (forecastCache w) in
    (Ok v, {| now := now w; requests := requests w; console := console w;
              currentCache := currentCache w; forecastCache := c;
              historicalCache := historicalCache w |}).

Definition forecastCache_set (key : string) (v : Forecast) : M unit :=
  fun w =>
    (Ok tt, {| now := now w; requests := requests w; console := console w;
               currentCache := currentCache w;
               forecastCache := LRUCache.set (now w) key v (forecastCache w);
               historicalCache := historicalCache w |}).

Definition historicalCache_get (key : string) : M (option HistoricalWeather) :=
  fun w =>
    let '(v, c) := LRUCache.get historical_ttl (now w) key (historicalCache w) in
    (Ok v, {| now := now w; requests := requests w; console := console w;
              currentCache := currentCache w;
              forecastCache := forecastCache w; historicalCache := c |}).

Definition historicalCache_set (key : string) (v : HistoricalWeather) : M unit :=
  fun w =>
    (Ok tt, {| now := now w; requests := requests w; console := console w;
               currentCache := currentCache w;
               forecastCache := forecastCache w;
               historicalCache :=
                 LRUCache.set (now w) key v (historicalCache w) |}).

Definition no_provider : JsError :=
  Error "No weather provider available. Please set API keys in .env".

Definition no_historical : JsError :=
  Error "Historical data not available with current configuration.".

(** The provider attempts of [getCurrentWeather], after a cache miss. *)
Definition fetchCurrent (q : LocationQuery) (units : Units)
  : M (option CurrentWeather) :=
  let* data :=
    if truthy_str (weatherApiKey cfg) then
      try_catch
        (let* d := wa.getCurrent rt cfg q in ret (Some d))
        (fun e =>
           console_warn "WeatherAPI current failed, falling back to OpenWeather:"
                        (message e);;
           ret None)
    else ret None in
  match data with
  | Some d => ret (Some d)
  | None =>
      if truthy_str (openWeatherApiKey cfg) then
        let* d := ow.getCurrent rt cfg q (Some units) in ret (Some d)
      else ret None
  end.

Definition getCurrentWeather (q : LocationQuery) (units : option Units)
  : M CurrentWeather :=
  let units := nullish units (defaultUnits cfg) in
  let key := keyOf "current" q (Some (ExtraUnits units)) in
  let* cached := currentCache_get key in
  match cached with
  | Some c => ret c
  | None =>
      let* data := fetchCurrent q units in
      match data with
      | None => throw no_provider
      | Some d => currentCache_set key d;; ret d
      end
  end.

(** The provider attempts of [getForecast], after a cache miss. *)
Definition fetchForecast (q : LocationQuery) (units : Units) (ndays : Z)
  : M (option Forecast) :=
  let* data :=
    if truthy_str (weatherApiKey cfg) then
      try_catch
        (let* d := wa.getForecast rt cfg q (Some ndays) in ret (Some d))
        (fun e =>
           console_warn "WeatherAPI forecast failed, falling back to OpenWeather:"
                        (message e);;
           ret None)
    else ret None in
  match data with
  | Some d => ret (Some d)
  | None =>
      if truthy_str (openWeatherApiKey cfg) then
        let* d := ow.getForecast rt cfg q (Some units) (Some ndays) in
        ret (Some d)
      else ret None
  end.

Definition getForecast (q : LocationQuery) (units : option Units)
    (ndays : option Z) : M Forecast :=
  let units := nullish units (defaultUnits cfg) in
  let ndays := nullish ndays 3 in
  let key := keyOf "forecast" q (Some (ExtraUnitsDays units ndays)) in
  let* cached := forecastCache_get key in
  match cached with
  | Some c => ret c
  | None =>
      let* data := fetchForecast q units ndays in
      match data with
      | None => throw no_provider
      | Some d => forecastCache_set key d;; ret d
      end
  end.

(** The provider attempt of [getHistorical], after a cache miss. *)
Definition fetchHistorical (q : LocationQuery) (dateISO : string)
  : M (option HistoricalWeather) :=
  if truthy_str (weatherApiKey cfg) then
    try_catch
      (let* d := wa.getHistorical rt cfg q dateISO in ret (Some d))
      (fun e =>
         console_warn "WeatherAPI historical failed:" (message e);;
         ret None)
  else ret None.

Definition getHistorical (q : LocationQuery) (dateISO : string)
  : M HistoricalWeather :=
  let key := keyOf "historical" q (Some (ExtraDate dateISO)) in
  let* cached := historicalCache_get key in
  match cached with
  | Some c => ret c
  | None =>
      let* data := fetchHistorical q dateISO in
      match data with
      | None => throw no_historical
      | Some d => historicalCache_set key d;; ret d
      end
  end.
End Aggregator.
End Aggregator.

(** ** The alert service ([alerts/alertService.ts]) *)
Module AlertService.

(** The module-level state: the [alerts] map (a [Map] keeps insertion
    order, so the entries are listed in that order, each under the key
    [id] it carries), the two scheduler variables, and how many ids have
    been drawn. *)
Record State : Type := {
  alerts : list WeatherAlert;
  schedulerStarted : bool;
  intervalHandle : option Z;
  draws : nat
}.

Definition initial : State :=
  {| alerts := []; schedulerStarted := false; intervalHandle := None;
     draws := 0 |}.

(** [alerts.set(id, full)]: an existing key keeps its place. *)
Fixpoint map_set (a : WeatherAlert) (l : list WeatherAlert) : list WeatherAlert :=
  match l with
  | [] => [a]
  | x :: r => if String.eqb (id x) (id a) then a :: r else x :: map_set a r
  end.

Definition map_has (i : string) (l : list WeatherAlert) : bool :=
  existsb (fun x => String.eqb (id x) i) l.

Definition map_delete (i : string) (l : list WeatherAlert) : list WeatherAlert :=
  List.filter (fun x => negb (String.eqb (id x) i)) l.

Definition listAlerts (st : State) : list WeatherAlert := alerts st.

Definition removeAlert (i : string) (st : State) : bool * State :=
  (map_has i (alerts st),
   {| alerts := map_delete i (alerts st);
      schedulerStarted := schedulerStarted st;
      intervalHandle := intervalHandle st; draws := draws st |}).

(** [base * 0.9] and [base * 1.1] are products of doubles: the literal is
    the double nearest to the decimal, the product is rounded again. *)
Definition adjustThreshold (base : Q) (s : option Sensitivity) : Q :=
  match s with
  | None | Some medium => base
  | Some high => Double.mul base (Double.round 0.9)
  | Some low => Double.mul base (Double.round 1.1)
  end.

Section Service.
Context (rt : Runtime) (cfg : Config).

Definition generateId (st : State) : string := random_id rt (draws st).

(** [{ ...alert, id, createdAt: new Date().toISOString() }], stored and
    returned.  The clock is read, nothing else of the world is used. *)
Definition registerAlert (alert : AlertInput) (st : State) (w : World)
  : WeatherAlert * State :=
  let i := generateId st in
  let full := {| id := i;
                 name := in_name alert;
                 alert_location := in_location alert;
                 alert_condition := in_condition alert;
                 channel := in_channel alert;
                 webhookUrl := in_webhookUrl alert;
                 sensitivity := in_sensitivity alert;
                 createdAt := Date_toISOString rt (now w);
                 lastTriggeredAt := in_lastTriggeredAt alert |} in
  (full, {| alerts := map_set full (alerts st);
            schedulerStarted := schedulerStarted st;
            intervalHandle := intervalHandle st;
            draws := S (draws st) |}).

(** [await axios.post(url, body)] inside its [try]/[catch]. *)
Definition post_webhook (url : string) (body : WebhookBody) : World -> World :=
  fun w =>
    let '(r, elapsed) := axios_post rt (requests w) (now w) url body in
    let w' := {| now := now w + elapsed;
                 requests := requests w ++ [POST url body];
                 console := console w;
                 currentCache := currentCache w;
                 forecastCache := forecastCache w;
                 historicalCache := historicalCache w |} in
    match r with
    | None => w'
    | Some m => (console_warn "Webhook notify failed:" m w').2
    end.

(** [notify] stamps the alert object it is given and dispatches; the
    stamped object is returned with the world. *)
Definition notify (alert : WeatherAlert) (msg : string)
    (payload : option Payload) : World -> WeatherAlert * World :=
  fun w =>
    let alert' := {| id := id alert; name := name alert;
                     alert_location := alert_location alert;
                     alert_condition := alert_condition alert;
                     channel := channel alert;
                     webhookUrl := webhookUrl alert;
                     sensitivity := sensitivity alert;
                     createdAt := createdAt alert;
                     lastTriggeredAt := Some (Date_toISOString rt (now w)) |} in
    match channel alert' with
    | console_channel =>
        (alert', (console_log (ConsoleAlert (id alert') msg payload) w).2)
    | webhook =>
        match webhookUrl alert' with
        | Some url =>
            if truthy_str url then
              (alert', post_webhook url
                         {| wb_id := id alert'; wb_message := msg;
                            wb_alert := alert'; wb_payload := payload |} w)
            else (alert', w)
        | None => (alert', w)
        end
    end.

Definition notify_if (b : bool) (alert : WeatherAlert) (msg : string)
    (payload : option Payload) : M WeatherAlert :=
  fun w =>
    if b then let '(a, w') := notify alert msg payload w in (Ok a, w')
    else (Ok alert, w).

(** [evaluateAlert]; the result is the alert object as the call leaves
    it.  A thrown error leaves the object as it was: [notify] is the
    only writer and nothing throws after it. *)
Definition evaluateAlert (alert : WeatherAlert) : M WeatherAlert :=
  let cond := alert_condition alert in
  match type cond with
  | rain =>
      let ndays := nullish (daysAhead cond) 1 in
      let* forecast :=
        Aggregator.getForecast rt cfg (alert_location alert) None (Some ndays) in
      let raining :=
        existsb (fun d => Qle_bool (adjustThreshold 50 (sensitivity alert))
                                   (nullish (chanceOfRainPct d) 0%Q))
                (days forecast) in
      notify_if raining alert
        ("Rain expected within " +:+ num_to_string rt (inject_Z ndays)
           +:+ " day(s) at " +:+ JSON_stringify_location rt (fc_location forecast))
        (Some (PayloadForecast forecast))
  | ty =>
      let* current :=
        Aggregator.getCurrentWeather rt cfg (alert_location alert) None in
      match ty, threshold cond with
      | temp_above, Some t =>
          let thr := adjustThreshold t (sensitivity alert) in
          notify_if (Qle_bool thr (temperatureC current)) alert
            ("Temperature above " +:+ num_to_string rt thr +:+ "°C at "
               +:+ loc_name (location current))
            (Some (PayloadCurrent current))
      | temp_below, Some t =>
          let thr := adjustThreshold t (sensitivity alert) in
          notify_if (Qle_bool (temperatureC current) thr) alert
            ("Temperature below " +:+ num_to_string rt thr +:+ "°C at "
               +:+ loc_name (location current))
            (Some (PayloadCurrent current))
      | wind_above, Some t =>
          let thr := adjustThreshold t (sensitivity alert) in
          let wind := nullish (windKph current) 0%Q in
          notify_if (Qle_bool thr wind) alert
            ("Wind speed above " +:+ num_to_string rt thr +:+ " kph at "
               +:+ loc_name (location current))
            (Some (PayloadCurrent current))
      | _, _ => ret alert
      end
  end.

(** One turn of the loop of [pollAlerts]. *)
Definition poll_one (a : WeatherAlert) (w : World) : WeatherAlert * World :=
  match evaluateAlert a w with
  | (Ok a', w') => (a', w')
  | (Err e, w') =>
      (a, (console_warn "Alert evaluation failed:"
                        (id a +:+ " " +:+ message e) w').2)
  end.

Fixpoint poll_items (items : list WeatherAlert) (w : World)
  : list WeatherAlert * World :=
  match items with
  | [] => ([], w)
  | a :: rest =>
      let '(a', w1) := poll_one a w in
      let '(rest', w2) := poll_items rest w1 in
      (a' :: rest', w2)
  end.

(** One sweep.  The objects in [items] are the ones the map holds, so
    the map sees their stamps. *)
Definition pollAlerts (st : State) (w : World) : State * World :=
  let '(items, w') := poll_items (listAlerts st) w in
  ({| alerts := items; schedulerStarted := schedulerStarted st;
      intervalHandle := intervalHandle st; draws := draws st |}, w').

Definition startAlertScheduler (st : State) (w : World) : State * World :=
  if schedulerStarted st then (st, w)
  else
    ({| alerts := alerts st; schedulerStarted := true;
        intervalHandle := Some (alertPollIntervalSeconds cfg * 1000);
        draws := draws st |},
     (console_log
        (ConsoleLog ("Alert scheduler started (every "
           +:+ num_to_string rt (inject_Z (alertPollIntervalSeconds cfg))
           +:+ "s)")) w).2).

Definition stopAlertScheduler (st : State) : State :=
  {| alerts := alerts st; schedulerStarted := false;
     intervalHandle := None; draws := draws st |}.
End Service.
End AlertService.

(** ** A reference runtime

    A concrete [Runtime] on which the definitions above run: the
    ECMAScript [Date] formatting in full, integers printed as JavaScript
    prints them, and an upstream given as a table.  It serves the worked
    examples; the forecast theorem names [iso_string] to say what it
    assumes of the engine's [Date]. *)
Module Node.

Definition dq : string := String "034"%char EmptyString.

Definition show_Z (z : Z) : string :=
  pretty z.

Fixpoint zeros (n : nat) : string :=
  match n with
  | O => EmptyString
  | S k => String "0"%char (zeros k)
  end.

(** A non-negative [z] on at least [width] digits. *)
Definition pad (width : nat) (z : Z) : string :=
  let s := show_Z z in
  zeros (width - String.length s) +:+ s.

(** Year, month and day of the day numbered [z] from 1970-01-01. *)
Definition civil_from_days (z : Z) : Z * Z * Z :=
  let z := z + 719468 in
  let era := z / 146097 in
  let doe := z - era * 146097 in
  let yoe := (doe - doe / 1460 + doe / 36524 - doe / 146096) / 365 in
  let y := yoe + era * 400 in
  let doy := doe - (365 * yoe + yoe / 4 - yoe / 100) in
  let mp := (5 * doy + 2) / 153 in
  let d := doy - (153 * mp + 2) / 5 + 1 in
  let m := if mp <? 10 then mp + 3 else mp - 9 in
  (if m <=? 2 then y + 1 else y, m, d).

Definition show_year (y : Z) : string :=
  if (0 <=? y) && (y <=? 9999) then pad 4 y
  else if y <? 0 then "-" +:+ pad 6 (- y)
  else "+" +:+ pad 6 y.

Definition iso_string (ms : Z) : string :=
  let '(y, m, d) := civil_from_days (ms / 86400000) in
  let t := ms mod 86400000 in
  show_year y +:+ "-" +:+ pad 2 m +:+ "-" +:+ pad 2 d +:+ "T"
    +:+ pad 2 (t / 3600000) +:+ ":" +:+ pad 2 (t mod 3600000 / 60000)
    +:+ ":" +:+ pad 2 (t mod 60000 / 1000) +:+ "." +:+ pad 3 (t mod 1000)
    +:+ "Z".

(** Integers as JavaScript prints them; another rational as a fraction. *)
Definition show_num (q : Q) : string :=
  let r := Qred q in
  if (Z.pos (Qden r) =? 1) then show_Z (Qnum r)
  else show_Z (Qnum r) +:+ "/" +:+ show_Z (Z.pos (Qden r)).

Definition show_ostr (o : option string) : string :=
  match o with
  | Some s => dq +:+ s +:+ dq
  | None => "null"
  end.

Definition show_onum (o : option Q) : string :=
  match o with
  | Some q => show_num q
  | None => "null"
  end.

Definition show_units (u : Units) : string :=
  match u with
  | metric => "metric"
  | imperial => "imperial"
  end.

Definition stringify_query (q : LocationQuery) : string :=
  "{city:" +:+ show_ostr (city q) +:+ ",country:" +:+ show_ostr (country q)
    +:+ ",lat:" +:+ show_onum (lat q) +:+ ",lon:" +:+ show_onum (lon q) +:+ "}".

Definition stringify_extra (e : option Extra) : string :=
  match e with
  | None => "{}"
  | Some (ExtraUnits u) => "{units:" +:+ show_units u +:+ "}"
  | Some (ExtraUnitsDays u n) =>
      "{units:" +:+ show_units u +:+ ",days:" +:+ show_Z n +:+ "}"
  | Some (ExtraDate s) => "{dateISO:" +:+ dq +:+ s +:+ dq +:+ "}"
  end.

Definition stringify_location (l : Location) : string :=
  "{name:" +:+ dq +:+ loc_name l +:+ dq
    +:+ ",lat:" +:+ show_num (loc_lat l)
    +:+ ",lon:" +:+ show_num (loc_lon l)
    +:+ ",country:" +:+ show_ostr (loc_country l) +:+ "}".

(** The runtime whose upstream answers [get] to a GET and lets every
    POST through, each call taking [latency] milliseconds. *)
Definition runtime (get : list Request -> string -> HttpResult) (latency : Z)
  : Runtime :=
  {| num_to_string := show_num;
     encodeURIComponent := fun s => s;
     JSON_stringify_query := stringify_query;
     JSON_stringify_extra := stringify_extra;
     JSON_stringify_location := stringify_location;
     Date_toISOString := iso_string;
     Date_parse := fun _ => None;
     axios_get := fun log _ url => (get log url, latency);
     axios_post := fun _ _ _ _ => (None, latency);
     random_id := fun n => "id" +:+ show_Z (Z.of_nat n);
     type_error_message := "Cannot read properties of undefined";
     range_error_message := "Invalid time value" |}.

Definition config (waKey owKey : string) : Config :=
  {| openWeatherApiKey := owKey; weatherApiKey := waKey;
     defaultUnits := metric; cacheTtlSeconds := 600;
     forecastCacheTtlSeconds := 10800; alertPollIntervalSeconds := 600 |}.

End Node.

(** * Vocabulary of the properties *)

(** A query resolves when it has both coordinates or a non-empty city: the
    two tests of [resolveQuery] and [resolveQueryParams]. *)
Definition resolves (q : LocationQuery) : bool :=
  match lat q, lon q with
  | Some _, Some _ => true
  | _, _ => truthy_ostr (city q)
  end.

Definition nowhere : LocationQuery :=
  {| city := None; country := None; lat := None; lon := None |}.

(** The invariant the data model asks of a stored alert: [webhookUrl] is
    present exactly when the channel is [webhook]. *)
Definition url_iff_webhook (a : WeatherAlert) : Prop :=
  is_Some (webhookUrl a) <-> channel a = webhook.

Definition oslo : LocationQuery :=
  {| city := Some "Oslo"; country := None; lat := None; lon := None |}.

(** A webhook alert registered without a URL. *)
Definition webhook_without_url : AlertInput :=
  {| in_name := Some "heat"; in_location := oslo;
     in_condition := {| type := temp_above; threshold := Some 30%Q;
                        daysAhead := None |};
     in_channel := webhook; in_webhookUrl := None;
     in_sensitivity := Some high; in_lastTriggeredAt := None |}.

Definition offline : Runtime := Node.runtime (fun _ _ => HttpFail "unreachable") 0.

(** ** What a computation may change

    [keeps R m]: whatever the outcome, the world [m] leaves is related by
    [R] to the world it started in. *)
Definition keeps {A} (R : relation World) (m : M A) : Prop :=
  forall w, R w (m w).2.

Definition is_get (r : Request) : Prop :=
  match r with
  | GET _ => True
  | POST _ _ => False
  end.

Definition is_warn (l : ConsoleLine) : Prop :=
  match l with
  | ConsoleWarn _ _ => True
  | _ => False
  end.

(** The world only gained GET requests and warnings. *)
Definition grows (w w' : World) : Prop :=
  (exists rs, requests w' = requests w ++ rs /\ Forall is_get rs) /\
  (exists ls, console w' = console w ++ ls /\ Forall is_warn ls).

(** The component [f] of the world is the same in [w] and [w']. *)
Definition same_on {X} (f : World -> X) (w w' : World) : Prop := f w' = f w.

Definition same_caches (w w' : World) : Prop :=
  same_on currentCache w w' /\ same_on forecastCache w w' /\
  same_on historicalCache w w'.

(** Nothing changed. *)
Definition unchanged (w w' : World) : Prop := w' = w.

(** The world did not change, or changed by one GET request. *)
Definition one_get (rt : Runtime) (w w' : World) : Prop :=
  w' = w \/ exists url, w' = (http_get rt url w).2.

(** The alert ids that have been dispatched on the webhook channel and on
    the console channel. *)
Definition posted_ids (w : World) : list string :=
  omap (fun r => match r with
                 | POST _ b => Some (wb_id b)
                 | GET _ => None
                 end) (requests w).

Definition logged_ids (w : World) : list string :=
  omap (fun l => match l with
                 | ConsoleAlert i _ _ => Some i
                 | _ => None
                 end) (console w).

(** Nothing was dispatched between [w] and [w']. *)
Definition silent (w w' : World) : Prop :=
  posted_ids w' = posted_ids w /\ logged_ids w' = logged_ids w.



(** A temperature or wind alert registered without a threshold. *)
Definition thresholdless (a : WeatherAlert) : Prop :=
  type (alert_condition a) <> rain /\ threshold (alert_condition a) = None.

(** Whatever was dispatched between [w] and [w'] carries the alert id [i]. *)
Definition dispatch_only (i : string) (w w' : World) : Prop :=
  exists ps ls,
    posted_ids w' = posted_ids w ++ ps /\
    logged_ids w' = logged_ids w ++ ls /\
    Forall (eq i) (ps ++ ls).

(** Whatever was dispatched between [w] and [w'] carries an id other than
    [i]. *)
Definition dispatch_avoids (i : string) (w w' : World) : Prop :=
  exists ps ls,
    posted_ids w' = posted_ids w ++ ps /\
    logged_ids w' = logged_ids w ++ ls /\
    (i ∉ ps) /\ (i ∉ ls).

(** ** Worked scenarios *)

(** An OpenWeather answer reporting 28 degrees Celsius. *)
Definition ow_current_28 : OwCurrentJson :=
  {| ow_name := Some "Oslo";
     ow_coord := Some {| coord_lat := 60%Q; coord_lon := 10%Q |};
     ow_sys_country := Some "NO";
     ow_dt := 1700000000;
     ow_main := Some {| temp := 28%Q; feels_like := 27%Q;
                        ow_humidity := Some 40%Q; pressure := Some 1013%Q |};
     ow_wind := Some {| speed := 5%Q; deg := Some 180%Q |};
     ow_weather0 := Some {| description := Some "clear sky";
                            icon := Some "01d"; weather_id := Some 800%Q |} |}.

(** A deployment with only the OpenWeather key, whose upstream gives that
    answer. *)
Definition ow_only : Config := Node.config EmptyString "ow-key".

Definition upstream_28 : Runtime :=
  Node.runtime (fun _ _ => HttpOk (OwCurrentBody ow_current_28)) 120.

(** A [temp_above] alert with threshold 30. *)
Definition heat_alert (s : option Sensitivity) : WeatherAlert :=
  {| id := "k3v9x"; name := Some "heat"; alert_location := oslo;
     alert_condition := {| type := temp_above; threshold := Some 30%Q;
                           daysAhead := None |};
     channel := console_channel; webhookUrl := None; sensitivity := s;
     createdAt := "2023-11-14T00:00:00.000Z"; lastTriggeredAt := None |}.

(** A wind alert registered without a threshold. *)
Definition wind_alert_no_threshold : WeatherAlert :=
  {| id := "q7m2c"; name := None; alert_location := oslo;
     alert_condition := {| type := wind_above; threshold := None;
                           daysAhead := None |};
     channel := console_channel; webhookUrl := None; sensitivity := None;
     createdAt := "2023-11-14T00:00:00.000Z"; lastTriggeredAt := None |}.

(** A registry holding the two alerts, the scheduler running. *)
Definition two_alerts : AlertService.State :=
  {| AlertService.alerts := [heat_alert (Some high); wind_alert_no_threshold];
     AlertService.schedulerStarted := true;
     AlertService.intervalHandle := Some 600000;
     AlertService.draws := 2 |}.

(** Between [w] and [w'] at most [n] requests were made, all of them GET. *)
Definition gets_at_most (n : nat) (w w' : World) : Prop :=
  exists rs, requests w' = requests w ++ rs /\ Forall is_get rs /\
             (length rs <= n)%nat.

Definition at_most {A} (n : nat) (m : M A) : Prop :=
  forall w, gets_at_most n w (m w).2.

(** The cache keys the aggregator uses. *)
Definition current_key (rt : Runtime) (cfg : Config) (q : LocationQuery)
    (u : option Units) : string :=
  Aggregator.keyOf rt "current" q
    (Some (ExtraUnits (nullish u (defaultUnits cfg)))).

Definition historical_key (rt : Runtime) (q : LocationQuery)
    (dateISO : string) : string :=
  Aggregator.keyOf rt "historical" q (Some (ExtraDate dateISO)).

Arguments Aggregator.keyOf : simpl never.
Arguments current_key : simpl never.
Arguments historical_key : simpl never.

(** What [getCurrentWeather] and [getForecast] do once WeatherAPI has
    failed with [e]: warn, then ask OpenWeather if it is configured. *)
Definition after_wa_current_failure (rt : Runtime) (cfg : Config)
    (q : LocationQuery) (u : Units) (e : JsError) : M (option CurrentWeather) :=
  console_warn "WeatherAPI current failed, falling back to OpenWeather:"
               (message e);;
  if truthy_str (openWeatherApiKey cfg) then
    let* d := ow.getCurrent rt cfg q (Some u) in ret (Some d)
  else ret None.

Definition after_wa_forecast_failure (rt : Runtime) (cfg : Config)
    (q : LocationQuery) (u : Units) (n : Z) (e : JsError) : M (option Forecast) :=
  console_warn "WeatherAPI forecast failed, falling back to OpenWeather:"
               (message e);;
  if truthy_str (openWeatherApiKey cfg) then
    let* d := ow.getForecast rt cfg q (Some u) (Some n) in ret (Some d)
  else ret None.

(** The outcomes of [getCurrentWeather] and [getForecast]: a result, the
    terminal error, or the error the OpenWeather adapter raised. *)
Definition result_terminal_or_ow {A} (cfg : Config) (r : Result A)
    (ow_outcome : World -> Result A) : Prop :=
  is_ok r = true \/
  r = Err Aggregator.no_provider \/
  (truthy_str (openWeatherApiKey cfg) = true /\
   exists w0, r = ow_outcome w0 /\ is_ok r = false).

Definition both_keys : Config := Node.config "wa-key" "ow-key".
Definition wa_only : Config := Node.config "wa-key" EmptyString.
Definition no_keys : Config := Node.config EmptyString EmptyString.

(** WeatherAPI answers 503, OpenWeather answers. *)
Definition wa_down_ow_up : Runtime :=
  Node.runtime
    (fun _ url =>
       if String.prefix "https://api.weatherapi.com/" url
       then HttpFail "Request failed with status code 503"
       else HttpOk (OwCurrentBody ow_current_28))
    120.

(** The worlds a deployment can be in: it starts with empty caches, the
    three operations of the aggregator write them, and nothing else does
    (time passing, the alert service and the console leave them alone). *)
Inductive reachable (rt : Runtime) (cfg : Config) : World -> Prop :=
| reach_start t : reachable rt cfg (initial_world t)
| reach_getCurrentWeather w q u :
    reachable rt cfg w ->
    reachable rt cfg (Aggregator.getCurrentWeather rt cfg q u w).2
| reach_getForecast w q u n :
    reachable rt cfg w ->
    reachable rt cfg (Aggregator.getForecast rt cfg q u n w).2
| reach_getHistorical w q d :
    reachable rt cfg w ->
    reachable rt cfg (Aggregator.getHistorical rt cfg q d w).2
| reach_elsewhere w w' :
    reachable rt cfg w -> same_caches w w' -> reachable rt cfg w'.

Definition others_than_current (w w' : World) : Prop :=
  same_on forecastCache w w' /\ same_on historicalCache w w'.
Definition others_than_forecast (w w' : World) : Prop :=
  same_on currentCache w w' /\ same_on historicalCache w w'.
Definition others_than_historical (w w' : World) : Prop :=
  same_on currentCache w w' /\ same_on forecastCache w w'.

(** The requests a call for historical data adds: none, or the one GET of
    the history endpoint of WeatherAPI. *)
Definition history_requests (rt : Runtime) (cfg : Config) (q : LocationQuery)
    (d : string) (rs : list Request) : Prop :=
  rs = [] \/
  exists qStr, wa.resolveQuery rt q = Ok qStr /\
               rs = [GET (wa.history_url rt cfg qStr d)].

(** ** Vocabulary of the forecast bucketing *)

(** The adapter files the item under the key [date]. *)
Definition on_date (rt : Runtime) (date : string) (item : OwItem) : bool :=
  match ow.isoDate_of rt item with
  | Ok s => String.eqb s date
  | Err _ => false
  end.

(** The samples filed under a key, in the order received. *)
Definition samples_on (rt : Runtime) (date : string) (items : list OwItem)
  : list OwItem :=
  List.filter (on_date rt date) items.

(** The temperature a sample reports, in the units asked of the upstream. *)
Definition sample_temp (item : OwItem) : Q :=
  match main item with
  | Some m => temp m
  | None => 0%Q
  end.

Definition rain_flagged (item : OwItem) : bool := truthy_onum (rain3h item).
Definition snow_flagged (item : OwItem) : bool := truthy_onum (snow3h item).

(** The sum of a list of numbers. *)
Definition total (l : list Q) : Q := fold_right Qplus 0%Q l.

(** [x] is the arithmetic mean of [l]. *)
Definition is_mean (l : list Q) (x : option jsnum) : Prop :=
  exists q, x = Some (Finite q) /\
            (q * inject_Z (Z.of_nat (length l)) == total l)%Q.

(** [x] is the greatest (resp. least) element of [l]. *)
Definition is_max (l : list Q) (x : option jsnum) : Prop :=
  exists q, x = Some (Finite q) /\
            Exists (fun t => (q == t)%Q) l /\ Forall (fun t => (t <= q)%Q) l.

Definition is_min (l : list Q) (x : option jsnum) : Prop :=
  exists q, x = Some (Finite q) /\
            Exists (fun t => (q == t)%Q) l /\ Forall (fun t => (q <= t)%Q) l.

(** [x] is an integer nearest to the percentage [100 * k / n]: no integer
    is closer.  When the percentage falls half-way between two integers
    either is nearest. *)
Definition is_nearest_percentage (k n : nat) (x : option Q) : Prop :=
  exists z : Z,
    x = Some (inject_Z z) /\
    (Qabs (inject_Z z - 100 * inject_Z (Z.of_nat k) / inject_Z (Z.of_nat n))
       <= 1 # 2)%Q.

(** The forecast day [fd] summarises the samples [ss]. *)
Definition summarises (units : Units) (ss : list OwItem) (fd : ForecastDay)
  : Prop :=
  let tc := List.map (fun it => ow.to_celsius units (sample_temp it)) ss in
  let tf := List.map (fun it => ow.to_fahrenheit units (sample_temp it)) ss in
  ss <> [] /\
  is_mean tc (avgTempC fd) /\ is_mean tf (avgTempF fd) /\
  is_max tc (maxTempC fd) /\ is_max tf (maxTempF fd) /\
  is_min tc (minTempC fd) /\ is_min tf (minTempF fd) /\
  is_nearest_percentage (length (List.filter rain_flagged ss)) (length ss)
    (chanceOfRainPct fd) /\
  is_nearest_percentage (length (List.filter snow_flagged ss)) (length ss)
    (chanceOfSnowPct fd).

(** *** The UTC calendar, as the specification means it

    The proleptic Gregorian calendar of ECMAScript's [Date], stated from
    the date to the day number and without reference to the code: the
    forecast theorem compares the adapter's keys with it. *)
Module Calendar.

Definition leap_year (y : Z) : bool :=
  (y mod 4 =? 0) && (negb (y mod 100 =? 0) || (y mod 400 =? 0)).

Definition month_length (leap : bool) (m : Z) : Z :=
  match m with
  | 1 | 3 | 5 | 7 | 8 | 10 | 12 => 31
  | 4 | 6 | 9 | 11 => 30
  | 2 => if leap then 29 else 28
  | _ => 0
  end.

Definition days_in_month (y m : Z) : Z := month_length (leap_year y) m.

(** The day a leap year adds. *)
Definition leap_days (y : Z) : Z := if leap_year y then 1 else 0.

(** The days from 1 January 1970 to 1 January of the year [y]. *)
Definition day_from_year (y : Z) : Z :=
  365 * (y - 1970) + (y - 1969) / 4 - (y - 1901) / 100 + (y - 1601) / 400.

(** The days of the months of [y] before the month [m]. *)
Definition days_before_month (y m : Z) : Z :=
  fold_right Z.add 0
    (List.map (days_in_month y) (List.map Z.of_nat (seq 1 (Z.to_nat (m - 1))))).

(** The days from 1 January 1970 to the day [d] of the month [m] of [y]. *)
Definition day_number (y m d : Z) : Z :=
  day_from_year y + days_before_month y m + (d - 1).

Definition valid_date (y m d : Z) : Prop :=
  1 <= m <= 12 /\ 1 <= d <= days_in_month y m.

(** The last decimal digit of [n]. *)
Definition digit (n : Z) : ascii := ascii_of_nat (48 + Z.to_nat (n mod 10)).

Definition two_digits (n : Z) : string :=
  String (digit (n / 10)) (String (digit n) EmptyString).

Definition four_digits (n : Z) : string :=
  String (digit (n / 1000)) (String (digit (n / 100)) (two_digits n)).

(** [YYYY-MM-DD]. *)
Definition date_string (y m d : Z) : string :=
  four_digits y +:+ "-" +:+ two_digits m +:+ "-" +:+ two_digits d.

End Calendar.

(** [s] is the UTC calendar date of the instant [t] seconds after the
    epoch: the day that holds the instant is the day [d] of the month [m]
    of the year [y], and [s] writes it [YYYY-MM-DD]. *)
Definition utc_date_is (t : Z) (s : string) : Prop :=
  exists y m d,
    Calendar.valid_date y m d /\
    Calendar.day_number y m d = t / 86400 /\
    s = Calendar.date_string y m d.

(** The instant [dt] of the sample lies in the years 0000 to 9999, those
    an ISO timestamp writes on four digits: from 0000-01-01T00:00:00Z to
    9999-12-31T23:59:59Z. *)
Definition in_four_digit_years (item : OwItem) : Prop :=
  -62167219200 <= dt item <= 253402300799.

(** [l'] is [l] restricted to its elements with the property [P], in the
    order of [l]. *)
Inductive selects {A} (P : A -> Prop) : list A -> list A -> Prop :=
| selects_nil : selects P [] []
| selects_keep a l l' : P a -> selects P l l' -> selects P (a :: l) (a :: l')
| selects_drop a l l' : ~ P a -> selects P l l' -> selects P (a :: l) l'.

(** The forecast day [fd] summarises the samples of [items] that fall on
    its UTC calendar date. *)
Definition day_summarises (units : Units) (items : list OwItem)
    (fd : ForecastDay) : Prop :=
  exists ss,
    selects (fun it => utc_date_is (dt it) (date fd)) items ss /\
    summarises units ss fd.

(** [dates] lists, in ascending order and once each, the UTC calendar
    dates on which some sample of [items] falls. *)
Definition utc_dates_with_samples (items : list OwItem) (dates : list string)
  : Prop :=
  StronglySorted str_lt dates /\
  forall s, s ∈ dates <-> exists it, it ∈ items /\ utc_date_is (dt it) s.

(** The engine formats a time value as ECMAScript prescribes. *)
Definition ecmascript_dates (rt : Runtime) : Prop :=
  forall ms, valid_time ms = true -> Date_toISOString rt ms = Node.iso_string ms.

(** [dates] lists, in ascending order and once each, the dates on which
    some sample falls. *)
Definition dates_with_samples (rt : Runtime) (items : list OwItem)
    (dates : list string) : Prop :=
  StronglySorted str_lt dates /\
  forall s, s ∈ dates <-> exists it, it ∈ items /\ ow.isoDate_of rt it = Ok s.

(** A sample the adapter can read: a time a [Date] can hold, and a [main]
    object. *)
Definition readable (item : OwItem) : Prop :=
  valid_time (dt item * 1000) = true /\ is_Some (main item).

(** The record of a day after the samples [ss], all of that day. *)
Definition extend (units : Units) (rec : ow.Bucket) (item : OwItem) : ow.Bucket :=
  match main item with
  | Some m => ow.push_slot units m item rec
  | None => rec
  end.

Definition bucket_of (units : Units) (ss : list OwItem) : ow.Bucket :=
  fold_left (extend units) ss ow.empty_bucket.

(** The map [byDate] after the samples [seen]. *)
Definition buckets (rt : Runtime) (units : Units) (seen : list OwItem)
    (byDate : gmap string ow.Bucket) : Prop :=
  forall s, byDate !! s =
            match samples_on rt s seen with
            | [] => None
            | ss => Some (bucket_of units ss)
            end.

(** The spec's example: four samples on 2 January 1970, two of them with
    rain, and two dry samples on 3 January, received out of order. *)
Definition sample (d : Z) (t : Q) (r : option Q) : OwItem :=
  {| dt := d; main := Some {| temp := t; feels_like := t;
                              ow_humidity := None; pressure := None |};
     weather0 := None; rain3h := r; snow3h := None |}.

Definition two_days : list OwItem :=
  [sample 86400 10 (Some 1%Q); sample 172800 4 None;
   sample 97200 12 None; sample 176400 6 (Some 0%Q);
   sample 108000 14 (Some 0.5%Q); sample 118800 8 None].

Definition two_days_body : OwForecastJson :=
  {| ow_city := Some {| city_name := Some "Oslo";
                        city_coord := Some {| coord_lat := 60%Q; coord_lon := 10%Q |};
                        city_country := Some "NO" |};
     ow_list := Some two_days |}.

Definition upstream_two_days : Runtime :=
  Node.runtime (fun _ _ => HttpOk (OwForecastBody two_days_body)) 120.

(** * Further code of the repository *)

(** ** [hasProviderKeys] ([config.ts]) *)

Record ProviderKeys : Type := {
  pk_openWeather : bool;
  pk_weatherApi : bool
}.

Definition hasProviderKeys (cfg : Config) : ProviderKeys :=
  {| pk_openWeather := truthy_str (openWeatherApiKey cfg);
     pk_weatherApi := truthy_str (weatherApiKey cfg) |}.

(** ** Strings of the command line and of the insights *)
Module Str.

(** [s.startsWith(p)] *)
Definition startsWith (s p : string) : bool := String.prefix p s.

(** [s.includes(sub)] *)
Fixpoint includes (s sub : string) : bool :=
  String.prefix sub s ||
  match s with
  | EmptyString => false
  | String _ r => includes r sub
  end.

(** [s.slice(n)] for [0 <= n] *)
Fixpoint slice_from (n : nat) (s : string) : string :=
  match n, s with
  | O, _ => s
  | S k, EmptyString => EmptyString
  | S k, String _ r => slice_from k r
  end.

End Str.

(** ** Activity insights ([insights/insights.ts]) *)
Module Insights.

Inductive RiskLevel : Type := risk_low | risk_moderate | risk_high.

Definition show_risk (r : RiskLevel) : string :=
  match r with
  | risk_low => "low"
  | risk_moderate => "moderate"
  | risk_high => "high"
  end.

(** [risk !== "high"] *)
Definition not_high (r : RiskLevel) : bool :=
  match r with
  | risk_high => false
  | _ => true
  end.

Record InsightResult : Type := {
  activity : string;
  riskLevel : RiskLevel;
  summary : string;
  tips : list string
}.

(** [Math.max(...xs, 0)] *)
Definition max_with_zero (xs : list Q) : Q :=
  match xs with
  | [] => 0%Q
  | x :: r => fold_left Qmax (r ++ [0%Q]) x
  end.

Definition rainRiskPct (forecast : option Forecast) : Q :=
  match forecast with
  | None => 0%Q
  | Some f =>
      let ds := take 1 (days f) in
      max_with_zero (List.map (fun d => nullish (chanceOfRainPct d) 0%Q) ds)
  end.

Section Assess.
(** [String.prototype.toLowerCase] of the engine, and the printing of
    numbers of the runtime. *)
Context (toLowerCase : string -> string) (rt : Runtime).

(** The three blocks that set [risk] and push a tip. *)
Definition rain_block (rainChance : Q) (cond : string)
  : RiskLevel * list string :=
  if Qle_bool 70 rainChance || Str.includes cond "rain" || Str.includes cond "storm"
  then (risk_high, ["Carry waterproof gear or reschedule if possible."])
  else if Qle_bool 40 rainChance
  then (risk_moderate, ["Light rain possible. Check radar before heading out."])
  else (risk_low, []).

Definition wind_block (wind : Q) (st : RiskLevel * list string)
  : RiskLevel * list string :=
  let '(risk, tips) := st in
  if Qle_bool 40 wind
  then (risk_high, tips ++ ["Strong winds expected. Avoid exposed areas."])
  else if Qle_bool 25 wind && not_high risk
  then (risk_moderate,
        tips ++ ["Gusty conditions. Secure loose items and be cautious."])
  else (risk, tips).

Definition temp_block (tempC : Q) (st : RiskLevel * list string)
  : RiskLevel * list string :=
  let '(risk, tips) := st in
  if Qle_bool 32 tempC
  then (risk_high,
        tips ++ ["High heat risk. Hydrate, use sunscreen, and limit exposure."])
  else if Qle_bool 26 tempC && not_high risk
  then (risk_moderate, tips ++ ["Warm conditions. Hydrate well and pace yourself."])
  else if Qle_bool tempC (-5)
  then (risk_high, tips ++ ["Extreme cold. Layer up and limit time outside."])
  else if Qle_bool tempC 5 && not_high risk
  then (risk_moderate,
        tips ++ ["Cold conditions. Wear warm layers and protect extremities."])
  else (risk, tips).

(** The activity-specific tips. *)
Definition activity_tips (a : string) (wind rainChance : Q) : list string :=
  if Str.includes a "running" || Str.includes a "cycling"
  then (if Qle_bool 30 wind then ["Plan route to avoid headwinds."] else [])
         ++ ["Warm up properly and monitor hydration."]
  else if Str.includes a "hiking"
  then ["Check trail conditions and bring appropriate footwear."]
  else if Str.includes a "picnic" || Str.includes a "outdoor"
  then (if Qle_bool 40 rainChance then ["Have a backup indoor location."] else [])
         ++ ["Pack shade and water; check UV index."]
  else [].

(** [current.condition?.text], or the empty string when that is missing
    or empty, in lower case. *)
Definition cond_of (current : CurrentWeather) : string :=
  toLowerCase (nullish (or_str (text (condition current)) (Some EmptyString))
                       EmptyString).

Definition assessActivity (act : string) (current : CurrentWeather)
    (forecast : option Forecast) : InsightResult :=
  let rainChance := rainRiskPct forecast in
  let wind := nullish (windKph current) 0%Q in
  let tempC := temperatureC current in
  let cond := cond_of current in
  let '(risk, tips) :=
    temp_block tempC (wind_block wind (rain_block rainChance cond)) in
  let tips := tips ++ activity_tips (toLowerCase act) wind rainChance in
  {| activity := act;
     riskLevel := risk;
     summary := "Risk for " +:+ act +:+ ": " +:+ show_risk risk
                  +:+ ". Temp " +:+ num_to_string rt (inject_Z (Math_round tempC))
                  +:+ "Â°C, wind " +:+ num_to_string rt (inject_Z (Math_round wind))
                  +:+ " kph, rain chance " +:+ num_to_string rt rainChance +:+ "%";
     tips := tips |}.
End Assess.
End Insights.

(** ** The command line and the bearer check (the command-line entry of
    the server) *)
Module Cli.

(** [getArg(key, defaultValue)] over [process.argv] *)
Definition getArg (argv : list string) (key : string)
    (defaultValue : option string) : option string :=
  let prefix := "--" +:+ key +:+ "=" in
  match List.find (fun a => Str.startsWith a prefix) argv with
  | Some m => Some (Str.slice_from (String.length prefix) m)
  | None => defaultValue
  end.

(** [hasFlag(key)] *)
Definition hasFlag (argv : list string) (key : string) : bool :=
  existsb (String.eqb ("--" +:+ key)) argv.

Definition requireAuth (argv : list string) : bool := hasFlag argv "require-auth".

(** [getArg] of [token], the empty string by default. *)
Definition bearerToken (argv : list string) : string :=
  nullish (getArg argv "token" (Some EmptyString)) EmptyString.

(** [req.headers["authorization"]] *)
Inductive Header : Type :=
| NoHeader
| OneHeader (value : string)
| ManyHeaders (values : list string).

(** The header, or the empty string when there is none; of an array of
    headers, the first ([Array.isArray(auth) ? auth[0] : auth]). *)
Definition token_of (h : Header) : option string :=
  match h with
  | NoHeader => Some EmptyString
  | OneHeader s => Some s
  | ManyHeaders l => head l
  end.

(** The test that answers 401 on [POST /mcp]. *)
Definition unauthorized (argv : list string) (h : Header) : bool :=
  if requireAuth argv then
    match token_of h with
    | Some token =>
        negb (truthy_str token) || negb (Str.includes token (bearerToken argv))
    | None => true
    end
  else false.

End Cli.

(** ** The tools of the server ([server.ts]) *)
Module Server.
Section Tools.
Context (toLowerCase : string -> string) (rt : Runtime) (cfg : Config).

(** The handler of [weather_insights]; its result is the
    [structuredContent] of the answer. *)
Definition weather_insights (activity : string) (location : LocationQuery)
  : M Insights.InsightResult :=
  let* current := Aggregator.getCurrentWeather rt cfg location None in
  let* forecast := Aggregator.getForecast rt cfg location None None in
  ret (Insights.assessActivity toLowerCase rt activity current (Some forecast)).
End Tools.
End Server.

(** * Vocabulary of the further properties *)

(** The alert [a] with its [lastTriggeredAt] replaced. *)
Definition with_stamp (a : WeatherAlert) (s : option string) : WeatherAlert :=
  {| id := id a; name := name a; alert_location := alert_location a;
     alert_condition := alert_condition a; channel := channel a;
     webhookUrl := webhookUrl a; sensitivity := sensitivity a;
     createdAt := createdAt a; lastTriggeredAt := s |}.

(** [b] is the alert [a] up to [lastTriggeredAt]. *)
Definition same_definition (a b : WeatherAlert) : Prop :=
  with_stamp b None = with_stamp a None.

(** The warning [pollAlerts] logs when the evaluation of [a] throws [e]. *)
Definition evaluation_failed (a : WeatherAlert) (e : JsError) : ConsoleLine :=
  ConsoleWarn "Alert evaluation failed:" (id a +:+ " " +:+ message e).

(** The world [w] with the lines [ls] added to the console. *)
Definition with_console (w : World) (ls : list ConsoleLine) : World :=
  {| now := now w; requests := requests w; console := console w ++ ls;
     currentCache := currentCache w; forecastCache := forecastCache w;
     historicalCache := historicalCache w |}.

(** A runtime whose random source repeats itself. *)
Definition stuck_random : Runtime :=
  {| num_to_string := num_to_string offline;
     encodeURIComponent := encodeURIComponent offline;
     JSON_stringify_query := JSON_stringify_query offline;
     JSON_stringify_extra := JSON_stringify_extra offline;
     JSON_stringify_location := JSON_stringify_location offline;
     Date_toISOString := Date_toISOString offline;
     Date_parse := Date_parse offline;
     axios_get := axios_get offline;
     axios_post := axios_post offline;
     random_id := fun _ => "k3v9x";
     type_error_message := type_error_message offline;
     range_error_message := range_error_message offline |}.

(** A console alert on rain. *)
Definition rain_alert : AlertInput :=
  {| in_name := Some "rain"; in_location := oslo;
     in_condition := {| type := rain; threshold := None; daysAhead := Some 2 |};
     in_channel := console_channel; in_webhookUrl := None;
     in_sensitivity := None; in_lastTriggeredAt := None |}.

(** A WeatherAPI answer reporting 21 degrees Celsius. *)
Definition wa_current_21 : WaJson :=
  {| wa_location := Some {| wa_name := "Oslo"; wa_lat := 60%Q; wa_lon := 10%Q;
                            wa_country := Some "Norway" |};
     wa_current := Some {| last_updated := None; temp_c := 21%Q;
                           temp_f := 69.8%Q; feelslike_c := Some 20%Q;
                           feelslike_f := Some 68%Q; wa_humidity := Some 50%Q;
                           wind_kph := Some 10%Q; wind_mph := Some 6.2%Q;
                           wind_dir := Some "N"; pressure_mb := Some 1012%Q;
                           wa_uv := Some 3%Q; wa_condition := None |};
     wa_forecastday := None |}.

Definition wa_answers : Runtime :=
  Node.runtime (fun _ _ => HttpOk (WaBody wa_current_21)) 120.

(** A WeatherAPI forecast answer of five days, the last three out of
    order. *)
Definition wa_day (d : string) : WaForecastDay := {| fd_date := d; fd_day := None |}.

Definition wa_five_days : WaJson :=
  {| wa_location := Some {| wa_name := "Oslo"; wa_lat := 60%Q; wa_lon := 10%Q;
                            wa_country := Some "Norway" |};
     wa_current := None;
     wa_forecastday :=
       Some [wa_day "2024-05-01"; wa_day "2024-05-02"; wa_day "2024-05-05";
             wa_day "2024-05-04"; wa_day "2024-05-03"] |}.

Definition wa_forecasts : Runtime :=
  Node.runtime (fun _ _ => HttpOk (WaBody wa_five_days)) 120.

(** A WeatherAPI history answer that names the place and nothing else. *)
Definition wa_no_data : WaJson :=
  {| wa_location := Some {| wa_name := "Oslo"; wa_lat := 60%Q; wa_lon := 10%Q;
                            wa_country := Some "Norway" |};
     wa_current := None;
     wa_forecastday := None |}.

Definition wa_history_empty : Runtime :=
  Node.runtime (fun _ _ => HttpOk (WaBody wa_no_data)) 120.

(** The samples of [two_days] followed by one without [main]. *)
Definition one_bad_sample : OwForecastJson :=
  {| ow_city := ow_city two_days_body;
     ow_list := Some (two_days ++ [{| dt := 180000; main := None;
                                       weather0 := None; rain3h := None;
                                       snow3h := None |}]) |}.

Definition upstream_one_bad_sample : Runtime :=
  Node.runtime (fun _ _ => HttpOk (OwForecastBody one_bad_sample)) 120.

(** ** Where requests go *)

Definition weatherapi_host : string := "https://api.weatherapi.com/".
Definition openweather_host : string := "https://api.openweathermap.org/".

(** The request is a GET to the host of a provider whose key
    [hasProviderKeys] reports. *)
Definition to_configured_provider (cfg : Config) (r : Request) : Prop :=
  match r with
  | GET url =>
      (pk_weatherApi (hasProviderKeys cfg) = true /\
       Str.startsWith url weatherapi_host = true) \/
      (pk_openWeather (hasProviderKeys cfg) = true /\
       Str.startsWith url openweather_host = true)
  | POST _ _ => False
  end.

(** Every request made between [w] and [w'] satisfies [P]. *)
Definition contacts_only (P : Request -> Prop) (w w' : World) : Prop :=
  exists rs, requests w' = requests w ++ rs /\ Forall P rs.

(** ** Vocabulary of the insights *)

(** The condition text speaks of rain or of a storm. *)
Definition wet (cond : string) : Prop :=
  Str.includes cond "rain" = true \/ Str.includes cond "storm" = true.

(** A mild day in Oslo. *)
Definition mild_day : CurrentWeather :=
  {| provider := "weatherapi";
     location := {| loc_name := "Oslo"; loc_lat := 60%Q; loc_lon := 10%Q;
                    loc_country := Some "Norway" |};
     observedAt := "2024-05-01T12:00:00.000Z";
     temperatureC := 18%Q; temperatureF := 64.4%Q;
     feelsLikeC := None; feelsLikeF := None; humidity := None;
     windKph := Some 10%Q; windMph := None; windDir := None;
     pressureMb := None; uv := None;
     condition := {| text := Some "Sunny"; iconUrl := None; code := None |} |}.

(** A forecast by the chances of rain of its days. *)
Definition forecast_of (chances : list Q) : Forecast :=
  {| fc_provider := "weatherapi";
     fc_location := location mild_day;
     days := (fun c =>
                {| date := "2024-05-01"; avgTempC := None; avgTempF := None;
                   maxTempC := None; maxTempF := None; minTempC := None;
                   minTempF := None; chanceOfRainPct := Some c;
                   chanceOfSnowPct := None;
                   fd_condition := {| text := None; iconUrl := None;
                                      code := None |} |}) <$> chances |}.

(** A command line that asks for the bearer check without naming a
    token, and one that names it. *)
Definition argv_no_token : list string :=
  ["node"; "weatherwise"; "--transport=http"; "--require-auth"].

Definition argv_token : list string :=
  ["node"; "weatherwise"; "--transport=http"; "--require-auth";
   "--token=s3cret"; "--token=other"].

(** ** Vocabulary of the dispatch *)

(** The alert is notified on the console. *)
Definition logs_to_console (a : WeatherAlert) : bool :=
  match channel a with
  | console_channel => true
  | webhook => false
  end.

(** The alert is notified by a POST: its channel is the webhook and it
    has a URL. *)
Definition posts_to_webhook (a : WeatherAlert) : bool :=
  match channel a with
  | webhook => truthy_ostr (webhookUrl a)
  | console_channel => false
  end.

(** Between [w] and [w'] the ids [ps] were posted and the ids [ls]
    logged, in that order. *)
Definition dispatched (ps ls : list string) (w w' : World) : Prop :=
  posted_ids w' = posted_ids w ++ ps /\ logged_ids w' = logged_ids w ++ ls.

(** A request a sweep over [alerts] may make: a GET to a configured
    provider, or the POST of a webhook alert of the registry to its own
    URL, carrying its id and the alert itself, stamped. *)
Definition sweep_request (cfg : Config) (alerts : list WeatherAlert)
    (r : Request) : Prop :=
  match r with
  | GET _ => to_configured_provider cfg r
  | POST url body =>
      exists a, a ∈ alerts /\ channel a = webhook /\
                webhookUrl a = Some url /\ wb_id body = id a /\
                same_definition a (wb_alert body) /\
                is_Some (lastTriggeredAt (wb_alert body))
  end.

(** A webhook alert on heat, with its URL. *)
Definition heat_webhook : WeatherAlert :=
  {| id := "w1b2c"; name := Some "heat"; alert_location := oslo;
     alert_condition := {| type := temp_above; threshold := Some 25%Q;
                           daysAhead := None |};
     channel := webhook; webhookUrl := Some "https://hooks.example/heat";
     sensitivity := None;
     createdAt := "2023-11-14T00:00:00.000Z"; lastTriggeredAt := None |}.

Definition one_webhook_alert : AlertService.State :=
  {| AlertService.alerts := [heat_webhook];
     AlertService.schedulerStarted := true;
     AlertService.intervalHandle := Some 600000;
     AlertService.draws := 1 |}.

(** * Properties *)

(** ** The definitions on concrete inputs *)

Example round_half_up : Math_round 12.5 = 13 /\ Math_round (-2.5) = -2.
Proof. split; reflexivity. Qed.

Example slice_negative_count : slice0 (-1) [1; 2; 3] = [1; 2].
Proof. reflexivity. Qed.

Example max_of_nothing : Math_max [] = NegInfinity /\ div_length (JS.sum []) 0 = NaN.
Proof. split; reflexivity. Qed.

Example sort_is_by_code_unit :
  sort_strings ["2024-01-10"; "2024-01-02"; "+010000-01"]
  = ["+010000-01"; "2024-01-02"; "2024-01-10"].
Proof. reflexivity. Qed.

Example epoch_is_formatted :
  Node.iso_string 0 = "1970-01-01T00:00:00.000Z" /\
  Node.iso_string 1700000000000 = "2023-11-14T22:13:20.000Z" /\
  Node.iso_string 951782400000 = "2000-02-29T00:00:00.000Z" /\
  Node.iso_string (-1) = "1969-12-31T23:59:59.999Z" /\
  Node.iso_string 8640000000000000 = "+275760-09-13T00:00:00.000Z".
Proof. repeat split; vm_compute; reflexivity. Qed.

Example doubles_round_as_ieee :
  (Double.round 0.1 == 3602879701896397 # 36028797018963968)%Q /\
  (Double.round 0.9 == 8106479329266893 # 9007199254740992)%Q /\
  (Double.round 1.1 == 2476979795053773 # 2251799813685248)%Q /\
  (Double.div 1 3 == 6004799503160661 # 18014398509481984)%Q /\
  (Double.mul 3 (Double.round 0.1) == 5404319552844596 # 18014398509481984)%Q /\
  (Double.round (1 # 3 * 2 ^ 1074) == 0)%Q.
Proof. repeat split; vm_compute; reflexivity. Qed.

Example high_sensitivity_lowers_the_bar :
  (AlertService.adjustThreshold 30 (Some high) == 27)%Q /\
  (AlertService.adjustThreshold 30 (Some low) == 33)%Q /\
  (AlertService.adjustThreshold 50 (Some high) == 45)%Q.
Proof. repeat split; vm_compute; reflexivity. Qed.

(** The product is that of doubles: [50 * 1.1] is 55.00000000000001 and
    [25 * 1.1] is 27.500000000000004, so a reading of exactly 55 (resp.
    27.5) stays below the bar of a [low] sensitivity. *)
Example low_sensitivity_bar_is_a_double :
  (AlertService.adjustThreshold 50 (Some low)
   == 55 + Double.pow2 (-47))%Q /\
  (AlertService.adjustThreshold 25 (Some low)
   == 27.5 + Double.pow2 (-48))%Q /\
  ~ (AlertService.adjustThreshold 50 (Some low) <= 55)%Q /\
  ~ (AlertService.adjustThreshold 25 (Some low) <= 27.5)%Q.
Proof.
  split; [vm_compute; reflexivity|]. split; [vm_compute; reflexivity|].
  split; intros H; vm_compute in H; apply H; reflexivity.
Qed.

(** [Math.round((23 / 40) * 100)] is 57: the product of doubles is
    57.49999999999999, below the half the exact percentage sits on. *)
Example chance_rounds_the_double :
  ow.chance 23 40 = Some 57%Q /\ ow.chance 2 4 = Some 50%Q /\
  ow.chance 0 2 = Some 0%Q /\ ow.chance 1 8 = Some 13%Q /\
  ow.chance 0 0 = None.
Proof. repeat split; vm_compute; reflexivity. Qed.

(** From the year 10000 on an ISO timestamp carries a sign and six year
    digits: its first ten characters are no date, and the days of a month
    share them. *)
Example key_beyond_four_digit_years :
  ow.isoDate_of upstream_two_days (sample 253402300799 0 None) = Ok "9999-12-31" /\
  ow.isoDate_of upstream_two_days (sample 253402300800 0 None) = Ok "+010000-01" /\
  ow.isoDate_of upstream_two_days (sample 253402387200 0 None) = Ok "+010000-01" /\
  ow.isoDate_of upstream_two_days (sample (-62167219200) 0 None) = Ok "0000-01-01".
Proof. repeat split; vm_compute; reflexivity. Qed.

Example cache_get_refreshes_or_expires :
  let c := LRUCache.set 3 "c" 30 (LRUCache.set 2 "b" 20 (LRUCache.set 1 "a" 10 [])) in
  (LRUCache.get 100 4 "a" c).1 = Some 10 /\
  ce_key <$> (LRUCache.get 100 4 "a" c).2 = ["a"; "c"; "b"] /\
  (LRUCache.get 100 102 "a" c).1 = None /\
  ce_key <$> (LRUCache.get 100 102 "a" c).2 = ["c"; "b"].
Proof. repeat split. Qed.

Example invalid_query_is_rejected :
  wa.resolveQuery offline nowhere = Err wa.invalid_query /\
  wa.resolveQuery offline oslo = Ok "Oslo" /\
  ow.resolveQueryParams offline oslo = Ok "q=Oslo".
Proof. repeat split. Qed.

(** ** Queries that resolve *)

Lemma wa_resolveQuery_unresolved rt q :
  resolves q = false -> wa.resolveQuery rt q = Err wa.invalid_query.
Proof.
  unfold resolves, wa.resolveQuery, truthy_ostr.
  destruct (lat q), (lon q), (city q) as [c|]; try discriminate; try reflexivity;
    intros ->; reflexivity.
Qed.

Lemma ow_resolveQueryParams_unresolved rt q :
  resolves q = false -> ow.resolveQueryParams rt q = Err ow.invalid_query.
Proof.
  unfold resolves, ow.resolveQueryParams, truthy_ostr.
  destruct (lat q), (lon q), (city q) as [c|]; try discriminate; try reflexivity;
    intros ->; reflexivity.
Qed.

Lemma wa_resolveQuery_resolved rt q :
  resolves q = true -> exists s, wa.resolveQuery rt q = Ok s.
Proof.
  unfold resolves, wa.resolveQuery, truthy_ostr.
  destruct (lat q), (lon q), (city q) as [c|]; try discriminate; eauto;
    intros ->; destruct (country q) as [k|]; eauto; destruct (truthy_str k); eauto.
Qed.

Lemma ow_resolveQueryParams_resolved rt q :
  resolves q = true -> exists s, ow.resolveQueryParams rt q = Ok s.
Proof.
  unfold resolves, ow.resolveQueryParams, truthy_ostr.
  destruct (lat q), (lon q), (city q) as [c|]; try discriminate; eauto;
    intros ->; eauto.
Qed.

(** C7, as the code has it.  For a query that resolves neither to a city
    nor to a pair of coordinates, the three operations of the WeatherAPI
    adapter and [getCurrent] and [getForecast] of the OpenWeather adapter
    fail with their invalid-query error and leave the world as it was: no
    request is made.  [getHistorical] of the OpenWeather adapter takes no
    query; it returns [null] and makes no request either. *)
Theorem invalid_query_fails_before_network
    (rt : Runtime) (cfg : Config) (q : LocationQuery) (units : option Units)
    (ndays : option Z) (dateISO : string) (w : World) :
  resolves q = false ->
  wa.getCurrent rt cfg q w = (Err wa.invalid_query, w) /\
  wa.getForecast rt cfg q ndays w = (Err wa.invalid_query, w) /\
  wa.getHistorical rt cfg q dateISO w = (Err wa.invalid_query, w) /\
  ow.getCurrent rt cfg q units w = (Err ow.invalid_query, w) /\
  ow.getForecast rt cfg q units ndays w = (Err ow.invalid_query, w) /\
  ow.getHistorical w = (Ok None, w).
Proof.
  intros Hq.
  pose proof (wa_resolveQuery_unresolved rt q Hq) as Hwa.
  pose proof (ow_resolveQueryParams_unresolved rt q Hq) as How.
  unfold wa.getCurrent, wa.getForecast, wa.getHistorical,
    ow.getCurrent, ow.getForecast, ow.getHistorical, bind, lift, ret.
  rewrite Hwa, How. repeat split; reflexivity.
Qed.

Lemma invalid_query_fails_before_network_witness :
  let rt := Node.runtime (fun _ _ => HttpFail "unreachable") 0 in
  let cfg := Node.config "wa-key" "ow-key" in
  let w := initial_world 0 in
  wa.getCurrent rt cfg nowhere w = (Err wa.invalid_query, w) /\
  wa.getForecast rt cfg nowhere (Some 3) w = (Err wa.invalid_query, w) /\
  wa.getHistorical rt cfg nowhere "2024-05-01" w = (Err wa.invalid_query, w) /\
  ow.getCurrent rt cfg nowhere (Some metric) w = (Err ow.invalid_query, w) /\
  ow.getForecast rt cfg nowhere (Some metric) (Some 3) w = (Err ow.invalid_query, w) /\
  ow.getHistorical w = (Ok None, w).
Proof.
  intros rt cfg w.
  apply (invalid_query_fails_before_network rt cfg nowhere (Some metric)
           (Some 3) "2024-05-01" w).
  reflexivity.
Defined.

(** C7 as stated fails for the sixth operation: on a query that does not
    resolve, [getHistorical] of the OpenWeather adapter does not fail at
    all. *)
Lemma ow_getHistorical_accepts_unresolved_query :
  resolves nowhere = false /\
  ow.getHistorical (initial_world 0) = (Ok None, initial_world 0) /\
  forall e, (ow.getHistorical (initial_world 0)).1 <> Err e.
Proof. repeat split. intros e. discriminate. Qed.

(** ** Registration of alerts *)

Lemma map_set_elem (a : WeatherAlert) (l : list WeatherAlert) :
  a ∈ AlertService.map_set a l.
Proof.
  induction l as [|x r IH]; simpl.
  - apply list_elem_of_singleton. reflexivity.
  - destruct (String.eqb (id x) (id a)).
    + apply list_elem_of_here.
    + apply list_elem_of_further, IH.
Qed.

(** A webhook alert stored without a URL is stamped when it trips, and
    nothing is sent: the guard of [notify]. *)
Lemma notify_webhook_without_url rt a msg p w :
  channel a = webhook -> truthy_ostr (webhookUrl a) = false ->
  (AlertService.notify rt a msg p w).2 = w.
Proof.
  intros Hc Hu. unfold AlertService.notify. simpl. rewrite Hc.
  destruct (webhookUrl a) as [u|]; simpl in *; [rewrite Hu|]; reflexivity.
Qed.

(** C8, as the code has it.  [registerAlert] stores the alert it is given
    under a fresh id, with exactly the channel and the [webhookUrl] of its
    argument, and returns the stored record; nothing relates the one to
    the other. *)
Theorem registerAlert_stores_channel_and_url_as_given
    (rt : Runtime) (alert : AlertInput) (st : AlertService.State) (w : World) :
  let full := (AlertService.registerAlert rt alert st w).1 in
  let st' := (AlertService.registerAlert rt alert st w).2 in
  full ∈ AlertService.alerts st' /\
  id full = AlertService.generateId rt st /\
  channel full = in_channel alert /\
  webhookUrl full = in_webhookUrl alert.
Proof.
  simpl. repeat split. apply map_set_elem.
Qed.

(** C8 as stated fails: a webhook alert registered without a URL is
    stored as it is. *)
Lemma webhook_alert_without_url_is_stored :
  let full := (AlertService.registerAlert offline webhook_without_url
                 AlertService.initial (initial_world 0)).1 in
  let st' := (AlertService.registerAlert offline webhook_without_url
                AlertService.initial (initial_world 0)).2 in
  AlertService.alerts st' = [full] /\
  channel full = webhook /\ webhookUrl full = None /\
  ~ url_iff_webhook full.
Proof.
  repeat split. intros [_ H]. destruct (H eq_refl) as [u Hu]. discriminate.
Qed.

(** ** Frame rules of the monad *)

Section Keeps.
Context (R : relation World) `{!PreOrder R}.

Lemma keeps_ret {A} (a : A) : keeps R (ret a).
Proof. intros w. simpl. reflexivity. Qed.

Lemma keeps_throw {A} (e : JsError) : keeps R (@throw A e).
Proof. intros w. simpl. reflexivity. Qed.

Lemma keeps_lift {A} (r : Result A) : keeps R (lift r).
Proof. intros w. simpl. reflexivity. Qed.

Lemma keeps_bind {A B} (m : M A) (k : A -> M B) :
  keeps R m -> (forall a, keeps R (k a)) -> keeps R (bind m k).
Proof.
  intros Hm Hk w. unfold bind. specialize (Hm w).
  destruct (m w) as [[a|e] w1]; simpl in *.
  - etrans; [exact Hm | apply Hk].
  - exact Hm.
Qed.

Lemma keeps_try_catch {A} (m : M A) (h : JsError -> M A) :
  keeps R m -> (forall e, keeps R (h e)) -> keeps R (try_catch m h).
Proof.
  intros Hm Hh w. unfold try_catch. specialize (Hm w).
  destruct (m w) as [[a|e] w1]; simpl in *.
  - exact Hm.
  - etrans; [exact Hm | apply Hh].
Qed.

Lemma keeps_required {A} rt (o : option A) : keeps R (required rt o).
Proof. destruct o; [apply keeps_ret | apply keeps_throw]. Qed.

Lemma keeps_now_toISOString rt : keeps R (now_toISOString rt).
Proof. intros w. simpl. reflexivity. Qed.

Lemma keeps_parsed_toISOString rt s : keeps R (parsed_toISOString rt s).
Proof.
  unfold parsed_toISOString. destruct (Date_parse rt s);
    [apply keeps_ret | apply keeps_throw].
Qed.
End Keeps.

#[global] Instance grows_preorder : PreOrder grows.
Proof.
  split.
  - intros w. split; exists []; rewrite app_nil_r; auto.
  - intros w1 w2 w3 [[r1 [E1 F1]] [l1 [E2 F2]]] [[r2 [E3 F3]] [l2 [E4 F4]]].
    split.
    + exists (r1 ++ r2). rewrite E3, E1, app_assoc. split; [done|].
      apply Forall_app; auto.
    + exists (l1 ++ l2). rewrite E4, E2, app_assoc. split; [done|].
      apply Forall_app; auto.
Qed.

#[global] Instance same_on_preorder {X} (f : World -> X) : PreOrder (same_on f).
Proof. split; unfold same_on; [intros w|intros w1 w2 w3]; congruence. Qed.

#[global] Instance unchanged_preorder : PreOrder unchanged.
Proof. split; unfold unchanged; [intros w|intros w1 w2 w3]; congruence. Qed.

#[global] Instance same_caches_preorder : PreOrder same_caches.
Proof.
  split.
  - intros w. repeat split.
  - intros w1 w2 w3 (A1 & A2 & A3) (B1 & B2 & B3).
    repeat split; etrans; eauto.
Qed.

#[global] Instance silent_preorder : PreOrder silent.
Proof.
  split.
  - intros w. split; reflexivity.
  - intros w1 w2 w3 [A1 A2] [B1 B2]. split; congruence.
Qed.

Lemma omap_gets (rs : list Request) :
  Forall is_get rs ->
  omap (fun r => match r with
                 | POST _ b => Some (wb_id b)
                 | GET _ => None
                 end) rs = [].
Proof.
  induction 1 as [|r rs' Hr _ IH]; [done|]. simpl.
  destruct r; [exact IH | destruct Hr].
Qed.

Lemma omap_warns (ls : list ConsoleLine) :
  Forall is_warn ls ->
  omap (fun l => match l with
                 | ConsoleAlert i _ _ => Some i
                 | _ => None
                 end) ls = [].
Proof.
  induction 1 as [|l ls' Hl _ IH]; [done|]. simpl.
  destruct l; first [exact IH | destruct Hl].
Qed.

Lemma grows_silent w w' : grows w w' -> silent w w'.
Proof.
  intros [[rs [E1 F1]] [ls [E2 F2]]]. unfold silent, posted_ids, logged_ids.
  rewrite E1, E2, !omap_app, (omap_gets rs F1), (omap_warns ls F2).
  split; apply app_nil_r.
Qed.

Create HintDb keeps.

Ltac keeps_auto :=
  repeat first
    [ progress cbv zeta
    | solve [auto with keeps]
    | apply keeps_ret; apply _
    | apply keeps_throw; apply _
    | apply keeps_lift; apply _
    | apply keeps_required; apply _
    | apply keeps_now_toISOString; apply _
    | apply keeps_parsed_toISOString; apply _
    | apply keeps_bind; [apply _ | | intros ?]
    | apply keeps_try_catch; [apply _ | | intros ?]
    | match goal with
      | |- keeps _ (match ?x with _ => _ end) => destruct x
      end ].

Lemma http_get_grows rt url : keeps grows (http_get rt url).
Proof.
  intros w. unfold http_get. destruct (axios_get rt _ _ url) as [[m|d] el];
    (split; simpl; [exists [GET url]; split; [done|repeat constructor]
                   | exists []; rewrite app_nil_r; auto]).
Qed.

Lemma http_get_same_caches rt url : keeps same_caches (http_get rt url).
Proof.
  intros w. unfold http_get. destruct (axios_get rt _ _ url) as [[m|d] el];
    repeat split.
Qed.

Lemma console_warn_grows label detail : keeps grows (console_warn label detail).
Proof.
  intros w. split; simpl.
  - exists []. rewrite app_nil_r. auto.
  - exists [ConsoleWarn label detail]. split; [done|repeat constructor].
Qed.

Lemma console_warn_same_caches label detail :
  keeps same_caches (console_warn label detail).
Proof. intros w. repeat split. Qed.

#[global] Hint Resolve http_get_grows http_get_same_caches
  console_warn_grows console_warn_same_caches : keeps.

(** *** The adapters only fetch *)

Lemma wa_getCurrent_grows rt cfg q : keeps grows (wa.getCurrent rt cfg q).
Proof. unfold wa.getCurrent. keeps_auto. Qed.

Lemma wa_getForecast_grows rt cfg q n : keeps grows (wa.getForecast rt cfg q n).
Proof. unfold wa.getForecast. keeps_auto. Qed.

Lemma wa_getHistorical_grows rt cfg q d : keeps grows (wa.getHistorical rt cfg q d).
Proof. unfold wa.getHistorical. keeps_auto. Qed.

Lemma ow_getCurrent_grows rt cfg q u : keeps grows (ow.getCurrent rt cfg q u).
Proof. unfold ow.getCurrent. keeps_auto. Qed.

Lemma ow_getForecast_grows rt cfg q u n : keeps grows (ow.getForecast rt cfg q u n).
Proof. unfold ow.getForecast. keeps_auto. Qed.

Lemma wa_getCurrent_same_caches rt cfg q : keeps same_caches (wa.getCurrent rt cfg q).
Proof. unfold wa.getCurrent. keeps_auto. Qed.

Lemma wa_getForecast_same_caches rt cfg q n :
  keeps same_caches (wa.getForecast rt cfg q n).
Proof. unfold wa.getForecast. keeps_auto. Qed.

Lemma wa_getHistorical_same_caches rt cfg q d :
  keeps same_caches (wa.getHistorical rt cfg q d).
Proof. unfold wa.getHistorical. keeps_auto. Qed.

Lemma ow_getCurrent_same_caches rt cfg q u :
  keeps same_caches (ow.getCurrent rt cfg q u).
Proof. unfold ow.getCurrent. keeps_auto. Qed.

Lemma ow_getForecast_same_caches rt cfg q u n :
  keeps same_caches (ow.getForecast rt cfg q u n).
Proof. unfold ow.getForecast. keeps_auto. Qed.

#[global] Hint Resolve wa_getCurrent_grows wa_getForecast_grows
  wa_getHistorical_grows ow_getCurrent_grows ow_getForecast_grows
  wa_getCurrent_same_caches wa_getForecast_same_caches
  wa_getHistorical_same_caches ow_getCurrent_same_caches
  ow_getForecast_same_caches : keeps.

(** *** The aggregator only fetches, and each operation writes one cache *)

Lemma grows_same w w' :
  requests w' = requests w -> console w' = console w -> grows w w'.
Proof.
  intros E1 E2. split; exists []; rewrite app_nil_r; auto.
Qed.

Section AggregatorFrames.
Context (rt : Runtime) (cfg : Config).

Lemma currentCache_get_grows key : keeps grows (Aggregator.currentCache_get cfg key).
Proof.
  intros w. unfold Aggregator.currentCache_get.
  destruct (LRUCache.get _ _ _ _). apply grows_same; reflexivity.
Qed.

Lemma currentCache_set_grows key v : keeps grows (Aggregator.currentCache_set key v).
Proof. intros w. apply grows_same; reflexivity. Qed.

Lemma forecastCache_get_grows key : keeps grows (Aggregator.forecastCache_get cfg key).
Proof.
  intros w. unfold Aggregator.forecastCache_get.
  destruct (LRUCache.get _ _ _ _). apply grows_same; reflexivity.
Qed.

Lemma forecastCache_set_grows key v : keeps grows (Aggregator.forecastCache_set key v).
Proof. intros w. apply grows_same; reflexivity. Qed.

Lemma historicalCache_get_grows key :
  keeps grows (Aggregator.historicalCache_get cfg key).
Proof.
  intros w. unfold Aggregator.historicalCache_get.
  destruct (LRUCache.get _ _ _ _). apply grows_same; reflexivity.
Qed.

Lemma historicalCache_set_grows key v :
  keeps grows (Aggregator.historicalCache_set key v).
Proof. intros w. apply grows_same; reflexivity. Qed.

Hint Resolve currentCache_get_grows currentCache_set_grows
  forecastCache_get_grows forecastCache_set_grows
  historicalCache_get_grows historicalCache_set_grows : keeps.

Lemma fetchCurrent_grows q u : keeps grows (Aggregator.fetchCurrent rt cfg q u).
Proof. unfold Aggregator.fetchCurrent. keeps_auto. Qed.

Lemma fetchForecast_grows q u n : keeps grows (Aggregator.fetchForecast rt cfg q u n).
Proof. unfold Aggregator.fetchForecast. keeps_auto. Qed.

Lemma fetchHistorical_grows q d : keeps grows (Aggregator.fetchHistorical rt cfg q d).
Proof. unfold Aggregator.fetchHistorical. keeps_auto. Qed.

Lemma fetchCurrent_same_caches q u :
  keeps same_caches (Aggregator.fetchCurrent rt cfg q u).
Proof. unfold Aggregator.fetchCurrent. keeps_auto. Qed.

Lemma fetchForecast_same_caches q u n :
  keeps same_caches (Aggregator.fetchForecast rt cfg q u n).
Proof. unfold Aggregator.fetchForecast. keeps_auto. Qed.

Lemma fetchHistorical_same_caches q d :
  keeps same_caches (Aggregator.fetchHistorical rt cfg q d).
Proof. unfold Aggregator.fetchHistorical. keeps_auto. Qed.

Hint Resolve fetchCurrent_grows fetchForecast_grows fetchHistorical_grows : keeps.

Lemma getCurrentWeather_grows q u :
  keeps grows (Aggregator.getCurrentWeather rt cfg q u).
Proof. unfold Aggregator.getCurrentWeather. keeps_auto. Qed.

Lemma getForecast_grows q u n : keeps grows (Aggregator.getForecast rt cfg q u n).
Proof. unfold Aggregator.getForecast. keeps_auto. Qed.

Lemma getHistorical_grows q d : keeps grows (Aggregator.getHistorical rt cfg q d).
Proof. unfold Aggregator.getHistorical. keeps_auto. Qed.
End AggregatorFrames.

#[global] Hint Resolve getCurrentWeather_grows getForecast_grows
  getHistorical_grows fetchCurrent_same_caches fetchForecast_same_caches
  fetchHistorical_same_caches : keeps.

(** ** The alert evaluator *)

Lemma keeps_weaken {A} (R R' : relation World) (m : M A) :
  (forall w w', R w w' -> R' w w') -> keeps R m -> keeps R' m.
Proof. intros HR Hm w. apply HR, Hm. Qed.

#[global] Instance dispatch_only_preorder i : PreOrder (dispatch_only i).
Proof.
  split.
  - intros w. exists [], []. rewrite !app_nil_r. repeat split. constructor.
  - intros w1 w2 w3 (p1 & l1 & A1 & A2 & A3) (p2 & l2 & B1 & B2 & B3).
    exists (p1 ++ p2), (l1 ++ l2). rewrite B1, B2, A1, A2, !app_assoc.
    repeat split. apply Forall_app in A3 as [? ?]. apply Forall_app in B3 as [? ?].
    repeat (apply Forall_app; split); assumption.
Qed.

Lemma silent_dispatch_only i w w' : silent w w' -> dispatch_only i w w'.
Proof.
  intros [E1 E2]. exists [], []. rewrite !app_nil_r. repeat split; auto.
Qed.

Lemma grows_dispatch_only i w w' : grows w w' -> dispatch_only i w w'.
Proof. intros H. apply silent_dispatch_only, grows_silent, H. Qed.

Section Evaluator.
Context (rt : Runtime) (cfg : Config).

Lemma notify_id a msg p w : id (AlertService.notify rt a msg p w).1 = id a.
Proof.
  unfold AlertService.notify. simpl.
  destruct (channel a); [reflexivity|].
  destruct (webhookUrl a) as [u|]; [destruct (truthy_str u)|]; reflexivity.
Qed.

Lemma notify_dispatch_only a msg p w :
  dispatch_only (id a) w (AlertService.notify rt a msg p w).2.
Proof.
  unfold AlertService.notify. simpl.
  destruct (channel a); simpl.
  - exists [], [id a]. unfold posted_ids, logged_ids. simpl.
    rewrite omap_app. simpl. rewrite app_nil_r. repeat split.
    repeat constructor.
  - destruct (webhookUrl a) as [u|]; [destruct (truthy_str u)|];
      try reflexivity.
    unfold AlertService.post_webhook.
    destruct (axios_post rt _ _ u _) as [[m|] el]; simpl;
      exists [id a], []; unfold posted_ids, logged_ids; simpl;
      rewrite !omap_app; simpl; rewrite ?app_nil_r; repeat split;
      repeat constructor.
Qed.

Lemma notify_if_dispatch_only b a msg p :
  keeps (dispatch_only (id a)) (AlertService.notify_if rt b a msg p).
Proof.
  intros w. unfold AlertService.notify_if. destruct b.
  - pose proof (notify_dispatch_only a msg p w) as H.
    destruct (AlertService.notify rt a msg p w). exact H.
  - reflexivity.
Qed.

Lemma getCurrentWeather_dispatch_only i q u :
  keeps (dispatch_only i) (Aggregator.getCurrentWeather rt cfg q u).
Proof.
  eapply keeps_weaken; [apply grows_dispatch_only | apply getCurrentWeather_grows].
Qed.

Lemma getForecast_dispatch_only i q u n :
  keeps (dispatch_only i) (Aggregator.getForecast rt cfg q u n).
Proof.
  eapply keeps_weaken; [apply grows_dispatch_only | apply getForecast_grows].
Qed.

Hint Resolve notify_if_dispatch_only getCurrentWeather_dispatch_only
  getForecast_dispatch_only : keeps.

Lemma evaluateAlert_dispatch_only a :
  keeps (dispatch_only (id a)) (AlertService.evaluateAlert rt cfg a).
Proof. unfold AlertService.evaluateAlert. keeps_auto. Qed.

Lemma evaluateAlert_id a w a' w' :
  AlertService.evaluateAlert rt cfg a w = (Ok a', w') -> id a' = id a.
Proof.
  unfold AlertService.evaluateAlert, bind, AlertService.notify_if, ret.
  intros H.
  repeat match type of H with
         | context [match ?x with _ => _ end] => destruct x eqn:?
         end; simplify_eq; try reflexivity;
    match goal with
    | E : AlertService.notify _ ?b ?m ?p ?w0 = (_, _) |- _ =>
        pose proof (notify_id b m p w0) as Hid; rewrite E in Hid; exact Hid
    end.
Qed.

(** A temperature or wind alert without a threshold: the current
    conditions are fetched, then nothing happens. *)
Lemma evaluateAlert_thresholdless a w :
  thresholdless a ->
  AlertService.evaluateAlert rt cfg a w =
    match Aggregator.getCurrentWeather rt cfg (alert_location a) None w with
    | (Ok _, w1) => (Ok a, w1)
    | (Err e, w1) => (Err e, w1)
    end.
Proof.
  intros [Hty Hth]. unfold AlertService.evaluateAlert, bind.
  destruct (type (alert_condition a)); [congruence| | |];
    rewrite Hth; destruct (Aggregator.getCurrentWeather _ _ _ _ _) as [[c|e] w1];
    reflexivity.
Qed.

Lemma poll_one_thresholdless a w :
  thresholdless a ->
  (AlertService.poll_one rt cfg a w).1 = a /\
  silent w (AlertService.poll_one rt cfg a w).2.
Proof.
  intros Ha. unfold AlertService.poll_one.
  rewrite (evaluateAlert_thresholdless a w Ha).
  pose proof (getCurrentWeather_grows rt cfg (alert_location a) None w) as Hg.
  destruct (Aggregator.getCurrentWeather _ _ _ _ _) as [[c|e] w1]; simpl in *.
  - split; [reflexivity | apply grows_silent, Hg].
  - split; [reflexivity|]. apply grows_silent. etrans; [exact Hg|].
    apply console_warn_grows.
Qed.

Lemma poll_one_id a w : id (AlertService.poll_one rt cfg a w).1 = id a.
Proof.
  unfold AlertService.poll_one.
  destruct (AlertService.evaluateAlert rt cfg a w) as [[a'|e] w'] eqn:E;
    [simpl; eapply evaluateAlert_id, E | reflexivity].
Qed.

Lemma poll_one_dispatch_only a w :
  dispatch_only (id a) w (AlertService.poll_one rt cfg a w).2.
Proof.
  unfold AlertService.poll_one.
  pose proof (evaluateAlert_dispatch_only a w) as H.
  destruct (AlertService.evaluateAlert rt cfg a w) as [[a'|e] w']; simpl in *;
    [exact H|].
  etrans; [exact H|]. apply grows_dispatch_only, console_warn_grows.
Qed.
End Evaluator.

(** ** Rounding to doubles *)

Lemma round_half_even_error (x : Q) :
  (Qabs (inject_Z (Double.round_half_even x) - x) <= 1 # 2)%Q.
Proof.
  unfold Double.round_half_even.
  pose proof (Qfloor_le x) as Hlo. pose proof (Qlt_floor x) as Hhi.
  set (f := Qfloor x) in *.
  assert (E : (inject_Z (f + 1) == inject_Z f + 1)%Q)
    by (rewrite inject_Z_plus; reflexivity).
  rewrite E in Hhi.
  apply Qabs_Qle_condition.
  destruct (x - inject_Z f ?= 1 # 2)%Q eqn:C.
  - apply Qeq_alt in C. destruct (Z.even f); rewrite ?E; split; lra.
  - apply Qlt_alt in C. split; lra.
  - apply Qgt_alt in C. rewrite E. split; lra.
Qed.

Lemma pow2_pos e : (0 < Double.pow2 e)%Q.
Proof. apply Qpower_0_lt. reflexivity. Qed.

Lemma pow2_plus a b : (Double.pow2 (a + b) == Double.pow2 a * Double.pow2 b)%Q.
Proof. apply Qpower_plus. discriminate. Qed.

Lemma pow2_Z a : 0 <= a -> (Double.pow2 a == inject_Z (2 ^ a))%Q.
Proof. intros Ha. unfold Double.pow2. rewrite (Zpower_Qpower 2 a Ha). reflexivity. Qed.

Lemma ilog2_lower (q : Q) : ~ (q == 0)%Q -> (Double.pow2 (Double.ilog2 q) <= Qabs q)%Q.
Proof.
  intros Hq. unfold Double.ilog2. cbv zeta.
  set (n := Z.abs (Qnum q)). set (d := Z.pos (Qden q)).
  destruct (Qle_bool _ _) eqn:E; [apply Qle_bool_iff, E|].
  assert (Hn : 0 < n).
  { unfold n. destruct q as [qn qd]. cbn in *.
    assert (qn <> 0). { intros ->. apply Hq. reflexivity. } lia. }
  assert (Hd : 0 < d) by (unfold d; lia).
  pose proof (Z.log2_spec n Hn) as [Hn1 _].
  pose proof (Z.log2_spec d Hd) as [_ Hd2].
  pose proof (Z.log2_nonneg n) as Ha. pose proof (Z.log2_nonneg d) as Hb.
  set (a := Z.log2 n) in *. set (b := Z.log2 d) in *.
  replace (a - b - 1) with (a + - (b + 1)) by lia.
  rewrite pow2_plus. unfold Double.pow2 at 2. rewrite Qpower_opp.
  fold (Double.pow2 (b + 1)).
  rewrite (pow2_Z a Ha), (pow2_Z (b + 1)) by lia.
  replace (Z.succ b) with (b + 1) in Hd2 by lia.
  assert (Habs : (Qabs q == inject_Z n / inject_Z d)%Q).
  { destruct q as [qn qd]. unfold n, d. cbn [Qabs Qnum Qden].
    rewrite (Qmake_Qdiv (Z.abs qn) qd). reflexivity. }
  rewrite Habs.
  assert (P1 : (0 < inject_Z (2 ^ (b + 1)))%Q).
  { rewrite <- (pow2_Z (b + 1)) by lia. apply pow2_pos. }
  assert (P2 : (0 < inject_Z d)%Q).
  { change 0%Q with (inject_Z 0). rewrite <- Zlt_Qlt. exact Hd. }
  apply Qle_shift_div_l; [exact P2|].
  assert (E1 : (inject_Z (2 ^ a) * / inject_Z (2 ^ (b + 1)) * inject_Z d
                == inject_Z (2 ^ a) * inject_Z d / inject_Z (2 ^ (b + 1)))%Q).
  { field. lra. }
  rewrite E1. apply Qle_shift_div_r; [exact P1|].
  rewrite <- !inject_Z_mult. rewrite <- Zle_Qle. nia.
Qed.

Lemma Qabs_zero (q : Q) : (q == 0)%Q -> (Qabs q == 0)%Q.
Proof. intros H. rewrite H. reflexivity. Qed.

Lemma round_error (q : Q) :
  (Qabs (Double.round q - q)
   <= Qabs q * Double.pow2 (-53) + Double.pow2 (-1075))%Q.
Proof.
  unfold Double.round.
  pose proof (pow2_pos (-53)) as P53. pose proof (pow2_pos (-1075)) as P1075.
  pose proof (Qabs_nonneg q) as Hq0.
  destruct (Qeq_bool q 0) eqn:E.
  - apply Qeq_bool_iff in E.
    assert (H : (Qabs (0 - q) == 0)%Q). { rewrite E. reflexivity. }
    rewrite H. nra.
  - apply Qeq_bool_neq in E. cbv zeta.
    set (e := Double.ulp_exponent q).
    pose proof (pow2_pos e) as Pe.
    pose proof (round_half_even_error (q / Double.pow2 e)) as Hr.
    set (m := inject_Z (Double.round_half_even (q / Double.pow2 e))) in *.
    assert (Hd : (m * Double.pow2 e - q == (m - q / Double.pow2 e) * Double.pow2 e)%Q).
    { field. lra. }
    rewrite Hd, Qabs_Qmult, (Qabs_pos (Double.pow2 e)) by lra.
    assert (Hb : (Double.pow2 e * (1 # 2)
                  <= Qabs q * Double.pow2 (-53) + Double.pow2 (-1075))%Q).
    { unfold e, Double.ulp_exponent.
      pose proof (ilog2_lower q E) as HL.
      destruct (Z.max_spec (Double.ilog2 q - 52) (-1074)) as [[_ ->]|[_ ->]].
      - assert (X : (Double.pow2 (-1074) * (1 # 2) == Double.pow2 (-1075))%Q)
          by (vm_compute; reflexivity).
        rewrite X. nra.
      - replace (Double.ilog2 q - 52) with (Double.ilog2 q + -52) by lia.
        rewrite pow2_plus.
        assert (X : (Double.pow2 (-52) * (1 # 2) == Double.pow2 (-53))%Q)
          by (vm_compute; reflexivity).
        pose proof (pow2_pos (Double.ilog2 q)) as PL.
        rewrite <- Qmult_assoc, X. nra. }
    nra.
Qed.

Lemma round_near (q b : Q) :
  (Qabs q <= b)%Q ->
  (Qabs (Double.round q - q) <= (b + 1) * (1 # 9007199254740992))%Q.
Proof.
  intros Hb. pose proof (round_error q) as H.
  assert (U : (Double.pow2 (-53) == 1 # 9007199254740992)%Q)
    by (vm_compute; reflexivity).
  assert (V : (Double.pow2 (-1075) <= 1 # 9007199254740992)%Q)
    by (vm_compute; discriminate).
  rewrite U in H. pose proof (Qabs_nonneg q). nra.
Qed.

Lemma ilog2_upper (q : Q) :
  ~ (q == 0)%Q -> (Qabs q < Double.pow2 (Double.ilog2 q + 1))%Q.
Proof.
  intros Hq. unfold Double.ilog2. cbv zeta.
  set (n := Z.abs (Qnum q)). set (d := Z.pos (Qden q)).
  destruct (Qle_bool _ _) eqn:E.
  2:{ replace (Z.log2 n - Z.log2 d - 1 + 1) with (Z.log2 n - Z.log2 d) by lia.
      apply Qnot_le_lt. intros H. apply Qle_bool_iff in H. congruence. }
  assert (Hn : 0 < n).
  { unfold n. destruct q as [qn qd]. cbn in *.
    assert (qn <> 0). { intros ->. apply Hq. reflexivity. } lia. }
  assert (Hd : 0 < d) by (unfold d; lia).
  pose proof (Z.log2_spec n Hn) as [_ Hn2].
  pose proof (Z.log2_spec d Hd) as [Hd1 _].
  pose proof (Z.log2_nonneg n) as Ha. pose proof (Z.log2_nonneg d) as Hb.
  set (a := Z.log2 n) in *. set (b := Z.log2 d) in *.
  replace (a - b + 1) with ((a + 1) + - b) by lia.
  rewrite pow2_plus. unfold Double.pow2 at 2. rewrite Qpower_opp.
  fold (Double.pow2 b).
  rewrite (pow2_Z (a + 1)), (pow2_Z b) by lia.
  replace (Z.succ a) with (a + 1) in Hn2 by lia.
  assert (Habs : (Qabs q == inject_Z n / inject_Z d)%Q).
  { destruct q as [qn qd]. unfold n, d. cbn [Qabs Qnum Qden].
    rewrite (Qmake_Qdiv (Z.abs qn) qd). reflexivity. }
  rewrite Habs.
  assert (P1 : (0 < inject_Z (2 ^ b))%Q).
  { rewrite <- (pow2_Z b) by lia. apply pow2_pos. }
  assert (P2 : (0 < inject_Z d)%Q).
  { change 0%Q with (inject_Z 0). rewrite <- Zlt_Qlt. exact Hd. }
  apply Qlt_shift_div_r; [exact P2|].
  assert (E1 : (inject_Z (2 ^ (a + 1)) * / inject_Z (2 ^ b) * inject_Z d
                == inject_Z (2 ^ (a + 1)) * inject_Z d / inject_Z (2 ^ b))%Q).
  { field. lra. }
  rewrite E1. apply Qlt_shift_div_l; [exact P1|].
  rewrite <- !inject_Z_mult. rewrite <- Zlt_Qlt. nia.
Qed.

(** The result has at most 53 significant bits above the least exponent. *)
Lemma round_representable (q : Q) :
  exists m e,
    (Double.round q == inject_Z m * Double.pow2 e)%Q /\
    Z.abs m <= 2 ^ 53 /\ -1074 <= e.
Proof.
  unfold Double.round. destruct (Qeq_bool q 0) eqn:E.
  { exists 0, 0. split; [reflexivity|]. split; lia. }
  apply Qeq_bool_neq in E. cbv zeta.
  set (e := Double.ulp_exponent q).
  exists (Double.round_half_even (q / Double.pow2 e)), e.
  split; [reflexivity|].
  assert (He : -1074 <= e /\ Double.ilog2 q - 52 <= e)
    by (unfold e, Double.ulp_exponent; lia).
  split; [|lia].
  pose proof (ilog2_upper q E) as Hu.
  pose proof (pow2_pos e) as Pe.
  assert (Hle : (Double.pow2 (Double.ilog2 q + 1) <= Double.pow2 (e + 53))%Q).
  { unfold Double.pow2. apply Qpower_le_compat_l; [lia | discriminate]. }
  assert (Hx : (Qabs (q / Double.pow2 e) < inject_Z (2 ^ 53))%Q).
  { unfold Qdiv. rewrite Qabs_Qmult, (Qabs_pos (/ Double.pow2 e)).
    2:{ apply Qlt_le_weak, Qinv_lt_0_compat, Pe. }
    apply Qlt_shift_div_r; [exact Pe|].
    rewrite <- (pow2_Z 53) by lia.
    eapply Qlt_le_trans; [exact Hu|].
    rewrite Qmult_comm, <- pow2_plus. exact Hle. }
  set (x := (q / Double.pow2 e)%Q) in *.
  unfold Double.round_half_even.
  pose proof (Qfloor_le x) as Hlo. pose proof (Qlt_floor x) as Hhi.
  set (f := Qfloor x) in *.
  apply Qabs_Qlt_condition in Hx as [Hx1 Hx2].
  assert (F1 : f < 2 ^ 53).
  { rewrite Zlt_Qlt. lra. }
  assert (F2 : - 2 ^ 53 <= f + 1).
  { assert (inject_Z (- 2 ^ 53) < inject_Z (f + 1))%Q.
    { rewrite inject_Z_opp. lra. }
    rewrite <- Zlt_Qlt in H. lia. }
  assert (F3 : - 2 ^ 53 <= f).
  { assert (G : (inject_Z (- 2 ^ 53) < inject_Z (f + 1))%Q).
    { rewrite inject_Z_opp. lra. }
    rewrite <- Zlt_Qlt in G. lia. }
  destruct (x - inject_Z f ?= 1 # 2)%Q; [destruct (Z.even f)| |]; lia.
Qed.



Section Sensitivity.
Context (rt : Runtime) (cfg : Config).



End Sensitivity.


Lemma ok_inv {A} (r : Result A * World) :
  is_ok r.1 = true -> exists a, r = (Ok a, r.2).
Proof. destruct r as [[a|e] w]; simpl; [eauto | discriminate]. Qed.


(** ** The sweep *)

Section Sweep.
Context (rt : Runtime) (cfg : Config).

Lemma thresholdless_dec (a : WeatherAlert) : thresholdless a \/ ~ thresholdless a.
Proof.
  unfold thresholdless.
  destruct (type (alert_condition a)), (threshold (alert_condition a));
    first [left; split; congruence | right; intros [? ?]; congruence].
Qed.

Lemma poll_items_ids items w :
  id <$> (AlertService.poll_items rt cfg items w).1 = id <$> items.
Proof.
  revert w. induction items as [|a rest IH]; intros w; simpl; [reflexivity|].
  pose proof (poll_one_id rt cfg a w) as Hid.
  destruct (AlertService.poll_one rt cfg a w) as [a' w1].
  specialize (IH w1).
  destruct (AlertService.poll_items rt cfg rest w1) as [rest' w2].
  simpl in *. f_equal; assumption.
Qed.

Lemma poll_items_thresholdless items w i a :
  items !! i = Some a -> thresholdless a ->
  (AlertService.poll_items rt cfg items w).1 !! i = Some a.
Proof.
  revert w i. induction items as [|b rest IH]; intros w i Hi Ha; [discriminate|].
  simpl.
  pose proof (poll_one_thresholdless rt cfg b w) as Hb.
  destruct (AlertService.poll_one rt cfg b w) as [b' w1].
  specialize (IH w1).
  destruct (AlertService.poll_items rt cfg rest w1) as [rest' w2].
  destruct i as [|i]; simpl in *.
  - injection Hi as ->. destruct (Hb Ha) as [-> _]. reflexivity.
  - apply IH; assumption.
Qed.

(** What a sweep dispatches carries the id of an alert of the registry
    that is not [thresholdless]. *)
Lemma poll_items_dispatch items w :
  exists ps ls,
    posted_ids (AlertService.poll_items rt cfg items w).2 = posted_ids w ++ ps /\
    logged_ids (AlertService.poll_items rt cfg items w).2 = logged_ids w ++ ls /\
    forall x, x ∈ ps ++ ls ->
      exists b, b ∈ items /\ id b = x /\ ~ thresholdless b.
Proof.
  revert w. induction items as [|a rest IH]; intros w; simpl.
  - exists [], []. rewrite !app_nil_r. repeat split.
    intros x Hx. apply elem_of_nil in Hx. destruct Hx.
  - pose proof (poll_one_thresholdless rt cfg a w) as Hsilent.
    pose proof (poll_one_dispatch_only rt cfg a w) as Honly.
    destruct (AlertService.poll_one rt cfg a w) as [a' w1].
    destruct (IH w1) as (ps & ls & E1 & E2 & Hrest).
    destruct (AlertService.poll_items rt cfg rest w1) as [rest' w2].
    simpl in *.
    destruct (thresholdless_dec a) as [Ha|Ha].
    + destruct (Hsilent Ha) as [_ [S1 S2]].
      exists ps, ls. rewrite E1, E2, S1, S2. repeat split.
      intros x Hx. destruct (Hrest x Hx) as (b & Hb & Hid & Hnt).
      exists b. split; [apply list_elem_of_further, Hb | auto].
    + destruct Honly as (p0 & l0 & O1 & O2 & Hall).
      exists (p0 ++ ps), (l0 ++ ls).
      split; [rewrite E1, O1, app_assoc; reflexivity|].
      split; [rewrite E2, O2, app_assoc; reflexivity|].
      intros x Hx.
      apply Forall_app in Hall as [Hp0 Hl0].
      rewrite Forall_forall in Hp0, Hl0.
      rewrite !elem_of_app in Hx.
      destruct Hx as [[Hx|Hx]|[Hx|Hx]].
      * exists a. split; [apply list_elem_of_here|]. split; [apply Hp0, Hx | exact Ha].
      * destruct (Hrest x) as (b & Hb & Hid & Hnt);
          [apply elem_of_app; left; exact Hx|].
        exists b. split; [apply list_elem_of_further, Hb | auto].
      * exists a. split; [apply list_elem_of_here|]. split; [apply Hl0, Hx | exact Ha].
      * destruct (Hrest x) as (b & Hb & Hid & Hnt);
          [apply elem_of_app; right; exact Hx|].
        exists b. split; [apply list_elem_of_further, Hb | auto].
Qed.

Lemma NoDup_ids_inj (items : list WeatherAlert) a b :
  NoDup (id <$> items) -> a ∈ items -> b ∈ items -> id a = id b -> a = b.
Proof.
  induction items as [|x rest IH]; intros Hnd Ha Hb Hid.
  - apply elem_of_nil in Ha. destruct Ha.
  - rewrite fmap_cons in Hnd. apply NoDup_cons in Hnd as [Hx Hnd].
    apply elem_of_cons in Ha, Hb.
    destruct Ha as [->|Ha], Hb as [->|Hb]; auto.
    + destruct Hx. rewrite Hid. apply list_elem_of_fmap_2, Hb.
    + destruct Hx. rewrite <- Hid. apply list_elem_of_fmap_2, Ha.
Qed.
End Sweep.

(** C10.  An alert of type [temp_above], [temp_below] or [wind_above]
    registered without a threshold is left as it is by every sweep, and the
    sweep dispatches nothing for it: whatever the fetched weather, no
    webhook POST and no console alert line carries its id, and its
    [lastTriggeredAt] is not stamped.  (The ids of a registry are pairwise
    distinct: they are the keys of the map.) *)
Theorem thresholdless_alert_never_fires
    (rt : Runtime) (cfg : Config) (st : AlertService.State) (w : World)
    (i : nat) (a : WeatherAlert) :
  NoDup (id <$> AlertService.alerts st) ->
  AlertService.alerts st !! i = Some a ->
  type (alert_condition a) = temp_above \/
  type (alert_condition a) = temp_below \/
  type (alert_condition a) = wind_above ->
  threshold (alert_condition a) = None ->
  let st' := (AlertService.pollAlerts rt cfg st w).1 in
  let w' := (AlertService.pollAlerts rt cfg st w).2 in
  AlertService.alerts st' !! i = Some a /\
  dispatch_avoids (id a) w w' /\
  (forall w0, (AlertService.poll_one rt cfg a w0).1 = a /\
              silent w0 (AlertService.poll_one rt cfg a w0).2).
Proof.
  intros Hnd Hi Hty Hth.
  assert (Ha : thresholdless a).
  { split; [|exact Hth]. destruct Hty as [H|[H|H]]; rewrite H; discriminate. }
  unfold AlertService.pollAlerts, AlertService.listAlerts.
  pose proof (poll_items_thresholdless rt cfg _ w i a Hi Ha) as Hkeep.
  destruct (poll_items_dispatch rt cfg (AlertService.alerts st) w)
    as (ps & ls & E1 & E2 & Hfrom).
  destruct (AlertService.poll_items rt cfg (AlertService.alerts st) w)
    as [items' w'].
  simpl in *. split; [exact Hkeep|]. split.
  - assert (Hfresh : forall x, x ∈ ps ++ ls -> x <> id a).
    { intros x Hx ->. destruct (Hfrom _ Hx) as (b & Hb & Hid & Hnt).
      apply Hnt.
      rewrite (NoDup_ids_inj _ b a Hnd Hb
                 ltac:(eapply list_elem_of_lookup_2; exact Hi) Hid).
      exact Ha. }
    exists ps, ls.
    split; [exact E1|]. split; [exact E2|].
    split; intros Hin; eapply Hfresh; [apply elem_of_app; eauto | reflexivity
                                      |apply elem_of_app; eauto | reflexivity].
  - intros w0. apply poll_one_thresholdless, Ha.
Qed.

Lemma thresholdless_alert_never_fires_witness :
  let w := initial_world 1700000000000 in
  let st' := (AlertService.pollAlerts upstream_28 ow_only two_alerts w).1 in
  let w' := (AlertService.pollAlerts upstream_28 ow_only two_alerts w).2 in
  AlertService.alerts st' !! 1%nat = Some wind_alert_no_threshold /\
  dispatch_avoids (id wind_alert_no_threshold) w w' /\
  (forall w0,
     (AlertService.poll_one upstream_28 ow_only wind_alert_no_threshold w0).1
       = wind_alert_no_threshold /\
     silent w0 (AlertService.poll_one upstream_28 ow_only
                  wind_alert_no_threshold w0).2).
Proof.
  intros w.
  apply (thresholdless_alert_never_fires upstream_28 ow_only two_alerts w 1
           wind_alert_no_threshold).
  - apply (bool_decide_unpack _). vm_compute. reflexivity.
  - reflexivity.
  - right. right. reflexivity.
  - reflexivity.
Defined.

(** *** The ids of the registry stay pairwise distinct *)

Lemma map_set_ids_fresh a l :
  id a ∉ id <$> l -> id <$> AlertService.map_set a l = (id <$> l) ++ [id a].
Proof.
  induction l as [|x r IH]; intros Hn; [reflexivity|].
  rewrite fmap_cons in Hn. apply not_elem_of_cons in Hn as [Hne Hr].
  cbn [AlertService.map_set].
  destruct (String.eqb_spec (id x) (id a)) as [E|E]; [congruence|].
  rewrite !fmap_cons, IH by assumption. reflexivity.
Qed.

Lemma map_set_ids_known a l :
  id a ∈ id <$> l -> id <$> AlertService.map_set a l = id <$> l.
Proof.
  induction l as [|x r IH]; intros Hin.
  - apply elem_of_nil in Hin. destruct Hin.
  - cbn [AlertService.map_set].
    destruct (String.eqb_spec (id x) (id a)) as [E|E].
    + rewrite !fmap_cons, E. reflexivity.
    + rewrite fmap_cons in Hin. apply elem_of_cons in Hin as [Hin|Hin];
        [congruence|].
      rewrite !fmap_cons, IH by assumption. reflexivity.
Qed.

Lemma registerAlert_NoDup rt alert st w :
  NoDup (id <$> AlertService.alerts st) ->
  NoDup (id <$> AlertService.alerts (AlertService.registerAlert rt alert st w).2).
Proof.
  intros Hnd. cbn [AlertService.registerAlert snd AlertService.alerts].
  set (full := {| id := AlertService.generateId rt st |}).
  destruct (decide (id full ∈ id <$> AlertService.alerts st)) as [Hin|Hin].
  - rewrite map_set_ids_known by assumption. exact Hnd.
  - rewrite map_set_ids_fresh by assumption.
    apply NoDup_app. split; [exact Hnd|]. split.
    + intros x Hx Hx'. apply list_elem_of_singleton in Hx'. subst x. auto.
    + apply NoDup_singleton.
Qed.

Lemma removeAlert_NoDup i st :
  NoDup (id <$> AlertService.alerts st) ->
  NoDup (id <$> AlertService.alerts (AlertService.removeAlert i st).2).
Proof.
  cbn [AlertService.removeAlert snd AlertService.alerts].
  unfold AlertService.map_delete.
  induction (AlertService.alerts st) as [|x r IH]; intros Hnd; [exact Hnd|].
  rewrite fmap_cons in Hnd. apply NoDup_cons in Hnd as [Hx Hnd].
  cbn [List.filter].
  destruct (negb (String.eqb (id x) i)); [|apply IH, Hnd].
  rewrite fmap_cons. apply NoDup_cons. split; [|apply IH, Hnd].
  intros Hin. apply Hx. apply list_elem_of_fmap in Hin as (y & Hy & Hin).
  apply list_elem_of_In, filter_In in Hin as [Hin _].
  rewrite Hy. apply list_elem_of_fmap_2, list_elem_of_In, Hin.
Qed.

Lemma pollAlerts_NoDup rt cfg st w :
  NoDup (id <$> AlertService.alerts st) ->
  NoDup (id <$> AlertService.alerts (AlertService.pollAlerts rt cfg st w).1).
Proof.
  intros Hnd. unfold AlertService.pollAlerts, AlertService.listAlerts.
  pose proof (poll_items_ids rt cfg (AlertService.alerts st) w) as Hids.
  destruct (AlertService.poll_items rt cfg (AlertService.alerts st) w) as [items w'].
  simpl in *. rewrite Hids. exact Hnd.
Qed.

(** ** The cache stores *)

Section CacheFacts.
Context {V : Type}.
Implicit Types (c : LRUCache.t V) (e : CacheEntry V) (v : V).

Lemma cache_get_nil ttl t key :
  LRUCache.get ttl t key ([] : LRUCache.t V) = (None, []).
Proof. reflexivity. Qed.

Lemma cache_find_key key c e : LRUCache.find key c = Some e -> ce_key e = key.
Proof.
  unfold LRUCache.find. intros H. apply find_some in H as [_ H].
  apply String.eqb_eq, H.
Qed.

Lemma cache_find_head key e c : ce_key e = key -> LRUCache.find key (e :: c) = Some e.
Proof.
  intros <-. unfold LRUCache.find. simpl. rewrite String.eqb_refl. reflexivity.
Qed.

Lemma cache_find_set t key v c :
  LRUCache.find key (LRUCache.set t key v c)
  = Some {| ce_key := key; ce_value := v; ce_insertedAt := t |}.
Proof.
  unfold LRUCache.set, LRUCache.max. cbn [take].
  apply cache_find_head. reflexivity.
Qed.

Lemma cache_get_hit ttl t key c v c' :
  LRUCache.get ttl t key c = (Some v, c') ->
  exists e, LRUCache.find key c = Some e /\ ce_value e = v /\
            LRUCache.expired ttl t e = false /\
            c' = e :: LRUCache.remove key c.
Proof.
  unfold LRUCache.get. destruct (LRUCache.find key c) as [e|]; [|discriminate].
  destruct (LRUCache.expired ttl t e) eqn:Hexp; [discriminate|].
  intros H. injection H as <- <-. eauto.
Qed.

Lemma cache_get_live ttl t key c e :
  LRUCache.find key c = Some e -> LRUCache.expired ttl t e = false ->
  LRUCache.get ttl t key c = (Some (ce_value e), e :: LRUCache.remove key c).
Proof. intros Hf He. unfold LRUCache.get. rewrite Hf, He. reflexivity. Qed.

Lemma cache_get_miss_nil ttl t key c c' :
  c = [] -> LRUCache.get ttl t key c = (None, c') -> c' = [].
Proof. intros -> H. rewrite cache_get_nil in H. injection H as <-. reflexivity. Qed.
End CacheFacts.

(** ** Counting requests *)

Lemma gets_at_most_refl w : gets_at_most 0 w w.
Proof. exists []. rewrite app_nil_r. split; [|split]; [done | constructor | simpl; lia]. Qed.

Lemma gets_at_most_trans n k w1 w2 w3 :
  gets_at_most n w1 w2 -> gets_at_most k w2 w3 -> gets_at_most (n + k) w1 w3.
Proof.
  intros (r1 & E1 & F1 & L1) (r2 & E2 & F2 & L2).
  exists (r1 ++ r2). rewrite E2, E1, app_assoc. split; [|split].
  - reflexivity.
  - apply Forall_app; auto.
  - rewrite length_app. lia.
Qed.

Lemma gets_at_most_mono n k w w' :
  (n <= k)%nat -> gets_at_most n w w' -> gets_at_most k w w'.
Proof. intros Hle (rs & E & F & L). exists rs. split; [|split]; auto. lia. Qed.

Lemma gets_at_most_same_requests w w' :
  requests w' = requests w -> gets_at_most 0 w w'.
Proof.
  intros E. exists []. rewrite app_nil_r.
  split; [|split]; [done | constructor | simpl; lia].
Qed.

Section AtMost.
Context (rt : Runtime) (cfg : Config).

Lemma at_most_mono {A} n k (m : M A) : (n <= k)%nat -> at_most n m -> at_most k m.
Proof. intros Hle Hm w. eapply gets_at_most_mono; [exact Hle | apply Hm]. Qed.

Lemma at_most_unchanged {A} (m : M A) : keeps unchanged m -> at_most 0 m.
Proof. intros Hm w. rewrite (Hm w). apply gets_at_most_refl. Qed.

Lemma at_most_bind {A B} n k (m : M A) (f : A -> M B) :
  at_most n m -> (forall a, at_most k (f a)) -> at_most (n + k) (bind m f).
Proof.
  intros Hm Hf w. unfold bind. specialize (Hm w).
  destruct (m w) as [[a|e] w1]; simpl in *.
  - eapply gets_at_most_trans; [exact Hm | apply Hf].
  - eapply gets_at_most_mono; [|exact Hm]. lia.
Qed.

Lemma at_most_try_catch {A} n k (m : M A) (h : JsError -> M A) :
  at_most n m -> (forall e, at_most k (h e)) -> at_most (n + k) (try_catch m h).
Proof.
  intros Hm Hh w. unfold try_catch. specialize (Hm w).
  destruct (m w) as [[a|e] w1]; simpl in *.
  - eapply gets_at_most_mono; [|exact Hm]. lia.
  - eapply gets_at_most_trans; [exact Hm | apply Hh].
Qed.

Lemma at_most_http_get url : at_most 1 (http_get rt url).
Proof.
  intros w. unfold http_get. destruct (axios_get rt _ _ url) as [[m|d] el];
    exists [GET url]; simpl; (split; [done|]); (split; [repeat constructor | lia]).
Qed.

Lemma at_most_console_warn label detail : at_most 0 (console_warn label detail).
Proof. intros w. apply gets_at_most_same_requests. reflexivity. Qed.

(** An adapter call: resolve the query, make one request, map the answer. *)
Lemma at_most_adapter {A} (r : Result string) (url : string -> string)
    (tail : Body -> M A) :
  (forall b, keeps unchanged (tail b)) ->
  at_most 1 (let* s := lift r in let* b := http_get rt (url s) in tail b).
Proof.
  intros Htail.
  apply (at_most_bind 0 1); [apply at_most_unchanged, keeps_lift, _|].
  intros s. apply (at_most_bind 1 0); [apply at_most_http_get|].
  intros b. apply at_most_unchanged, Htail.
Qed.

Lemma wa_getCurrent_at_most q : at_most 1 (wa.getCurrent rt cfg q).
Proof. unfold wa.getCurrent. apply at_most_adapter. intros b. keeps_auto. Qed.

Lemma wa_getForecast_at_most q n : at_most 1 (wa.getForecast rt cfg q n).
Proof.
  unfold wa.getForecast. cbv zeta.
  apply (at_most_adapter _ (fun s => wa.forecast_url rt cfg s (nullish n 3))).
  intros b. keeps_auto.
Qed.

Lemma wa_getHistorical_at_most q d : at_most 1 (wa.getHistorical rt cfg q d).
Proof.
  unfold wa.getHistorical.
  apply (at_most_adapter _ (fun s => wa.history_url rt cfg s d)).
  intros b. keeps_auto.
Qed.

Lemma ow_getCurrent_at_most q u : at_most 1 (ow.getCurrent rt cfg q u).
Proof.
  unfold ow.getCurrent. cbv zeta.
  apply (at_most_adapter _ (fun s => ow.current_url cfg s (nullish u (defaultUnits cfg)))).
  intros b. keeps_auto.
Qed.

Lemma ow_getForecast_at_most q u n : at_most 1 (ow.getForecast rt cfg q u n).
Proof.
  unfold ow.getForecast. cbv zeta.
  apply (at_most_adapter _ (fun s => ow.forecast_url cfg s (nullish u (defaultUnits cfg)))).
  intros b. keeps_auto.
Qed.

Lemma fetchCurrent_at_most q u : at_most 2 (Aggregator.fetchCurrent rt cfg q u).
Proof.
  unfold Aggregator.fetchCurrent.
  apply (at_most_bind 1 1).
  - destruct (truthy_str (weatherApiKey cfg)).
    + apply (at_most_try_catch 1 0).
      * apply (at_most_bind 1 0); [apply wa_getCurrent_at_most|].
        intros d. apply at_most_unchanged, keeps_ret, _.
      * intros e. apply (at_most_bind 0 0); [apply at_most_console_warn|].
        intros _. apply at_most_unchanged, keeps_ret, _.
    + apply (at_most_mono 0); [lia|]. apply at_most_unchanged, keeps_ret, _.
  - intros [d|]; [apply (at_most_mono 0); [lia|]; apply at_most_unchanged, keeps_ret, _|].
    destruct (truthy_str (openWeatherApiKey cfg)).
    + apply (at_most_bind 1 0); [apply ow_getCurrent_at_most|].
      intros d. apply at_most_unchanged, keeps_ret, _.
    + apply (at_most_mono 0); [lia|]. apply at_most_unchanged, keeps_ret, _.
Qed.
End AtMost.

(** ** The fallback loop *)

Section Fallback.
Context (rt : Runtime) (cfg : Config).

Lemma fetchCurrent_wa_failed q u w0 e w1 :
  truthy_str (weatherApiKey cfg) = true ->
  wa.getCurrent rt cfg q w0 = (Err e, w1) ->
  Aggregator.fetchCurrent rt cfg q u w0 = after_wa_current_failure rt cfg q u e w1.
Proof.
  intros Hk Hwa. unfold Aggregator.fetchCurrent, after_wa_current_failure.
  rewrite Hk. unfold bind at 1. unfold try_catch, bind at 1. rewrite Hwa.
  unfold bind. simpl. reflexivity.
Qed.

Lemma fetchForecast_wa_failed q u n w0 e w1 :
  truthy_str (weatherApiKey cfg) = true ->
  wa.getForecast rt cfg q (Some n) w0 = (Err e, w1) ->
  Aggregator.fetchForecast rt cfg q u n w0
  = after_wa_forecast_failure rt cfg q u n e w1.
Proof.
  intros Hk Hwa. unfold Aggregator.fetchForecast, after_wa_forecast_failure.
  rewrite Hk. unfold bind at 1. unfold try_catch, bind at 1. rewrite Hwa.
  unfold bind. simpl. reflexivity.
Qed.

Lemma fetchHistorical_wa_failed q d w0 e w1 :
  truthy_str (weatherApiKey cfg) = true ->
  wa.getHistorical rt cfg q d w0 = (Err e, w1) ->
  Aggregator.fetchHistorical rt cfg q d w0
  = (Ok None, (console_warn "WeatherAPI historical failed:" (message e) w1).2).
Proof.
  intros Hk Hwa. unfold Aggregator.fetchHistorical.
  rewrite Hk. unfold try_catch, bind at 1. rewrite Hwa. reflexivity.
Qed.

Lemma fetchCurrent_outcome q u w :
  (exists o, (Aggregator.fetchCurrent rt cfg q u w).1 = Ok o) \/
  (truthy_str (openWeatherApiKey cfg) = true /\
   exists w0 e, (Aggregator.fetchCurrent rt cfg q u w).1 = Err e /\
                (ow.getCurrent rt cfg q (Some u) w0).1 = Err e).
Proof.
  unfold Aggregator.fetchCurrent, bind, try_catch, ret.
  destruct (truthy_str (weatherApiKey cfg)).
  - destruct (wa.getCurrent rt cfg q w) as [[d|e] w1]; simpl; [eauto|].
    destruct (truthy_str (openWeatherApiKey cfg)); [|eauto].
    destruct (ow.getCurrent rt cfg q (Some u) _) as [[d|e'] w2] eqn:E; [eauto|].
    right. split; [reflexivity|]. eexists _, e'. rewrite E. eauto.
  - destruct (truthy_str (openWeatherApiKey cfg)); [|eauto].
    destruct (ow.getCurrent rt cfg q (Some u) _) as [[d|e'] w2] eqn:E; [eauto|].
    right. split; [reflexivity|]. eexists _, e'. rewrite E. eauto.
Qed.

Lemma fetchForecast_outcome q u n w :
  (exists o, (Aggregator.fetchForecast rt cfg q u n w).1 = Ok o) \/
  (truthy_str (openWeatherApiKey cfg) = true /\
   exists w0 e, (Aggregator.fetchForecast rt cfg q u n w).1 = Err e /\
                (ow.getForecast rt cfg q (Some u) (Some n) w0).1 = Err e).
Proof.
  unfold Aggregator.fetchForecast, bind, try_catch, ret.
  destruct (truthy_str (weatherApiKey cfg)).
  - destruct (wa.getForecast rt cfg q (Some n) w) as [[d|e] w1]; simpl; [eauto|].
    destruct (truthy_str (openWeatherApiKey cfg)); [|eauto].
    destruct (ow.getForecast rt cfg q (Some u) (Some n) _) as [[d|e'] w2] eqn:E;
      [eauto|].
    right. split; [reflexivity|]. eexists _, e'. rewrite E. eauto.
  - destruct (truthy_str (openWeatherApiKey cfg)); [|eauto].
    destruct (ow.getForecast rt cfg q (Some u) (Some n) _) as [[d|e'] w2] eqn:E;
      [eauto|].
    right. split; [reflexivity|]. eexists _, e'. rewrite E. eauto.
Qed.

Lemma fetchHistorical_outcome q d w :
  exists o, (Aggregator.fetchHistorical rt cfg q d w).1 = Ok o.
Proof.
  unfold Aggregator.fetchHistorical, bind, try_catch, ret.
  destruct (truthy_str (weatherApiKey cfg)); [|eauto].
  destruct (wa.getHistorical rt cfg q d w) as [[h|e] w1]; simpl; eauto.
Qed.

Lemma currentCache_get_ok key w :
  exists o w0, Aggregator.currentCache_get cfg key w = (Ok o, w0).
Proof.
  unfold Aggregator.currentCache_get. destruct (LRUCache.get _ _ _ _). eauto.
Qed.

Lemma forecastCache_get_ok key w :
  exists o w0, Aggregator.forecastCache_get cfg key w = (Ok o, w0).
Proof.
  unfold Aggregator.forecastCache_get. destruct (LRUCache.get _ _ _ _). eauto.
Qed.

Lemma historicalCache_get_ok key w :
  exists o w0, Aggregator.historicalCache_get cfg key w = (Ok o, w0).
Proof.
  unfold Aggregator.historicalCache_get. destruct (LRUCache.get _ _ _ _). eauto.
Qed.

(** The three operations, one step at a time. *)
Lemma getCurrentWeather_unfold q u w :
  Aggregator.getCurrentWeather rt cfg q u w =
    let key := current_key rt cfg q u in
    match Aggregator.currentCache_get cfg key w with
    | (Ok (Some c), w0) => (Ok c, w0)
    | (Ok None, w0) =>
        match Aggregator.fetchCurrent rt cfg q (nullish u (defaultUnits cfg)) w0 with
        | (Ok (Some d), w1) => (Ok d, (Aggregator.currentCache_set key d w1).2)
        | (Ok None, w1) => (Err Aggregator.no_provider, w1)
        | (Err e, w1) => (Err e, w1)
        end
    | (Err e, w0) => (Err e, w0)
    end.
Proof.
  unfold Aggregator.getCurrentWeather, current_key, bind. cbv zeta.
  destruct (Aggregator.currentCache_get cfg _ w) as [[[c|]|e] w0]; try reflexivity.
  destruct (Aggregator.fetchCurrent rt cfg q _ w0) as [[[d|]|e] w1]; reflexivity.
Qed.

Lemma getForecast_unfold q u n w :
  Aggregator.getForecast rt cfg q u n w =
    let u' := nullish u (defaultUnits cfg) in
    let n' := nullish n 3 in
    let key := Aggregator.keyOf rt "forecast" q (Some (ExtraUnitsDays u' n')) in
    match Aggregator.forecastCache_get cfg key w with
    | (Ok (Some c), w0) => (Ok c, w0)
    | (Ok None, w0) =>
        match Aggregator.fetchForecast rt cfg q u' n' w0 with
        | (Ok (Some d), w1) => (Ok d, (Aggregator.forecastCache_set key d w1).2)
        | (Ok None, w1) => (Err Aggregator.no_provider, w1)
        | (Err e, w1) => (Err e, w1)
        end
    | (Err e, w0) => (Err e, w0)
    end.
Proof.
  unfold Aggregator.getForecast, bind. cbv zeta.
  destruct (Aggregator.forecastCache_get cfg _ w) as [[[c|]|e] w0]; try reflexivity.
  destruct (Aggregator.fetchForecast rt cfg q _ _ w0) as [[[d|]|e] w1]; reflexivity.
Qed.

Lemma getHistorical_unfold q d w :
  Aggregator.getHistorical rt cfg q d w =
    let key := historical_key rt q d in
    match Aggregator.historicalCache_get cfg key w with
    | (Ok (Some c), w0) => (Ok c, w0)
    | (Ok None, w0) =>
        match Aggregator.fetchHistorical rt cfg q d w0 with
        | (Ok (Some h), w1) => (Ok h, (Aggregator.historicalCache_set key h w1).2)
        | (Ok None, w1) => (Err Aggregator.no_historical, w1)
        | (Err e, w1) => (Err e, w1)
        end
    | (Err e, w0) => (Err e, w0)
    end.
Proof.
  unfold Aggregator.getHistorical, historical_key, bind. cbv zeta.
  destruct (Aggregator.historicalCache_get cfg _ w) as [[[c|]|e] w0]; try reflexivity.
  destruct (Aggregator.fetchHistorical rt cfg q d w0) as [[[h|]|e] w1]; reflexivity.
Qed.

Lemma getCurrentWeather_outcome q u w :
  result_terminal_or_ow cfg (Aggregator.getCurrentWeather rt cfg q u w).1
    (fun w0 => (ow.getCurrent rt cfg q (Some (nullish u (defaultUnits cfg))) w0).1).
Proof.
  unfold result_terminal_or_ow. rewrite getCurrentWeather_unfold. cbv zeta.
  set (u' := nullish u (defaultUnits cfg)).
  destruct (currentCache_get_ok (current_key rt cfg q u) w) as ([c|] & w0 & ->);
    simpl; auto.
  destruct (fetchCurrent_outcome q u' w0) as [[o Ho]|(Hk & w1 & e & He & How)];
    destruct (Aggregator.fetchCurrent rt cfg q u' w0) as [[[d|]|e'] w2];
    simpl in *; simplify_eq; auto.
  right. right. split; [exact Hk|]. exists w1. rewrite How. auto.
Qed.

Lemma getForecast_outcome q u n w :
  result_terminal_or_ow cfg (Aggregator.getForecast rt cfg q u n w).1
    (fun w0 => (ow.getForecast rt cfg q (Some (nullish u (defaultUnits cfg)))
                  (Some (nullish n 3)) w0).1).
Proof.
  unfold result_terminal_or_ow. rewrite getForecast_unfold. cbv zeta.
  set (u' := nullish u (defaultUnits cfg)). set (n' := nullish n 3).
  destruct (forecastCache_get_ok (Aggregator.keyOf rt "forecast" q
              (Some (ExtraUnitsDays u' n'))) w) as ([c|] & w0 & ->); simpl; auto.
  destruct (fetchForecast_outcome q u' n' w0) as [[o Ho]|(Hk & w1 & e & He & How)];
    destruct (Aggregator.fetchForecast rt cfg q u' n' w0) as [[[d|]|e'] w2];
    simpl in *; simplify_eq; auto.
  right. right. split; [exact Hk|]. exists w1. rewrite How. auto.
Qed.

Lemma getHistorical_outcome q d w :
  is_ok (Aggregator.getHistorical rt cfg q d w).1 = true \/
  (Aggregator.getHistorical rt cfg q d w).1 = Err Aggregator.no_historical.
Proof.
  rewrite getHistorical_unfold. cbv zeta.
  destruct (historicalCache_get_ok (historical_key rt q d) w)
    as ([c|] & w0 & ->); simpl; auto.
  destruct (fetchHistorical_outcome q d w0) as [o Ho].
  destruct (Aggregator.fetchHistorical rt cfg q d w0) as [[[h|]|e'] w2];
    simpl in *; simplify_eq; auto.
Qed.
End Fallback.

(** C1, as the code has it.  Each of [getCurrentWeather] and
    [getForecast] ends in a result, in the terminal error, or in the error
    raised by the OpenWeather adapter, which is tried last and outside any
    [try]; [getHistorical] ends in a result or in its terminal error.  A
    failure of the WeatherAPI adapter never reaches the caller: it is
    logged as a warning and the next provider, if any, is tried. *)
Theorem weatherapi_failure_absorbed_openweather_failure_surfaces
    (rt : Runtime) (cfg : Config) (q : LocationQuery) (u : option Units)
    (n : option Z) (d : string) (w : World) :
  result_terminal_or_ow cfg (Aggregator.getCurrentWeather rt cfg q u w).1
    (fun w0 => (ow.getCurrent rt cfg q (Some (nullish u (defaultUnits cfg))) w0).1) /\
  result_terminal_or_ow cfg (Aggregator.getForecast rt cfg q u n w).1
    (fun w0 => (ow.getForecast rt cfg q (Some (nullish u (defaultUnits cfg)))
                  (Some (nullish n 3)) w0).1) /\
  (is_ok (Aggregator.getHistorical rt cfg q d w).1 = true \/
   (Aggregator.getHistorical rt cfg q d w).1 = Err Aggregator.no_historical) /\
  (forall u' w0 e w1,
     truthy_str (weatherApiKey cfg) = true ->
     wa.getCurrent rt cfg q w0 = (Err e, w1) ->
     Aggregator.fetchCurrent rt cfg q u' w0
     = after_wa_current_failure rt cfg q u' e w1) /\
  (forall u' n' w0 e w1,
     truthy_str (weatherApiKey cfg) = true ->
     wa.getForecast rt cfg q (Some n') w0 = (Err e, w1) ->
     Aggregator.fetchForecast rt cfg q u' n' w0
     = after_wa_forecast_failure rt cfg q u' n' e w1) /\
  (forall w0 e w1,
     truthy_str (weatherApiKey cfg) = true ->
     wa.getHistorical rt cfg q d w0 = (Err e, w1) ->
     Aggregator.fetchHistorical rt cfg q d w0
     = (Ok None, (console_warn "WeatherAPI historical failed:" (message e) w1).2)).
Proof.
  split; [apply getCurrentWeather_outcome|].
  split; [apply getForecast_outcome|].
  split; [apply getHistorical_outcome|].
  split; [intros; apply fetchCurrent_wa_failed; assumption|].
  split; [intros; apply fetchForecast_wa_failed; assumption|].
  intros; apply fetchHistorical_wa_failed; assumption.
Qed.

Lemma weatherapi_failure_absorbed_openweather_failure_surfaces_witness :
  let w0 := initial_world 1700000000000 in
  let e := AxiosError "Request failed with status code 503" in
  let w1 := (wa.getCurrent wa_down_ow_up both_keys oslo w0).2 in
  Aggregator.fetchCurrent wa_down_ow_up both_keys oslo metric w0
  = after_wa_current_failure wa_down_ow_up both_keys oslo metric e w1 /\
  is_ok (Aggregator.fetchCurrent wa_down_ow_up both_keys oslo metric w0).1 = true.
Proof.
  intros w0 e w1. split; [|reflexivity].
  apply (weatherapi_failure_absorbed_openweather_failure_surfaces
           wa_down_ow_up both_keys oslo None None "2024-05-01" w0).
  - reflexivity.
  - reflexivity.
Defined.

(** C1 as stated fails: with OpenWeather alone configured and its upstream
    unreachable, the caller of [getCurrentWeather] receives the transport
    error of the adapter, which is neither a result nor the terminal
    error. *)
Lemma openweather_failure_reaches_caller :
  let r := (Aggregator.getCurrentWeather offline ow_only oslo None
              (initial_world 0)).1 in
  r = Err (AxiosError "unreachable") /\
  is_ok r = false /\
  r <> Err Aggregator.no_provider.
Proof. vm_compute. repeat split. discriminate. Qed.

(** ** What the caches can hold *)

#[global] Instance others_than_current_preorder : PreOrder others_than_current.
Proof.
  split; [intros w; split; reflexivity|].
  intros w1 w2 w3 [A1 A2] [B1 B2]. split; etrans; eauto.
Qed.

#[global] Instance others_than_forecast_preorder : PreOrder others_than_forecast.
Proof.
  split; [intros w; split; reflexivity|].
  intros w1 w2 w3 [A1 A2] [B1 B2]. split; etrans; eauto.
Qed.

#[global] Instance others_than_historical_preorder : PreOrder others_than_historical.
Proof.
  split; [intros w; split; reflexivity|].
  intros w1 w2 w3 [A1 A2] [B1 B2]. split; etrans; eauto.
Qed.

Lemma same_caches_others_than_current {A} (m : M A) :
  keeps same_caches m -> keeps others_than_current m.
Proof. apply keeps_weaken. intros w w' (_ & ? & ?). split; assumption. Qed.

Lemma same_caches_others_than_forecast {A} (m : M A) :
  keeps same_caches m -> keeps others_than_forecast m.
Proof. apply keeps_weaken. intros w w' (? & _ & ?). split; assumption. Qed.

Lemma same_caches_others_than_historical {A} (m : M A) :
  keeps same_caches m -> keeps others_than_historical m.
Proof. apply keeps_weaken. intros w w' (? & ? & _). split; assumption. Qed.

Section CacheContents.
Context (rt : Runtime) (cfg : Config).

Lemma currentCache_get_others key :
  keeps others_than_current (Aggregator.currentCache_get cfg key).
Proof.
  intros w. unfold Aggregator.currentCache_get.
  destruct (LRUCache.get _ _ _ _). split; reflexivity.
Qed.

Lemma currentCache_set_others key v :
  keeps others_than_current (Aggregator.currentCache_set key v).
Proof. intros w. split; reflexivity. Qed.

Lemma forecastCache_get_others key :
  keeps others_than_forecast (Aggregator.forecastCache_get cfg key).
Proof.
  intros w. unfold Aggregator.forecastCache_get.
  destruct (LRUCache.get _ _ _ _). split; reflexivity.
Qed.

Lemma forecastCache_set_others key v :
  keeps others_than_forecast (Aggregator.forecastCache_set key v).
Proof. intros w. split; reflexivity. Qed.

Lemma historicalCache_get_others key :
  keeps others_than_historical (Aggregator.historicalCache_get cfg key).
Proof.
  intros w. unfold Aggregator.historicalCache_get.
  destruct (LRUCache.get _ _ _ _). split; reflexivity.
Qed.

Lemma historicalCache_set_others key v :
  keeps others_than_historical (Aggregator.historicalCache_set key v).
Proof. intros w. split; reflexivity. Qed.

Hint Resolve currentCache_get_others currentCache_set_others
  forecastCache_get_others forecastCache_set_others
  historicalCache_get_others historicalCache_set_others
  same_caches_others_than_current same_caches_others_than_forecast
  same_caches_others_than_historical : keeps.

Lemma getCurrentWeather_others q u :
  keeps others_than_current (Aggregator.getCurrentWeather rt cfg q u).
Proof. unfold Aggregator.getCurrentWeather. keeps_auto. Qed.

Lemma getForecast_others q u n :
  keeps others_than_forecast (Aggregator.getForecast rt cfg q u n).
Proof. unfold Aggregator.getForecast. keeps_auto. Qed.

Lemma getHistorical_others q d :
  keeps others_than_historical (Aggregator.getHistorical rt cfg q d).
Proof. unfold Aggregator.getHistorical. keeps_auto. Qed.

Lemma world_eta (w : World) :
  {| now := now w; requests := requests w; console := console w;
     currentCache := currentCache w; forecastCache := forecastCache w;
     historicalCache := historicalCache w |} = w.
Proof. destruct w. reflexivity. Qed.

(** With no provider configured and nothing cached, each operation fails
    at once and leaves the world as it was. *)
Lemma getCurrentWeather_unconfigured q u w :
  truthy_str (weatherApiKey cfg) = false ->
  truthy_str (openWeatherApiKey cfg) = false ->
  currentCache w = [] ->
  Aggregator.getCurrentWeather rt cfg q u w = (Err Aggregator.no_provider, w).
Proof.
  intros Hwa How Hc.
  unfold Aggregator.getCurrentWeather, Aggregator.fetchCurrent,
    Aggregator.currentCache_get, bind, ret, throw. cbv zeta.
  rewrite Hc, cache_get_nil, Hwa, How, <- Hc, world_eta. reflexivity.
Qed.

Lemma getForecast_unconfigured q u n w :
  truthy_str (weatherApiKey cfg) = false ->
  truthy_str (openWeatherApiKey cfg) = false ->
  forecastCache w = [] ->
  Aggregator.getForecast rt cfg q u n w = (Err Aggregator.no_provider, w).
Proof.
  intros Hwa How Hc.
  unfold Aggregator.getForecast, Aggregator.fetchForecast,
    Aggregator.forecastCache_get, bind, ret, throw. cbv zeta.
  rewrite Hc, cache_get_nil, Hwa, How, <- Hc, world_eta. reflexivity.
Qed.

Lemma getHistorical_without_wa q d w :
  truthy_str (weatherApiKey cfg) = false ->
  historicalCache w = [] ->
  Aggregator.getHistorical rt cfg q d w = (Err Aggregator.no_historical, w).
Proof.
  intros Hwa Hc.
  unfold Aggregator.getHistorical, Aggregator.fetchHistorical,
    Aggregator.historicalCache_get, bind, ret, throw. cbv zeta.
  rewrite Hc, cache_get_nil, Hwa, <- Hc, world_eta. reflexivity.
Qed.

(** Without any key the current and forecast caches stay empty; without
    the WeatherAPI key the historical cache stays empty. *)
Lemma reachable_unconfigured w :
  reachable rt cfg w ->
  truthy_str (weatherApiKey cfg) = false ->
  truthy_str (openWeatherApiKey cfg) = false ->
  currentCache w = [] /\ forecastCache w = [].
Proof.
  intros Hr Hwa How.
  induction Hr as [t|w q u Hr [IH1 IH2]|w q u n Hr [IH1 IH2]
                  |w q d Hr [IH1 IH2]|w w' Hr [IH1 IH2] (S1 & S2 & S3)].
  - split; reflexivity.
  - rewrite getCurrentWeather_unconfigured by assumption. auto.
  - rewrite getForecast_unconfigured by assumption. auto.
  - destruct (getHistorical_others q d w) as [E1 E2].
    unfold same_on in *. split; congruence.
  - unfold same_on in *. split; congruence.
Qed.

Lemma reachable_without_wa w :
  reachable rt cfg w ->
  truthy_str (weatherApiKey cfg) = false ->
  historicalCache w = [].
Proof.
  intros Hr Hwa.
  induction Hr as [t|w q u Hr IH|w q u n Hr IH|w q d Hr IH|w w' Hr IH (S1 & S2 & S3)].
  - reflexivity.
  - destruct (getCurrentWeather_others q u w) as [_ E]. unfold same_on in E. congruence.
  - destruct (getForecast_others q u n w) as [_ E]. unfold same_on in E. congruence.
  - rewrite getHistorical_without_wa by assumption. exact IH.
  - unfold same_on in *. congruence.
Qed.
End CacheContents.

(** ** The terminal failure *)

(** C5, as the code has it.  With no provider configured [getCurrentWeather]
    fails with the terminal error and makes no request: the world is left
    as it was.  The terminal error is one fixed error: [getCurrentWeather]
    fails with the very same error when WeatherAPI is configured and failed
    this call while OpenWeather is not configured, so the error does not
    tell the two cases apart. *)
Theorem no_provider_error_is_one_fixed_error
    (rt : Runtime) (cfg : Config) (q : LocationQuery) (u : option Units)
    (w : World) :
  (truthy_str (weatherApiKey cfg) = false ->
   truthy_str (openWeatherApiKey cfg) = false ->
   reachable rt cfg w ->
   Aggregator.getCurrentWeather rt cfg q u w = (Err Aggregator.no_provider, w)) /\
  (forall w0 e w1,
     truthy_str (weatherApiKey cfg) = true ->
     truthy_str (openWeatherApiKey cfg) = false ->
     Aggregator.currentCache_get cfg (current_key rt cfg q u) w = (Ok None, w0) ->
     wa.getCurrent rt cfg q w0 = (Err e, w1) ->
     Aggregator.getCurrentWeather rt cfg q u w
     = (Err Aggregator.no_provider,
        (console_warn "WeatherAPI current failed, falling back to OpenWeather:"
                      (message e) w1).2)).
Proof.
  split.
  - intros Hwa How Hr. apply getCurrentWeather_unconfigured; try assumption.
    apply (reachable_unconfigured rt cfg w Hr Hwa How).
  - intros w0 e w1 Hwa How Hmiss Hfail.
    rewrite getCurrentWeather_unfold. cbv zeta. rewrite Hmiss.
    rewrite (fetchCurrent_wa_failed rt cfg q _ w0 e w1 Hwa Hfail).
    unfold after_wa_current_failure, bind. simpl. rewrite How. reflexivity.
Qed.

Lemma no_provider_error_is_one_fixed_error_witness :
  let w := initial_world 0 in
  Aggregator.getCurrentWeather offline no_keys oslo None w
    = (Err Aggregator.no_provider, w) /\
  (Aggregator.getCurrentWeather offline wa_only oslo None w).1
    = Err Aggregator.no_provider.
Proof.
  intros w. split.
  - apply (no_provider_error_is_one_fixed_error offline no_keys oslo None w);
      [reflexivity | reflexivity | apply reach_start].
  - erewrite (proj2 (no_provider_error_is_one_fixed_error
                       offline wa_only oslo None w)
                w (AxiosError "unreachable")
                (wa.getCurrent offline wa_only oslo w).2);
      reflexivity.
Defined.

(** C5 as stated fails in its second half: the caller receives the same
    error whether no provider is configured or the only configured
    provider was called and failed. *)
Lemma no_provider_error_does_not_distinguish :
  let unconfigured :=
    Aggregator.getCurrentWeather offline no_keys oslo None (initial_world 0) in
  let all_failed :=
    Aggregator.getCurrentWeather offline wa_only oslo None (initial_world 0) in
  requests unconfigured.2 = [] /\
  length (requests all_failed.2) = 1%nat /\
  unconfigured.1 = Err Aggregator.no_provider /\
  all_failed.1 = unconfigured.1.
Proof. vm_compute. repeat split. Qed.

(** ** Historical data *)

Lemma bind_tail_unchanged {A B} (m : M A) (k : A -> M B) w :
  (forall a, keeps unchanged (k a)) -> (bind m k w).2 = (m w).2.
Proof.
  intros Hk. unfold bind. destruct (m w) as [[a|e] w1]; [apply Hk|reflexivity].
Qed.

Lemma http_get_requests rt url w :
  requests (http_get rt url w).2 = requests w ++ [GET url].
Proof.
  unfold http_get. destruct (axios_get rt _ _ url) as [[m|d] el]; reflexivity.
Qed.

Section Historical.
Context (rt : Runtime) (cfg : Config).

Lemma wa_getHistorical_requests q d w :
  exists rs, requests (wa.getHistorical rt cfg q d w).2 = requests w ++ rs /\
             history_requests rt cfg q d rs.
Proof.
  unfold wa.getHistorical.
  destruct (wa.resolveQuery rt q) as [qStr|e] eqn:Hq.
  - exists [GET (wa.history_url rt cfg qStr d)]. split; [|right; eauto].
    unfold bind at 1, lift. rewrite bind_tail_unchanged.
    + apply http_get_requests.
    + intros b. keeps_auto.
  - exists []. split; [|left; reflexivity].
    unfold bind, lift. simpl. rewrite app_nil_r. reflexivity.
Qed.

Lemma fetchHistorical_requests q d w :
  exists rs, requests (Aggregator.fetchHistorical rt cfg q d w).2 = requests w ++ rs /\
             history_requests rt cfg q d rs.
Proof.
  unfold Aggregator.fetchHistorical.
  destruct (truthy_str (weatherApiKey cfg)).
  - destruct (wa_getHistorical_requests q d w) as (rs & E & Hrs).
    exists rs. split; [|exact Hrs]. unfold try_catch, bind.
    destruct (wa.getHistorical rt cfg q d w) as [[h|e] w1]; exact E.
  - exists []. split; [|left; reflexivity]. simpl. rewrite app_nil_r. reflexivity.
Qed.

Lemma getHistorical_requests q d w :
  exists rs, requests (Aggregator.getHistorical rt cfg q d w).2 = requests w ++ rs /\
             history_requests rt cfg q d rs.
Proof.
  rewrite getHistorical_unfold. cbv zeta.
  assert (Hget : requests (Aggregator.historicalCache_get cfg
                             (historical_key rt q d) w).2 = requests w).
  { unfold Aggregator.historicalCache_get. destruct (LRUCache.get _ _ _ _).
    reflexivity. }
  destruct (Aggregator.historicalCache_get cfg _ w) as [[[c|]|e] w0]; simpl in Hget.
  - exists []. rewrite app_nil_r. split; [exact Hget | left; reflexivity].
  - destruct (fetchHistorical_requests q d w0) as (rs & E & Hrs).
    exists rs. split; [|exact Hrs]. rewrite <- Hget.
    destruct (Aggregator.fetchHistorical rt cfg q d w0) as [[[h|]|e] w1]; exact E.
  - exists []. rewrite app_nil_r. split; [exact Hget | left; reflexivity].
Qed.
End Historical.

(** C9.  The historical function of the OpenWeather adapter returns
    [null] and does nothing else.  [getHistorical] adds no request but the
    one of the WeatherAPI history endpoint.  When the WeatherAPI key is
    absent it fails with its terminal error and makes no request, and when
    the WeatherAPI call fails it fails with the same terminal error; both
    hold whether or not OpenWeather is configured. *)
Theorem historical_only_from_weatherapi
    (rt : Runtime) (cfg : Config) (q : LocationQuery) (d : string) (w : World) :
  (forall w0, ow.getHistorical w0 = (Ok None, w0)) /\
  (exists rs,
     requests (Aggregator.getHistorical rt cfg q d w).2 = requests w ++ rs /\
     history_requests rt cfg q d rs) /\
  (truthy_str (weatherApiKey cfg) = false ->
   reachable rt cfg w ->
   Aggregator.getHistorical rt cfg q d w = (Err Aggregator.no_historical, w)) /\
  (forall w0 e w1,
     truthy_str (weatherApiKey cfg) = true ->
     Aggregator.historicalCache_get cfg (historical_key rt q d) w = (Ok None, w0) ->
     wa.getHistorical rt cfg q d w0 = (Err e, w1) ->
     Aggregator.getHistorical rt cfg q d w
     = (Err Aggregator.no_historical,
        (console_warn "WeatherAPI historical failed:" (message e) w1).2)).
Proof.
  split; [reflexivity|].
  split; [apply getHistorical_requests|].
  split.
  - intros Hwa Hr. apply getHistorical_without_wa; [exact Hwa|].
    apply (reachable_without_wa rt cfg w Hr Hwa).
  - intros w0 e w1 Hwa Hmiss Hfail.
    rewrite getHistorical_unfold. cbv zeta. rewrite Hmiss.
    rewrite (fetchHistorical_wa_failed rt cfg q d w0 e w1 Hwa Hfail). reflexivity.
Qed.

Lemma historical_only_from_weatherapi_witness :
  let w := initial_world 0 in
  Aggregator.getHistorical upstream_28 ow_only oslo "2024-05-01" w
    = (Err Aggregator.no_historical, w) /\
  (Aggregator.getHistorical wa_down_ow_up both_keys oslo "2024-05-01" w).1
    = Err Aggregator.no_historical.
Proof.
  intros w. split.
  - apply (historical_only_from_weatherapi upstream_28 ow_only oslo "2024-05-01" w);
      [reflexivity | apply reach_start].
  - destruct (historical_only_from_weatherapi wa_down_ow_up both_keys oslo
                "2024-05-01" w) as (_ & _ & _ & H).
    erewrite (H w (AxiosError "Request failed with status code 503")
                (wa.getHistorical wa_down_ow_up both_keys oslo "2024-05-01" w).2);
      reflexivity.
Defined.

(** ** Cache hits *)

Section CacheHits.
Context (rt : Runtime) (cfg : Config).

Lemma currentCache_get_requests key w :
  requests (Aggregator.currentCache_get cfg key w).2 = requests w.
Proof.
  unfold Aggregator.currentCache_get. destruct (LRUCache.get _ _ _ _). reflexivity.
Qed.

Lemma getCurrentWeather_at_most q u : at_most 2 (Aggregator.getCurrentWeather rt cfg q u).
Proof.
  intros w. rewrite getCurrentWeather_unfold. cbv zeta.
  pose proof (currentCache_get_requests (current_key rt cfg q u) w) as Hget.
  destruct (Aggregator.currentCache_get cfg _ w) as [[[c|]|e] w0]; simpl in Hget;
    try (eapply gets_at_most_mono; [|apply gets_at_most_same_requests, Hget]; lia).
  pose proof (fetchCurrent_at_most rt cfg q (nullish u (defaultUnits cfg)) w0) as Hf.
  destruct Hf as (rs & E & F & L). exists rs. rewrite <- Hget.
  destruct (Aggregator.fetchCurrent rt cfg q _ w0) as [[[d|]|e] w1];
    (split; [exact E|split; assumption]).
Qed.

(** After a successful call the answer sits in the cache under the key of
    the call. *)
Lemma getCurrentWeather_ok_entry q u w d w1 :
  Aggregator.getCurrentWeather rt cfg q u w = (Ok d, w1) ->
  exists e, LRUCache.find (current_key rt cfg q u) (currentCache w1) = Some e /\
            ce_value e = d.
Proof.
  rewrite getCurrentWeather_unfold. cbv zeta.
  unfold Aggregator.currentCache_get at 1.
  destruct (LRUCache.get _ _ _ _) as [[c|] c'] eqn:G.
  - intros H. injection H as <- <-. cbn [snd currentCache].
    apply cache_get_hit in G as (e & Hf & Hv & _ & ->).
    exists e. split; [|exact Hv].
    apply cache_find_head. eapply cache_find_key, Hf.
  - destruct (Aggregator.fetchCurrent rt cfg q _ _) as [[[d'|]|e] w'];
      [|discriminate..].
    intros H. injection H as <- <-.
    unfold Aggregator.currentCache_set. cbn [snd currentCache].
    eexists. split; [apply cache_find_set|]. reflexivity.
Qed.

(** After a call that missed the cache and succeeded, the entry was
    inserted at the time the call ended. *)
Lemma getCurrentWeather_miss_entry q u w w0 d w1 :
  Aggregator.currentCache_get cfg (current_key rt cfg q u) w = (Ok None, w0) ->
  Aggregator.getCurrentWeather rt cfg q u w = (Ok d, w1) ->
  LRUCache.find (current_key rt cfg q u) (currentCache w1)
  = Some {| ce_key := current_key rt cfg q u; ce_value := d;
            ce_insertedAt := now w1 |}.
Proof.
  intros Hmiss. rewrite getCurrentWeather_unfold. cbv zeta. rewrite Hmiss.
  destruct (Aggregator.fetchCurrent rt cfg q _ _) as [[[d'|]|e] w'];
    [|discriminate..].
  intros H. injection H as <- <-.
  unfold Aggregator.currentCache_set. cbn [snd currentCache now].
  apply cache_find_set.
Qed.

Lemma getCurrentWeather_hit q u w e :
  LRUCache.find (current_key rt cfg q u) (currentCache w) = Some e ->
  now w - ce_insertedAt e <= Aggregator.current_ttl cfg ->
  (Aggregator.getCurrentWeather rt cfg q u w).1 = Ok (ce_value e) /\
  requests (Aggregator.getCurrentWeather rt cfg q u w).2 = requests w /\
  console (Aggregator.getCurrentWeather rt cfg q u w).2 = console w.
Proof.
  intros Hf Hage. rewrite getCurrentWeather_unfold. cbv zeta.
  unfold Aggregator.currentCache_get.
  rewrite (cache_get_live _ _ _ _ e Hf); [repeat split|].
  unfold LRUCache.expired. apply Z.ltb_ge. exact Hage.
Qed.
End CacheHits.

(** C4, as the code has it.  After a successful [getCurrentWeather], a
    second call with the same arguments, made while the entry cached under
    their key has not expired, returns the same record and makes no
    request.  The requests of the two calls together are those of the
    first call: at most two, all GET.  When the first call missed the
    cache, its entry dates from the end of that call. *)
Theorem second_getCurrent_is_served_from_cache
    (rt : Runtime) (cfg : Config) (q : LocationQuery) (u : option Units)
    (w : World) (d : CurrentWeather) (w1 : World) (delta : Z) :
  Aggregator.getCurrentWeather rt cfg q u w = (Ok d, w1) ->
  (forall e,
     LRUCache.find (current_key rt cfg q u) (currentCache w1) = Some e ->
     now w1 + delta - ce_insertedAt e <= Aggregator.current_ttl cfg) ->
  let second := Aggregator.getCurrentWeather rt cfg q u (tick delta w1) in
  second.1 = Ok d /\
  requests second.2 = requests w1 /\
  gets_at_most 2 w w1 /\
  (forall w0,
     Aggregator.currentCache_get cfg (current_key rt cfg q u) w = (Ok None, w0) ->
     exists e, LRUCache.find (current_key rt cfg q u) (currentCache w1) = Some e /\
               ce_insertedAt e = now w1).
Proof.
  intros Hfirst Hlive second. subst second.
  destruct (getCurrentWeather_ok_entry rt cfg q u w d w1 Hfirst) as (e & Hf & <-).
  destruct (getCurrentWeather_hit rt cfg q u (tick delta w1) e Hf (Hlive e Hf))
    as (H1 & H2 & _).
  split; [exact H1|]. split; [exact H2|]. split.
  - pose proof (getCurrentWeather_at_most rt cfg q u w) as H.
    rewrite Hfirst in H. exact H.
  - intros w0 Hmiss. eexists. split;
      [apply (getCurrentWeather_miss_entry rt cfg q u w w0 _ w1 Hmiss Hfirst)|].
    reflexivity.
Qed.

Lemma second_getCurrent_is_served_from_cache_witness :
  let w := initial_world 1700000000000 in
  let first := Aggregator.getCurrentWeather upstream_28 ow_only oslo None w in
  let second :=
    Aggregator.getCurrentWeather upstream_28 ow_only oslo None
      (tick 599000 first.2) in
  second.1 = first.1 /\ requests second.2 = requests first.2.
Proof.
  intros w first second.
  destruct (ok_inv first eq_refl) as [d Hd].
  destruct (second_getCurrent_is_served_from_cache upstream_28 ow_only oslo None
              w d first.2 599000 Hd) as (H1 & H2 & _).
  - intros e He. vm_compute in He. injection He as <-. vm_compute. discriminate.
  - split; [|exact H2]. change (second.1 = first.1). rewrite Hd. exact H1.
Defined.

(** C4 as stated fails in its count: when WeatherAPI fails and OpenWeather
    answers, the first call alone makes two upstream calls. *)
Lemma fallback_costs_two_upstream_calls :
  let w := initial_world 1700000000000 in
  let first := Aggregator.getCurrentWeather wa_down_ow_up both_keys oslo None w in
  let second :=
    Aggregator.getCurrentWeather wa_down_ow_up both_keys oslo None
      (tick 1000 first.2) in
  is_ok first.1 = true /\ second.1 = first.1 /\
  length (requests second.2) = 2%nat.
Proof. vm_compute. repeat split. Qed.

(** ** Fallback to the second provider *)

Lemma to_fahrenheit_of_celsius units t :
  (ow.to_fahrenheit units t == ow.to_celsius units t * (9 / 5) + 32)%Q.
Proof. destruct units; simpl; [reflexivity | field]. Qed.

(** What a successful [getCurrent] of the OpenWeather adapter returns is
    tagged with that provider and carries the temperature in both units. *)
Lemma ow_getCurrent_normalized rt cfg q u w d w' :
  ow.getCurrent rt cfg q u w = (Ok d, w') ->
  provider d = "openweather" /\
  (temperatureF d == temperatureC d * (9 / 5) + 32)%Q.
Proof.
  unfold ow.getCurrent, bind, lift, required, ret, throw. cbv zeta.
  intros H.
  repeat match type of H with
         | context [match ?x with _ => _ end] => destruct x eqn:?
         end; simplify_eq.
  all: simpl; split; [reflexivity|]; first [reflexivity | field].
Qed.

(** C6.  With both providers configured, when the call misses the cache,
    WeatherAPI fails and OpenWeather then answers, [getCurrentWeather]
    returns the record of OpenWeather: it is tagged ["openweather"], holds
    the temperature in both units, and is stored in the cache; the failure
    of WeatherAPI is only logged. *)
Theorem fallback_returns_second_provider_result
    (rt : Runtime) (cfg : Config) (q : LocationQuery) (u : option Units)
    (w w0 w1 w2 : World) (e : JsError) (d : CurrentWeather) :
  truthy_str (weatherApiKey cfg) = true ->
  truthy_str (openWeatherApiKey cfg) = true ->
  Aggregator.currentCache_get cfg (current_key rt cfg q u) w = (Ok None, w0) ->
  wa.getCurrent rt cfg q w0 = (Err e, w1) ->
  ow.getCurrent rt cfg q (Some (nullish u (defaultUnits cfg)))
    (console_warn "WeatherAPI current failed, falling back to OpenWeather:"
                  (message e) w1).2 = (Ok d, w2) ->
  Aggregator.getCurrentWeather rt cfg q u w
    = (Ok d, (Aggregator.currentCache_set (current_key rt cfg q u) d w2).2) /\
  provider d = "openweather" /\
  (temperatureF d == temperatureC d * (9 / 5) + 32)%Q.
Proof.
  intros Hwa How Hmiss Hfail Hok.
  split; [|eapply ow_getCurrent_normalized, Hok].
  rewrite getCurrentWeather_unfold. cbv zeta. rewrite Hmiss.
  rewrite (fetchCurrent_wa_failed rt cfg q _ w0 e w1 Hwa Hfail).
  unfold after_wa_current_failure. unfold bind at 1.
  cbn [console_warn fst snd]. rewrite How.
  unfold bind. cbn [console_warn snd] in Hok. rewrite Hok. reflexivity.
Qed.

Lemma fallback_returns_second_provider_result_witness :
  let w := initial_world 1700000000000 in
  let r := Aggregator.getCurrentWeather wa_down_ow_up both_keys oslo None w in
  exists d, r.1 = Ok d /\ provider d = "openweather" /\
            (temperatureF d == temperatureC d * (9 / 5) + 32)%Q.
Proof.
  intros w r.
  set (w1 := (wa.getCurrent wa_down_ow_up both_keys oslo w).2).
  set (w1' := (console_warn "WeatherAPI current failed, falling back to OpenWeather:"
                 "Request failed with status code 503" w1).2).
  destruct (ok_inv (ow.getCurrent wa_down_ow_up both_keys oslo (Some metric) w1')
              eq_refl) as [d Hd].
  destruct (fallback_returns_second_provider_result wa_down_ow_up both_keys oslo
              None w w w1 _ (AxiosError "Request failed with status code 503") d
              eq_refl eq_refl eq_refl eq_refl Hd) as (Hr & Hp & Ht).
  exists d. split; [|split; assumption].
  subst r. rewrite Hr. reflexivity.
Defined.

(** ** Forecast bucketing *)

(** *** The order of [sort] on date strings *)

Lemma str_le_cases a b :
  str_le a b <-> String.compare a b = Lt \/ a = b.
Proof.
  unfold str_le, String.leb. split.
  - destruct (String.compare a b) eqn:E;
      [right; apply String.compare_eq_iff, E | left; reflexivity | discriminate].
  - intros [->| ->]; [reflexivity|].
    change (String.compare b b) with (OrderedTypeEx.String_as_OT.cmp b b).
    rewrite (proj2 (OrderedTypeEx.String_as_OT.cmp_eq b b) eq_refl). reflexivity.
Qed.

Lemma str_lt_compare a b : str_lt a b <-> String.compare a b = Lt.
Proof.
  unfold str_lt, String.ltb.
  destruct (String.compare a b); intuition congruence.
Qed.

#[global] Instance str_le_total : Total str_le.
Proof. intros a b. apply String.leb_total. Qed.

#[global] Instance str_le_transitive : Transitive str_le.
Proof.
  intros a b c Hab Hbc. apply str_le_cases in Hab, Hbc. apply str_le_cases.
  destruct Hab as [Hab| ->]; [|exact Hbc].
  destruct Hbc as [Hbc| <-]; [|left; exact Hab].
  left. apply OrderedTypeEx.String_as_OT.cmp_lt.
  eapply OrderedTypeEx.String_as_OT.lt_trans;
    apply OrderedTypeEx.String_as_OT.cmp_lt; eassumption.
Qed.

Lemma str_le_neq_lt a b : str_le a b -> a <> b -> str_lt a b.
Proof.
  intros Hle Hne. apply str_lt_compare. apply str_le_cases in Hle.
  destruct Hle; [assumption | contradiction].
Qed.

Lemma StronglySorted_le_lt (l : list string) :
  StronglySorted str_le l -> NoDup l -> StronglySorted str_lt l.
Proof.
  induction 1 as [|x l Hl IH Hx]; intros Hnd; [constructor|].
  apply NoDup_cons in Hnd as [Hin Hnd].
  constructor; [apply IH, Hnd|].
  rewrite Forall_forall in Hx |- *. intros y Hy.
  apply str_le_neq_lt; [apply Hx, Hy|]. intros ->. apply Hin, Hy.
Qed.

Lemma sort_strings_sorted (l : list string) :
  NoDup l ->
  StronglySorted str_lt (sort_strings l) /\
  forall s, s ∈ sort_strings l <-> s ∈ l.
Proof.
  intros Hnd. unfold sort_strings.
  pose proof (merge_sort_Permutation str_le l) as Hperm.
  split.
  - apply StronglySorted_le_lt; [apply StronglySorted_merge_sort; apply _|].
    rewrite Hperm. exact Hnd.
  - intros s. rewrite Hperm. reflexivity.
Qed.

Lemma slice0_take {A} (n : Z) (l : list A) :
  0 <= n -> slice0 n l = take (Z.to_nat n) l.
Proof. intros Hn. unfold slice0. rewrite (proj2 (Z.leb_le 0 n) Hn). reflexivity. Qed.

(** *** Mean, extrema and rounded percentage *)

Lemma sum_from (l : list Q) (a : Q) : (fold_left Qplus l a == a + total l)%Q.
Proof.
  revert a. induction l as [|x l IH]; intros a; simpl.
  - ring.
  - rewrite IH. ring.
Qed.

Lemma div_length_is_mean (l : list Q) :
  l <> [] -> is_mean l (Some (div_length (JS.sum l) (length l))).
Proof.
  intros Hl. destruct l as [|x l]; [contradiction|].
  eexists. split; [reflexivity|].
  unfold JS.sum. rewrite sum_from.
  set (n := inject_Z (Z.of_nat (length (x :: l)))).
  assert (Hn : ~ (n == 0)%Q).
  { unfold n. intros H. apply (inject_Z_injective _ 0) in H. discriminate. }
  field. exact Hn.
Qed.

Lemma fold_max_spec (l : list Q) (a : Q) :
  (a <= fold_left Qmax l a)%Q /\
  Forall (fun t => (t <= fold_left Qmax l a)%Q) l /\
  ((fold_left Qmax l a == a)%Q \/
   Exists (fun t => (fold_left Qmax l a == t)%Q) l).
Proof.
  revert a. induction l as [|x l IH]; intros a; simpl.
  - split; [apply Qle_refl|]. split; [constructor|]. left. reflexivity.
  - destruct (IH (Qmax a x)) as (H1 & H2 & H3).
    split; [eapply Qle_trans; [apply Q.le_max_l | exact H1]|].
    split; [constructor; [eapply Qle_trans; [apply Q.le_max_r | exact H1]|exact H2]|].
    destruct H3 as [H3|H3]; [|right; apply Exists_cons_tl, H3].
    destruct (Q.max_spec a x) as [[_ Hm]|[_ Hm]].
    + right. apply Exists_cons_hd. rewrite H3. exact Hm.
    + left. rewrite H3. exact Hm.
Qed.

Lemma fold_min_spec (l : list Q) (a : Q) :
  (fold_left Qmin l a <= a)%Q /\
  Forall (fun t => (fold_left Qmin l a <= t)%Q) l /\
  ((fold_left Qmin l a == a)%Q \/
   Exists (fun t => (fold_left Qmin l a == t)%Q) l).
Proof.
  revert a. induction l as [|x l IH]; intros a; simpl.
  - split; [apply Qle_refl|]. split; [constructor|]. left. reflexivity.
  - destruct (IH (Qmin a x)) as (H1 & H2 & H3).
    split; [eapply Qle_trans; [exact H1 | apply Q.le_min_l]|].
    split; [constructor; [eapply Qle_trans; [exact H1 | apply Q.le_min_r]|exact H2]|].
    destruct H3 as [H3|H3]; [|right; apply Exists_cons_tl, H3].
    destruct (Q.min_spec a x) as [[_ Hm]|[_ Hm]].
    + left. rewrite H3. exact Hm.
    + right. apply Exists_cons_hd. rewrite H3. exact Hm.
Qed.

Lemma Math_max_is_max (l : list Q) : l <> [] -> is_max l (Some (Math_max l)).
Proof.
  intros Hl. destruct l as [|x l]; [contradiction|].
  destruct (fold_max_spec l x) as (H1 & H2 & H3).
  eexists. split; [reflexivity|]. split.
  - destruct H3 as [H3|H3]; [apply Exists_cons_hd, H3 | apply Exists_cons_tl, H3].
  - constructor; assumption.
Qed.

Lemma Math_min_is_min (l : list Q) : l <> [] -> is_min l (Some (Math_min l)).
Proof.
  intros Hl. destruct l as [|x l]; [contradiction|].
  destruct (fold_min_spec l x) as (H1 & H2 & H3).
  eexists. split; [reflexivity|]. split.
  - destruct H3 as [H3|H3]; [apply Exists_cons_hd, H3 | apply Exists_cons_tl, H3].
  - constructor; assumption.
Qed.

Lemma Math_round_nearest (x : Q) :
  (x - (1 # 2) < inject_Z (Math_round x))%Q /\
  (inject_Z (Math_round x) <= x + (1 # 2))%Q.
Proof.
  unfold Math_round. split.
  - pose proof (Qlt_floor (x + (1 # 2))) as H.
    set (z := Qfloor (x + (1 # 2))) in *.
    assert (E : (inject_Z (z + 1) == inject_Z z + 1)%Q)
      by (rewrite inject_Z_plus; reflexivity).
    rewrite E in H. lra.
  - apply Qfloor_le.
Qed.

Lemma percentage_nearest (k n : nat) :
  (1 <= n)%nat -> (k <= n)%nat -> Z.of_nat n < 2 ^ 40 ->
  let K := inject_Z (Z.of_nat k) in
  let N := inject_Z (Z.of_nat n) in
  (Qabs (inject_Z (Math_round (Double.mul (Double.div K N) 100))
         - 100 * K / N) <= 1 # 2)%Q.
Proof.
  intros Hn Hk Hbig K N.
  assert (HN : (1 <= N)%Q).
  { unfold N. change 1%Q with (inject_Z 1). rewrite <- Zle_Qle. lia. }
  assert (HK0 : (0 <= K)%Q).
  { unfold K. change 0%Q with (inject_Z 0). rewrite <- Zle_Qle. lia. }
  assert (HKN : (K <= N)%Q).
  { unfold K, N. rewrite <- Zle_Qle. lia. }
  assert (HNbig : (N < 1099511627776)%Q).
  { unfold N. change 1099511627776%Q with (inject_Z (2 ^ 40)).
    rewrite <- Zlt_Qlt. exact Hbig. }
  set (x := (K / N)%Q).
  assert (Hx0 : (0 <= x)%Q).
  { unfold x. apply Qle_shift_div_l; lra. }
  assert (Hx1 : (x <= 1)%Q).
  { unfold x. apply Qle_shift_div_r; lra. }
  unfold Double.mul, Double.div. fold x.
  set (u := (1 # 9007199254740992)%Q).
  pose proof (round_near x 1) as Hr.
  rewrite (Qabs_pos x Hx0) in Hr. specialize (Hr Hx1). fold u in Hr.
  set (r := Double.round x) in *.
  apply Qabs_Qle_condition in Hr as [Hr1 Hr2].
  pose proof (round_near (r * 100) 101) as Hp.
  assert (Hr100 : (Qabs (r * 100) <= 101)%Q).
  { apply Qabs_Qle_condition. unfold u in *. split; lra. }
  specialize (Hp Hr100). fold u in Hp.
  set (p' := Double.round (r * 100)) in *.
  apply Qabs_Qle_condition in Hp as [Hp1 Hp2].
  destruct (Math_round_nearest p') as [Hz1 Hz2].
  set (z := Math_round p') in *.
  set (t := z * Z.of_nat n - 100 * Z.of_nat k).
  assert (Ht : (inject_Z t == (inject_Z z - 100 * x) * N)%Q).
  { unfold t, x, K. unfold Z.sub. rewrite inject_Z_plus, inject_Z_opp, !inject_Z_mult.
    fold N. change (inject_Z 100) with 100%Q. field. lra. }
  assert (Hd : (- ((1 # 2) + 400 * u) <= inject_Z z - 100 * x
                <= (1 # 2) + 400 * u)%Q).
  { unfold u in *. split; lra. }
  assert (HtB : (- (inject_Z (Z.of_nat n) + 1) < 2 * inject_Z t
                 < inject_Z (Z.of_nat n) + 1)%Q).
  { fold N. rewrite Ht. unfold u in *. split; nra. }
  assert (HtZ : - Z.of_nat n <= 2 * t <= Z.of_nat n).
  { destruct HtB as [B1 B2].
    assert (B1' : (inject_Z (- (Z.of_nat n + 1)) < inject_Z (2 * t))%Q).
    { rewrite inject_Z_opp, inject_Z_plus, inject_Z_mult. exact B1. }
    assert (B2' : (inject_Z (2 * t) < inject_Z (Z.of_nat n + 1))%Q).
    { rewrite inject_Z_plus, inject_Z_mult. exact B2. }
    rewrite <- Zlt_Qlt in B1', B2'. lia. }
  assert (HtQ : (- N <= 2 * inject_Z t <= N)%Q).
  { destruct HtZ as [Z1 Z2]. unfold N.
    rewrite Zle_Qle in Z1, Z2.
    rewrite inject_Z_opp, inject_Z_mult in Z1. rewrite inject_Z_mult in Z2.
    split; assumption. }
  assert (E : (100 * K / N == 100 * x)%Q) by (unfold x; field; lra).
  rewrite E. apply Qabs_Qle_condition. rewrite Ht in HtQ.
  split; nra.
Qed.

Lemma chance_is_nearest_percentage k n :
  n <> 0%nat -> (k <= n)%nat -> Z.of_nat n < 2 ^ 40 ->
  is_nearest_percentage k n (ow.chance k n).
Proof.
  intros Hn Hk Hbig. destruct n as [|n]; [contradiction|].
  eexists. split; [reflexivity|].
  apply (percentage_nearest k (S n)); [lia | exact Hk | exact Hbig].
Qed.

(** *** The loop buckets the samples by date *)

Section Bucketing.
Context (rt : Runtime) (units : Units).

Lemma bucket_of_snoc ss it :
  bucket_of units (ss ++ [it]) = extend units (bucket_of units ss) it.
Proof. unfold bucket_of. rewrite fold_left_app. reflexivity. Qed.

Lemma bucket_of_fields ss :
  Forall readable ss ->
  ow.tempsC (bucket_of units ss)
    = List.map (fun it => ow.to_celsius units (sample_temp it)) ss /\
  ow.tempsF (bucket_of units ss)
    = List.map (fun it => ow.to_fahrenheit units (sample_temp it)) ss /\
  ow.totalSlots (bucket_of units ss) = length ss /\
  ow.rainSlots (bucket_of units ss) = length (List.filter rain_flagged ss) /\
  ow.snowSlots (bucket_of units ss) = length (List.filter snow_flagged ss).
Proof.
  induction ss as [|it ss IH] using rev_ind; intros Hr.
  - repeat split.
  - apply Forall_app in Hr as [Hss Hit].
    apply Forall_cons in Hit as [[_ [m Hm]] _].
    destruct (IH Hss) as (E1 & E2 & E3 & E4 & E5).
    rewrite bucket_of_snoc. unfold extend. rewrite Hm.
    unfold ow.push_slot. cbn [ow.tempsC ow.tempsF ow.totalSlots ow.rainSlots
                               ow.snowSlots].
    assert (Ht : sample_temp it = temp m) by (unfold sample_temp; rewrite Hm; reflexivity).
    rewrite E1, E2, E3, E4, E5, !List.map_app, !List.filter_app, !length_app.
    cbn [List.map List.filter]. rewrite Ht.
    split; [reflexivity|]. split; [reflexivity|]. split; [simpl; lia|].
    split.
    + unfold rain_flagged. destruct (truthy_onum (rain3h it)); simpl; lia.
    + unfold snow_flagged. destruct (truthy_onum (snow3h it)); simpl; lia.
Qed.

Lemma samples_on_snoc s seen it :
  samples_on rt s (seen ++ [it])
  = samples_on rt s seen ++ (if on_date rt s it then [it] else []).
Proof.
  unfold samples_on. rewrite List.filter_app. simpl.
  destruct (on_date rt s it); reflexivity.
Qed.

Lemma on_date_iff s it : on_date rt s it = true <-> ow.isoDate_of rt it = Ok s.
Proof.
  unfold on_date. destruct (ow.isoDate_of rt it) as [s'|e].
  - rewrite String.eqb_eq. split; congruence.
  - split; discriminate.
Qed.

Lemma samples_on_nonempty s items :
  samples_on rt s items <> [] <->
  exists it, it ∈ items /\ ow.isoDate_of rt it = Ok s.
Proof.
  unfold samples_on. split.
  - intros Hne. destruct (List.filter (on_date rt s) items) as [|it l] eqn:E;
      [contradiction|].
    assert (Hin : In it (List.filter (on_date rt s) items)) by (rewrite E; left; auto).
    apply filter_In in Hin as [Hin Hon].
    exists it. split; [apply list_elem_of_In, Hin | apply on_date_iff, Hon].
  - intros (it & Hin & Hon) E.
    assert (Hf : In it (List.filter (on_date rt s) items)).
    { apply filter_In. split; [apply list_elem_of_In, Hin | apply on_date_iff, Hon]. }
    rewrite E in Hf. destruct Hf.
Qed.

Lemma add_slot_buckets seen byDate it isoDate m :
  buckets rt units seen byDate ->
  ow.isoDate_of rt it = Ok isoDate -> main it = Some m ->
  buckets rt units (seen ++ [it]) (ow.add_slot units isoDate m it byDate).
Proof.
  intros Hb Hd Hm s. unfold ow.add_slot. cbv zeta.
  rewrite samples_on_snoc.
  destruct (decide (isoDate = s)) as [->|Hne].
  - rewrite lookup_insert_eq, (proj2 (on_date_iff s it) Hd), (Hb s).
    assert (E : forall ss, ss ++ [it] <> [] /\
                bucket_of units (ss ++ [it]) = ow.push_slot units m it (bucket_of units ss)).
    { intros ss. split; [destruct ss; discriminate|].
      rewrite bucket_of_snoc. unfold extend. rewrite Hm. reflexivity. }
    destruct (samples_on rt s seen) as [|x ss].
    + destruct (E []) as [_ Hbk]. cbn [app] in Hbk |- *. rewrite Hbk. reflexivity.
    + destruct (E (x :: ss)) as [Hne Hbk].
      destruct ((x :: ss) ++ [it]) eqn:El; [contradiction|].
      rewrite Hbk. reflexivity.
  - rewrite lookup_insert_ne by assumption.
    assert (Hoff : on_date rt s it = false).
    { destruct (on_date rt s it) eqn:E; [|reflexivity].
      apply on_date_iff in E. congruence. }
    rewrite Hoff, app_nil_r. apply Hb.
Qed.

Lemma readable_isoDate it :
  readable it -> exists s, ow.isoDate_of rt it = Ok s.
Proof.
  intros [Hv _]. unfold ow.isoDate_of, toISOString. rewrite Hv. eauto.
Qed.

Lemma aggregate_buckets items :
  forall seen byDate,
    buckets rt units seen byDate -> Forall readable items ->
    exists byDate',
      ow.aggregate rt units items byDate = Ok byDate' /\
      buckets rt units (seen ++ items) byDate'.
Proof.
  induction items as [|it items IH]; intros seen byDate Hb Hr.
  - exists byDate. rewrite app_nil_r. split; [reflexivity | exact Hb].
  - apply Forall_cons in Hr as [Hit Hr].
    destruct (readable_isoDate it Hit) as [s Hs].
    destruct Hit as [_ [m Hm]].
    cbn [ow.aggregate]. rewrite Hs, Hm.
    destruct (IH (seen ++ [it]) (ow.add_slot units s m it byDate)
                (add_slot_buckets seen byDate it s m Hb Hs Hm) Hr)
      as (byDate' & Hagg & Hb').
    exists byDate'. split; [exact Hagg|].
    rewrite <- app_assoc in Hb'. exact Hb'.
Qed.

Lemma buckets_empty : buckets rt units [] ∅.
Proof. intros s. rewrite lookup_empty. reflexivity. Qed.

Lemma buckets_lookup items byDate s rec :
  buckets rt units items byDate -> byDate !! s = Some rec ->
  samples_on rt s items <> [] /\ rec = bucket_of units (samples_on rt s items).
Proof.
  intros Hb Hl. rewrite (Hb s) in Hl.
  destruct (samples_on rt s items) as [|x ss]; [discriminate|].
  injection Hl as <-. split; [discriminate | reflexivity].
Qed.

Lemma buckets_keys items byDate s :
  buckets rt units items byDate ->
  (is_Some (byDate !! s) <-> exists it, it ∈ items /\ ow.isoDate_of rt it = Ok s).
Proof.
  intros Hb. rewrite <- samples_on_nonempty, (Hb s).
  destruct (samples_on rt s items); split; intros H;
    first [destruct H; discriminate | contradiction | eauto | discriminate].
Qed.

Lemma day_of_summarises items byDate s rec :
  buckets rt units items byDate -> Forall readable items ->
  Z.of_nat (length items) < 2 ^ 32 ->
  byDate !! s = Some rec ->
  summarises units (samples_on rt s items) (ow.day_of s rec).
Proof.
  intros Hb Hr Hsmall Hl.
  destruct (buckets_lookup items byDate s rec Hb Hl) as [Hne ->].
  unfold summarises. cbn [date ow.day_of avgTempC avgTempF maxTempC maxTempF
    minTempC minTempF chanceOfRainPct chanceOfSnowPct].
  assert (Hle : (length (samples_on rt s items) <= length items)%nat)
    by apply List.filter_length_le.
  set (ss := samples_on rt s items) in *.
  assert (Hss : Forall readable ss).
  { unfold ss, samples_on. rewrite Forall_forall in Hr |- *.
    intros it Hin. apply list_elem_of_In, filter_In in Hin as [Hin _].
    apply Hr, list_elem_of_In, Hin. }
  destruct (bucket_of_fields ss Hss) as (E1 & E2 & E3 & E4 & E5).
  rewrite E1, E2, E3, E4, E5.
  assert (Hc : List.map (fun it => ow.to_celsius units (sample_temp it)) ss <> []).
  { destruct ss; [contradiction | discriminate]. }
  assert (Hf : List.map (fun it => ow.to_fahrenheit units (sample_temp it)) ss <> []).
  { destruct ss; [contradiction | discriminate]. }
  assert (Hlen : length ss <> 0%nat) by (destruct ss; [contradiction | discriminate]).
  assert (Hbig : Z.of_nat (length ss) < 2 ^ 40) by lia.
  split; [exact Hne|].
  split; [apply div_length_is_mean, Hc|].
  split; [apply div_length_is_mean, Hf|].
  split; [apply Math_max_is_max, Hc|].
  split; [apply Math_max_is_max, Hf|].
  split; [apply Math_min_is_min, Hc|].
  split; [apply Math_min_is_min, Hf|].
  split; (apply chance_is_nearest_percentage;
          [exact Hlen | apply List.filter_length_le | exact Hbig]).
Qed.

Lemma days_out_all byDate dates :
  (forall s, s ∈ dates -> is_Some (byDate !! s)) ->
  exists ds,
    ow.days_out rt byDate dates = Ok ds /\
    date <$> ds = dates /\
    Forall (fun fd => exists rec, byDate !! date fd = Some rec /\
                                  fd = ow.day_of (date fd) rec) ds.
Proof.
  induction dates as [|s dates IH]; intros Hall.
  - exists []. repeat split. constructor.
  - destruct (Hall s) as [rec Hrec]; [apply list_elem_of_here|].
    destruct IH as (ds & Hds & Hdates & Hfd).
    { intros s' Hs'. apply Hall, list_elem_of_further, Hs'. }
    exists (ow.day_of s rec :: ds). cbn [ow.days_out]. rewrite Hrec, Hds.
    split; [reflexivity|]. split; [rewrite fmap_cons, Hdates; reflexivity|].
    constructor; [exists rec; split; [exact Hrec | reflexivity] | exact Hfd].
Qed.
End Bucketing.

Lemma map_keys_elem {A} (m : gmap string A) (s : string) :
  s ∈ (map_to_list m).*1 <-> is_Some (m !! s).
Proof.
  rewrite list_elem_of_fmap. split.
  - intros ([k a] & -> & Hin). apply elem_of_map_to_list in Hin. simpl. eauto.
  - intros [a Ha]. exists (s, a). split; [reflexivity|].
    apply elem_of_map_to_list, Ha.
Qed.

(** *** The date of a day number

    [Node.civil_from_days] inverts [Calendar.day_number]. *)

Lemma civil_year_of_era (doe : Z) :
  0 <= doe < 146097 ->
  let yoe := (doe - doe / 1460 + doe / 36524 - doe / 146096) / 365 in
  let doy := doe - (365 * yoe + yoe / 4 - yoe / 100) in
  0 <= yoe <= 399 /\ 0 <= doy <= 365 /\
  (doy = 365 -> (yoe + 1) mod 4 = 0 /\ ((yoe + 1) mod 100 <> 0 \/ yoe = 399)).
Proof. intros H. cbv zeta. Z.to_euclidean_division_equations. lia. Qed.

Lemma civil_month_of_year (doy : Z) :
  0 <= doy ->
  let mp := (5 * doy + 2) / 153 in
  0 <= mp /\ (153 * mp + 2) / 5 <= doy < (153 * (mp + 1) + 2) / 5.
Proof. intros H. cbv zeta. Z.to_euclidean_division_equations. lia. Qed.

Lemma leap_year_spec y :
  (Calendar.leap_year y = true /\
   y mod 4 = 0 /\ (y mod 100 <> 0 \/ y mod 400 = 0)) \/
  (Calendar.leap_year y = false /\
   (y mod 4 <> 0 \/ (y mod 100 = 0 /\ y mod 400 <> 0))).
Proof.
  unfold Calendar.leap_year.
  destruct (Z.eqb_spec (y mod 4) 0), (Z.eqb_spec (y mod 100) 0),
    (Z.eqb_spec (y mod 400) 0); simpl; intuition.
Qed.

Lemma year_from_march (era yoe : Z) :
  0 <= yoe <= 399 ->
  Calendar.day_from_year (yoe + era * 400) + 59
    + Calendar.leap_days (yoe + era * 400)
  = era * 146097 + (365 * yoe + yoe / 4 - yoe / 100) - 719468.
Proof.
  intros H. unfold Calendar.day_from_year, Calendar.leap_days.
  destruct (leap_year_spec (yoe + era * 400)) as [(-> & H4 & H100)|(-> & H4)];
    Z.to_euclidean_division_equations; lia.
Qed.

Lemma year_to_february (era yoe : Z) :
  0 <= yoe <= 399 ->
  Calendar.day_from_year (yoe + era * 400 + 1)
  = era * 146097 + (365 * yoe + yoe / 4 - yoe / 100) + 306 - 719468.
Proof.
  intros H. unfold Calendar.day_from_year.
  Z.to_euclidean_division_equations; lia.
Qed.

Lemma days_before_month_table y :
  Calendar.days_before_month y 1 = 0 /\
  Calendar.days_before_month y 2 = 31 /\
  Calendar.days_before_month y 3 = 59 + Calendar.leap_days y /\
  Calendar.days_before_month y 4 = 90 + Calendar.leap_days y /\
  Calendar.days_before_month y 5 = 120 + Calendar.leap_days y /\
  Calendar.days_before_month y 6 = 151 + Calendar.leap_days y /\
  Calendar.days_before_month y 7 = 181 + Calendar.leap_days y /\
  Calendar.days_before_month y 8 = 212 + Calendar.leap_days y /\
  Calendar.days_before_month y 9 = 243 + Calendar.leap_days y /\
  Calendar.days_before_month y 10 = 273 + Calendar.leap_days y /\
  Calendar.days_before_month y 11 = 304 + Calendar.leap_days y /\
  Calendar.days_before_month y 12 = 334 + Calendar.leap_days y.
Proof.
  unfold Calendar.days_before_month, Calendar.days_in_month, Calendar.leap_days.
  destruct (Calendar.leap_year y); vm_compute; repeat split; reflexivity.
Qed.

Lemma civil_from_days_correct (z : Z) :
  let '(y, m, d) := Node.civil_from_days z in
  Calendar.valid_date y m d /\ Calendar.day_number y m d = z.
Proof.
  unfold Node.civil_from_days, Calendar.valid_date. cbv zeta.
  set (era := (z + 719468) / 146097).
  set (doe := z + 719468 - era * 146097).
  assert (Hdoe : 0 <= doe < 146097).
  { unfold doe, era. Z.to_euclidean_division_equations. lia. }
  pose proof (civil_year_of_era doe Hdoe) as H1. cbv zeta in H1.
  set (yoe := (doe - doe / 1460 + doe / 36524 - doe / 146096) / 365) in *.
  set (doy := doe - (365 * yoe + yoe / 4 - yoe / 100)) in *.
  destruct H1 as (Hyoe & Hdoy & Hleap).
  pose proof (civil_month_of_year doy (proj1 Hdoy)) as H2. cbv zeta in H2.
  set (mp := (5 * doy + 2) / 153) in *.
  destruct H2 as (Hmp & Hlo & Hhi).
  pose proof (year_from_march era yoe Hyoe) as Hm.
  pose proof (year_to_february era yoe Hyoe) as Hf.
  pose proof (days_before_month_table (yoe + era * 400)) as T.
  pose proof (days_before_month_table (yoe + era * 400 + 1)) as T'.
  assert (Hz : z = era * 146097 + (365 * yoe + yoe / 4 - yoe / 100) + doy - 719468)
    by (unfold doy, doe; lia).
  assert (Hcase : mp = 0 \/ mp = 1 \/ mp = 2 \/ mp = 3 \/ mp = 4 \/ mp = 5 \/
                  mp = 6 \/ mp = 7 \/ mp = 8 \/ mp = 9 \/ mp = 10 \/ mp = 11).
  { assert (mp <= 11) by (unfold mp; Z.to_euclidean_division_equations; lia). lia. }
  unfold Calendar.day_number, Calendar.days_in_month.
  remember Calendar.days_before_month as dbm eqn:Edbm.
  remember Calendar.day_from_year as dfy eqn:Edfy.
  remember Calendar.leap_days as ld eqn:Eld.
  destruct T as (T1 & T2 & T3 & T4 & T5 & T6 & T7 & T8 & T9 & T10 & T11 & T12).
  destruct T' as (T1' & T2' & _).
  destruct (leap_year_spec (yoe + era * 400 + 1)) as [(L & L4 & L100)|(L & L4)];
  repeat (destruct Hcase as [E|Hcase]); try rename Hcase into E;
    rewrite E in *;
    match type of E with
    | _ = ?k =>
        let lo := eval vm_compute in ((153 * k + 2) / 5) in
        let hi := eval vm_compute in ((153 * (k + 1) + 2) / 5) in
        let m := eval vm_compute in (if k <? 10 then k + 3 else k - 9) in
        let b := eval vm_compute in (m <=? 2) in
        change ((153 * k + 2) / 5) with lo in *;
        change ((153 * (k + 1) + 2) / 5) with hi in *;
        change (if k <? 10 then k + 3 else k - 9) with m in *;
        change (m <=? 2) with b in *
    end;
    cbv beta iota delta [Calendar.month_length]; rewrite ?L;
    (split; [split; [lia|]|lia]).
  all: try lia.
  all: Z.to_euclidean_division_equations; lia.
Qed.

Lemma year_length (y : Z) :
  Calendar.day_from_year (y + 1)
  = Calendar.day_from_year y + 365 + Calendar.leap_days y.
Proof.
  unfold Calendar.day_from_year, Calendar.leap_days.
  destruct (leap_year_spec y) as [(-> & H4 & H100)|(-> & H4)];
    Z.to_euclidean_division_equations; lia.
Qed.

Lemma day_from_year_mono (y y' : Z) :
  y <= y' -> Calendar.day_from_year y <= Calendar.day_from_year y'.
Proof.
  intros H. unfold Calendar.day_from_year.
  Z.to_euclidean_division_equations; lia.
Qed.

Lemma month_cases (m : Z) :
  1 <= m <= 12 ->
  m = 1 \/ m = 2 \/ m = 3 \/ m = 4 \/ m = 5 \/ m = 6 \/
  m = 7 \/ m = 8 \/ m = 9 \/ m = 10 \/ m = 11 \/ m = 12.
Proof. lia. Qed.

Lemma day_of_year_range (y m d : Z) :
  Calendar.valid_date y m d ->
  Calendar.days_before_month y m + Calendar.days_in_month y m
    <= 365 + Calendar.leap_days y /\
  0 <= Calendar.days_before_month y m /\
  Calendar.days_in_month y m <= 31.
Proof.
  intros [Hm Hd].
  pose proof (days_before_month_table y) as
    (T1 & T2 & T3 & T4 & T5 & T6 & T7 & T8 & T9 & T10 & T11 & T12).
  unfold Calendar.days_in_month. unfold Calendar.leap_days in *.
  destruct (month_cases m Hm) as [E|[E|[E|[E|[E|[E|[E|[E|[E|[E|[E|E]]]]]]]]]]];
    subst m; cbn [Calendar.month_length]; destruct (Calendar.leap_year y); lia.
Qed.

Lemma day_number_in_year (y m d : Z) :
  Calendar.valid_date y m d ->
  Calendar.day_from_year y <= Calendar.day_number y m d
    < Calendar.day_from_year (y + 1).
Proof.
  intros Hv. pose proof (day_of_year_range y m d Hv) as (H1 & H2 & _).
  destruct Hv as [_ Hd]. rewrite year_length. unfold Calendar.day_number. lia.
Qed.

(** A day has one date. *)
Lemma day_number_inj (y m d y' m' d' : Z) :
  Calendar.valid_date y m d -> Calendar.valid_date y' m' d' ->
  Calendar.day_number y m d = Calendar.day_number y' m' d' ->
  y = y' /\ m = m' /\ d = d'.
Proof.
  intros Hv Hv' E.
  pose proof (day_number_in_year y m d Hv) as Hy.
  pose proof (day_number_in_year y' m' d' Hv') as Hy'.
  assert (Ey : y = y').
  { destruct (Z.lt_trichotomy y y') as [Hlt|[Heq|Hgt]]; [|exact Heq|].
    - pose proof (day_from_year_mono (y + 1) y' ltac:(lia)). lia.
    - pose proof (day_from_year_mono (y' + 1) y ltac:(lia)). lia. }
  subst y'. split; [reflexivity|].
  unfold Calendar.day_number in E.
  destruct Hv as [Hm Hd], Hv' as [Hm' Hd'].
  pose proof (days_before_month_table y) as
    (T1 & T2 & T3 & T4 & T5 & T6 & T7 & T8 & T9 & T10 & T11 & T12).
  unfold Calendar.days_in_month, Calendar.leap_days in *.
  destruct (month_cases m Hm) as [F|[F|[F|[F|[F|[F|[F|[F|[F|[F|[F|F]]]]]]]]]]];
  destruct (month_cases m' Hm') as [F'|[F'|[F'|[F'|[F'|[F'|[F'|[F'|[F'|[F'|[F'|F']]]]]]]]]]];
    subst m m'; cbn [Calendar.month_length] in Hd, Hd';
    destruct (Calendar.leap_year y); lia.
Qed.

(** The year of a day between 0000-01-01 and 9999-12-31. *)
Lemma four_digit_year (y m d : Z) :
  Calendar.valid_date y m d ->
  -719528 <= Calendar.day_number y m d <= 2932896 ->
  0 <= y <= 9999.
Proof.
  intros Hv Hn. pose proof (day_number_in_year y m d Hv) as Hy.
  assert (E0 : Calendar.day_from_year 0 = -719528) by reflexivity.
  assert (E1 : Calendar.day_from_year 10000 = 2932897) by reflexivity.
  split.
  - destruct (Z_lt_le_dec y 0) as [Hlt|]; [|assumption].
    pose proof (day_from_year_mono (y + 1) 0 ltac:(lia)). lia.
  - destruct (Z_lt_le_dec 9999 y) as [Hlt|]; [|assumption].
    pose proof (day_from_year_mono 10000 y ltac:(lia)). lia.
Qed.

(** *** Decimal digits as the engine prints them *)

Lemma pretty_N_char_digit (x : N) :
  pretty_N_char (x mod 10) = Calendar.digit (Z.of_N x).
Proof.
  unfold Calendar.digit.
  replace (Z.of_N x mod 10) with (Z.of_N (x mod 10))
    by (rewrite N2Z.inj_mod; reflexivity).
  assert (H : (x mod 10 < 10)%N) by (apply N.mod_lt; discriminate).
  destruct (x mod 10)%N as [|p]; [reflexivity|].
  do 4 (destruct p as [p|p|]; try reflexivity; try (exfalso; lia)).
Qed.

Lemma pretty_go_step (z : Z) (s : string) :
  0 < z ->
  pretty_N_go (Z.to_N z) s
  = pretty_N_go (Z.to_N (z / 10)) (String (Calendar.digit z) s).
Proof.
  intros Hz. rewrite pretty_N_go_step by lia.
  rewrite pretty_N_char_digit, Z2N.id by lia.
  rewrite Z2N.inj_div by lia. reflexivity.
Qed.

Lemma pretty_go_zero (z : Z) (s : string) :
  0 <= z < 10 -> pretty_N_go (Z.to_N (z / 10)) s = s.
Proof. intros Hz. rewrite Z.div_small by lia. reflexivity. Qed.

Lemma show_Z_digits (z : Z) :
  0 <= z <= 9999 ->
  Node.show_Z z =
    if z <? 10 then String (Calendar.digit z) EmptyString
    else if z <? 100 then Calendar.two_digits z
    else if z <? 1000 then String (Calendar.digit (z / 100)) (Calendar.two_digits z)
    else Calendar.four_digits z.
Proof.
  intros Hz. unfold Node.show_Z, pretty, pretty_Z.
  destruct z as [|p|p]; [reflexivity| |lia].
  unfold pretty, pretty_positive, pretty, pretty_N.
  destruct (decide (N.pos p = 0%N)) as [E|_]; [discriminate E|].
  change (N.pos p) with (Z.to_N (Z.pos p)).
  set (z := Z.pos p) in *. assert (Hpos : 0 < z) by reflexivity. clearbody z.
  assert (E2 : z / 10 / 10 = z / 100) by (Z.to_euclidean_division_equations; lia).
  assert (E3 : z / 100 / 10 = z / 1000) by (Z.to_euclidean_division_equations; lia).
  unfold Calendar.four_digits, Calendar.two_digits.
  rewrite pretty_go_step by exact Hpos.
  destruct (Z.ltb_spec z 10) as [H1|H1].
  { rewrite pretty_go_zero by lia. reflexivity. }
  rewrite pretty_go_step by (Z.to_euclidean_division_equations; lia).
  rewrite E2.
  destruct (Z.ltb_spec z 100) as [H2|H2].
  { rewrite <- E2, pretty_go_zero by (Z.to_euclidean_division_equations; lia).
    reflexivity. }
  rewrite pretty_go_step by (Z.to_euclidean_division_equations; lia).
  rewrite E3.
  destruct (Z.ltb_spec z 1000) as [H3|H3].
  { rewrite <- E3, pretty_go_zero by (Z.to_euclidean_division_equations; lia).
    reflexivity. }
  rewrite pretty_go_step by (Z.to_euclidean_division_equations; lia).
  rewrite pretty_go_zero by (Z.to_euclidean_division_equations; lia).
  reflexivity.
Qed.

Lemma pad_two_digits (z : Z) :
  0 <= z <= 99 -> Node.pad 2 z = Calendar.two_digits z.
Proof.
  intros H. unfold Node.pad. rewrite show_Z_digits by lia.
  destruct (Z.ltb_spec z 10).
  - simpl. unfold Calendar.two_digits. rewrite Z.div_small by lia. reflexivity.
  - destruct (Z.ltb_spec z 100); [reflexivity | lia].
Qed.

Lemma pad_four_digits (z : Z) :
  0 <= z <= 9999 -> Node.pad 4 z = Calendar.four_digits z.
Proof.
  intros H. unfold Node.pad. rewrite show_Z_digits by lia.
  unfold Calendar.four_digits, Calendar.two_digits.
  destruct (Z.ltb_spec z 10).
  { simpl. rewrite !Z.div_small by lia. reflexivity. }
  destruct (Z.ltb_spec z 100).
  { simpl. rewrite (Z.div_small z 1000), (Z.div_small z 100) by lia. reflexivity. }
  destruct (Z.ltb_spec z 1000).
  { simpl. rewrite (Z.div_small z 1000) by lia. reflexivity. }
  reflexivity.
Qed.

(** *** The adapter's key is the UTC calendar date *)

Lemma iso_string_date (ms y m d : Z) :
  Node.civil_from_days (ms / 86400000) = (y, m, d) ->
  Calendar.valid_date y m d -> 0 <= y <= 9999 ->
  str_slice0_10 (Node.iso_string ms) = Calendar.date_string y m d.
Proof.
  intros Hc Hv Hy. unfold Node.iso_string. rewrite Hc.
  pose proof (day_of_year_range y m d Hv) as (_ & _ & H31).
  destruct Hv as [Hm Hd].
  unfold Node.show_year.
  replace ((0 <=? y) && (y <=? 9999)) with true
    by (symmetry; apply andb_true_intro; split; apply Z.leb_le; lia).
  rewrite pad_four_digits, (pad_two_digits m), (pad_two_digits d) by lia.
  reflexivity.
Qed.

Lemma four_digit_years_valid_time it :
  in_four_digit_years it -> valid_time (dt it * 1000) = true.
Proof.
  unfold in_four_digit_years, valid_time. intros H.
  apply andb_true_intro. split; apply Z.leb_le; lia.
Qed.

Lemma isoDate_is_utc_date (rt : Runtime) (it : OwItem) :
  ecmascript_dates rt -> in_four_digit_years it ->
  exists y m d,
    Calendar.valid_date y m d /\
    Calendar.day_number y m d = dt it / 86400 /\
    ow.isoDate_of rt it = Ok (Calendar.date_string y m d).
Proof.
  intros Hrt Hit.
  pose proof (four_digit_years_valid_time it Hit) as Hvalid.
  assert (Ediv : dt it * 1000 / 86400000 = dt it / 86400)
    by (Z.to_euclidean_division_equations; lia).
  pose proof (civil_from_days_correct (dt it * 1000 / 86400000)) as Hc.
  destruct (Node.civil_from_days (dt it * 1000 / 86400000)) as [[y m] d] eqn:Ec.
  destruct Hc as [Hv Hn]. rewrite Ediv in Hn.
  assert (Hy : 0 <= y <= 9999).
  { apply (four_digit_year y m d Hv). rewrite Hn.
    unfold in_four_digit_years in Hit.
    Z.to_euclidean_division_equations; lia. }
  exists y, m, d. split; [exact Hv|]. split; [exact Hn|].
  unfold ow.isoDate_of, toISOString. rewrite Hvalid, (Hrt _ Hvalid).
  rewrite (iso_string_date _ y m d Ec Hv Hy). reflexivity.
Qed.

Lemma on_date_utc (rt : Runtime) (s : string) (it : OwItem) :
  ecmascript_dates rt -> in_four_digit_years it ->
  (ow.isoDate_of rt it = Ok s <-> utc_date_is (dt it) s).
Proof.
  intros Hrt Hit.
  destruct (isoDate_is_utc_date rt it Hrt Hit) as (y & m & d & Hv & Hn & Hs).
  rewrite Hs. split.
  - intros E. injection E as <-. exists y, m, d. auto.
  - intros (y' & m' & d' & Hv' & Hn' & ->).
    destruct (day_number_inj y m d y' m' d' Hv Hv') as (-> & -> & ->);
      [congruence | reflexivity].
Qed.

Lemma selects_filter {A} (P : A -> Prop) (f : A -> bool) (l : list A) :
  Forall (fun a => f a = true <-> P a) l -> selects P l (List.filter f l).
Proof.
  induction 1 as [|a l Ha _ IH]; [constructor|].
  cbn [List.filter]. destruct (f a) eqn:E.
  - apply selects_keep; [apply Ha; reflexivity | exact IH].
  - apply selects_drop; [|exact IH].
    intros HP. apply Ha in HP. discriminate.
Qed.

(** C2.  When the query resolves and the upstream answers with readable
    samples of the years 0000 to 9999, [getForecast] of the OpenWeather
    adapter succeeds on an engine whose [Date] follows ECMAScript.  A sample
    belongs to the UTC calendar date of its instant: the date [YYYY-MM-DD]
    whose day number in the Gregorian calendar is the number of whole days
    from the epoch to the instant.  The days of the forecast are, in
    ascending order of date, the first [days] of the dates on which some
    sample falls; a date without sample does not appear.  Each day reports
    the arithmetic mean, the maximum and the minimum of the temperatures of
    the samples of its date, in both units, and as chance of rain (resp.
    snow) an integer nearest to the percentage of these samples that carry
    rain (resp. snow).  The percentage is rounded from a product of
    doubles, which decides where it falls half-way between two integers;
    an array holds fewer than [2^32] samples; the requested count is not
    negative. *)
Theorem forecast_buckets_samples_by_utc_date
    (rt : Runtime) (cfg : Config) (q : LocationQuery) (units : option Units)
    (ndays : option Z) (w : World) (params : string) (elapsed : Z)
    (d : OwForecastJson) (items : list OwItem) (cy : OwCity) (c : OwCoord) :
  ecmascript_dates rt ->
  ow.resolveQueryParams rt q = Ok params ->
  axios_get rt (requests w) (now w)
    (ow.forecast_url cfg params (nullish units (defaultUnits cfg)))
    = (HttpOk (OwForecastBody d), elapsed) ->
  ow_list d = Some items ->
  ow_city d = Some cy ->
  city_coord cy = Some c ->
  Forall readable items ->
  Forall in_four_digit_years items ->
  Z.of_nat (length items) < 2 ^ 32 ->
  0 <= nullish ndays 3 ->
  exists fc w' dates,
    ow.getForecast rt cfg q units ndays w = (Ok fc, w') /\
    fc_provider fc = "openweather" /\
    utc_dates_with_samples items dates /\
    date <$> days fc = take (Z.to_nat (nullish ndays 3)) dates /\
    Forall (day_summarises (nullish units (defaultUnits cfg)) items) (days fc).
Proof.
  intros Hrt Hparams Hget Hlist Hcity Hcoord Hread Hyears Hsmall Hn.
  set (u := nullish units (defaultUnits cfg)) in *.
  destruct (aggregate_buckets rt u items [] ∅ (buckets_empty rt u) Hread)
    as (byDate & Hagg & Hb).
  rewrite app_nil_l in Hb.
  set (dates := sort_strings (map_to_list byDate).*1).
  destruct (sort_strings_sorted (map_to_list byDate).*1
              (NoDup_fst_map_to_list byDate)) as [Hsorted Hmem].
  assert (Hkeys : forall s, s ∈ dates <-> is_Some (byDate !! s)).
  { intros s. unfold dates. rewrite Hmem. apply map_keys_elem. }
  destruct (days_out_all rt byDate (take (Z.to_nat (nullish ndays 3)) dates))
    as (ds & Hds & Hdates & Hfd).
  { intros s Hs. apply Hkeys. eapply subseteq_take, Hs. }
  eexists _, _, dates.
  split; [|split; [|split; [|split]]].
  - unfold ow.getForecast. cbv zeta. fold u. rewrite Hparams.
    unfold bind at 1, lift. unfold bind at 1, http_get. rewrite Hget.
    cbn [ow.forecast_body]. rewrite Hlist.
    unfold bind at 1, required, ret. unfold bind at 1, lift. rewrite Hagg.
    unfold bind at 1, lift, ow.sortedDates.
    rewrite slice0_take by exact Hn. fold dates. rewrite Hds.
    unfold bind at 1. rewrite Hcity. unfold bind, ret. rewrite Hcoord.
    reflexivity.
  - reflexivity.
  - split; [exact Hsorted|]. intros s. rewrite Hkeys.
    rewrite (buckets_keys rt u items byDate s Hb).
    rewrite Forall_forall in Hyears.
    split; intros (it & Hin & Hit); exists it; (split; [exact Hin|]);
      apply (on_date_utc rt s it Hrt (Hyears it Hin)), Hit.
  - exact Hdates.
  - cbn [days]. rewrite Forall_forall in Hfd |- *. intros fd Hin.
    destruct (Hfd fd Hin) as (rec & Hrec & Hfd_eq).
    exists (samples_on rt (date fd) items). split.
    + apply selects_filter. rewrite Forall_forall in Hyears |- *.
      intros it Hit. rewrite on_date_iff.
      apply (on_date_utc rt (date fd) it Hrt (Hyears it Hit)).
    + rewrite Hfd_eq at 2.
      apply (day_of_summarises rt u items byDate _ rec Hb Hread Hsmall Hrec).
Qed.

Lemma forecast_buckets_samples_by_utc_date_witness :
  let w := initial_world 0 in
  exists fc w',
    ow.getForecast upstream_two_days ow_only oslo None (Some 3) w = (Ok fc, w') /\
    date <$> days fc = ["1970-01-02"; "1970-01-03"] /\
    chanceOfRainPct <$> days fc = [Some 50%Q; Some 0%Q] /\
    Forall (day_summarises metric two_days) (days fc).
Proof.
  intros w.
  destruct (forecast_buckets_samples_by_utc_date upstream_two_days ow_only oslo
              None (Some 3) w "q=Oslo" 120 two_days_body two_days
              {| city_name := Some "Oslo";
                 city_coord := Some {| coord_lat := 60%Q; coord_lon := 10%Q |};
                 city_country := Some "NO" |}
              {| coord_lat := 60%Q; coord_lon := 10%Q |})
    as (fc & w' & dates & Hget & _ & _ & _ & Hall).
  - intros ms _. reflexivity.
  - reflexivity.
  - reflexivity.
  - reflexivity.
  - reflexivity.
  - reflexivity.
  - repeat constructor; eexists; reflexivity.
  - repeat constructor; unfold in_four_digit_years; simpl; lia.
  - reflexivity.
  - simpl. lia.
  - exists fc, w'. split; [exact Hget|].
    assert (E : (ow.getForecast upstream_two_days ow_only oslo None (Some 3) w).1
                = Ok fc) by (rewrite Hget; reflexivity).
    vm_compute in E. injection E as <-.
    split; [reflexivity|]. split; [reflexivity|]. exact Hall.
Defined.

(** * Further properties of the code *)

(** ** The alert registry *)

Lemma map_has_elem i (l : list WeatherAlert) :
  AlertService.map_has i l = true <-> i ∈ id <$> l.
Proof.
  unfold AlertService.map_has. rewrite existsb_exists. split.
  - intros (x & Hin & Hx). apply String.eqb_eq in Hx. subst i.
    apply list_elem_of_fmap_2, list_elem_of_In, Hin.
  - intros Hin. apply list_elem_of_fmap in Hin as (x & -> & Hin).
    exists x. split; [apply list_elem_of_In, Hin | apply String.eqb_refl].
Qed.

Lemma map_delete_elem i (l : list WeatherAlert) a :
  a ∈ AlertService.map_delete i l <-> a ∈ l /\ id a <> i.
Proof.
  unfold AlertService.map_delete.
  rewrite !list_elem_of_In, filter_In, negb_true_iff, String.eqb_neq.
  reflexivity.
Qed.

Lemma map_delete_absent i (l : list WeatherAlert) :
  i ∉ id <$> l -> AlertService.map_delete i l = l.
Proof.
  induction l as [|x r IH]; intros Hn; [reflexivity|].
  rewrite fmap_cons in Hn. apply not_elem_of_cons in Hn as [Hne Hr].
  cbn [AlertService.map_delete List.filter].
  destruct (String.eqb_spec (id x) i) as [E|E]; [congruence|].
  cbn [negb]. f_equal. apply IH, Hr.
Qed.

Lemma map_delete_sublist i (l : list WeatherAlert) :
  AlertService.map_delete i l `sublist_of` l.
Proof.
  induction l as [|x r IH]; [constructor|].
  cbn [AlertService.map_delete List.filter].
  destruct (negb (String.eqb (id x) i)).
  - apply sublist_skip, IH.
  - apply sublist_cons, IH.
Qed.

Lemma map_set_fresh a (l : list WeatherAlert) :
  id a ∉ id <$> l -> AlertService.map_set a l = l ++ [a].
Proof.
  induction l as [|x r IH]; intros Hn; [reflexivity|].
  rewrite fmap_cons in Hn. apply not_elem_of_cons in Hn as [Hne Hr].
  cbn [AlertService.map_set].
  destruct (String.eqb_spec (id x) (id a)) as [E|E]; [congruence|].
  rewrite IH by assumption. reflexivity.
Qed.

Lemma map_delete_last a (l : list WeatherAlert) :
  id a ∉ id <$> l -> AlertService.map_delete (id a) (l ++ [a]) = l.
Proof.
  intros Hn. unfold AlertService.map_delete.
  rewrite List.filter_app. cbn [List.filter].
  rewrite String.eqb_refl. cbn [negb]. rewrite app_nil_r.
  apply map_delete_absent, Hn.
Qed.

(** X1.  [removeAlert] answers [true] exactly when an alert of that id is
    registered.  Afterwards no alert has the id, the other alerts are
    there as before and in the same order, the scheduler is as it was,
    and removing the id again answers [false] and changes nothing. *)
Theorem removeAlert_removes_exactly_that_id (i : string) (st : AlertService.State) :
  let found := (AlertService.removeAlert i st).1 in
  let st' := (AlertService.removeAlert i st).2 in
  (found = true <-> i ∈ id <$> AlertService.listAlerts st) /\
  (forall a, a ∈ AlertService.listAlerts st' <->
             a ∈ AlertService.listAlerts st /\ id a <> i) /\
  AlertService.listAlerts st' `sublist_of` AlertService.listAlerts st /\
  AlertService.schedulerStarted st' = AlertService.schedulerStarted st /\
  AlertService.intervalHandle st' = AlertService.intervalHandle st /\
  AlertService.removeAlert i st' = (false, st').
Proof.
  cbv zeta.
  cbn [AlertService.removeAlert fst snd AlertService.listAlerts
       AlertService.alerts AlertService.schedulerStarted
       AlertService.intervalHandle].
  split; [apply map_has_elem|].
  split; [intros a; apply map_delete_elem|].
  split; [apply map_delete_sublist|].
  split; [reflexivity|]. split; [reflexivity|].
  assert (Hno : i ∉ id <$> AlertService.map_delete i (AlertService.alerts st)).
  { intros Hin. apply list_elem_of_fmap in Hin as (x & Hx & Hin).
    apply map_delete_elem in Hin as [_ Hne]. congruence. }
  unfold AlertService.removeAlert.
  cbn [AlertService.alerts AlertService.schedulerStarted
       AlertService.intervalHandle AlertService.draws].
  rewrite (map_delete_absent i _ Hno). f_equal.
  destruct (AlertService.map_has i _) eqn:E; [|reflexivity].
  apply map_has_elem in E. contradiction.
Qed.

(** X2.  When the id drawn for it is not in use, [registerAlert] puts the
    new alert last in the listing, under an id and a creation time of the
    service's own, and with the fields it was given; removing that id
    again gives back the listing there was. *)
Theorem registerAlert_appends_and_removeAlert_undoes
    (rt : Runtime) (alert : AlertInput) (st : AlertService.State) (w : World) :
  AlertService.generateId rt st ∉ id <$> AlertService.listAlerts st ->
  let full := (AlertService.registerAlert rt alert st w).1 in
  let st' := (AlertService.registerAlert rt alert st w).2 in
  AlertService.listAlerts st' = AlertService.listAlerts st ++ [full] /\
  createdAt full = Date_toISOString rt (now w) /\
  name full = in_name alert /\
  alert_location full = in_location alert /\
  alert_condition full = in_condition alert /\
  sensitivity full = in_sensitivity alert /\
  (AlertService.removeAlert (id full) st').1 = true /\
  AlertService.listAlerts (AlertService.removeAlert (id full) st').2
    = AlertService.listAlerts st.
Proof.
  intros Hfresh. cbv zeta.
  cbn [AlertService.registerAlert fst snd AlertService.listAlerts
       AlertService.alerts AlertService.removeAlert id createdAt name
       alert_location alert_condition sensitivity] in *.
  set (full := {| id := AlertService.generateId rt st |}).
  assert (Hf : id full ∉ id <$> AlertService.alerts st) by exact Hfresh.
  rewrite (map_set_fresh full _ Hf).
  split; [reflexivity|]. do 5 (split; [reflexivity|]).
  split.
  - apply map_has_elem. rewrite fmap_app. apply elem_of_app. right.
    apply list_elem_of_singleton. reflexivity.
  - apply (map_delete_last full _ Hf).
Qed.

Lemma registerAlert_appends_and_removeAlert_undoes_witness :
  let st := (AlertService.registerAlert offline rain_alert two_alerts
               (initial_world 0)).2 in
  (AlertService.generateId offline two_alerts
     ∉ id <$> AlertService.listAlerts two_alerts) /\
  id <$> AlertService.listAlerts st = ["k3v9x"; "q7m2c"; "id2"] /\
  AlertService.listAlerts (AlertService.removeAlert "id2" st).2
    = AlertService.listAlerts two_alerts.
Proof.
  assert (H : AlertService.generateId offline two_alerts
                ∉ id <$> AlertService.listAlerts two_alerts).
  { vm_compute. intros Hin. repeat (apply elem_of_cons in Hin as [Hin|Hin];
      [discriminate|]). apply elem_of_nil in Hin. exact Hin. }
  pose proof (registerAlert_appends_and_removeAlert_undoes offline rain_alert
                two_alerts (initial_world 0) H) as (Hl & _ & _ & _ & _ & _ & _ & Hr).
  split; [exact H|]. split; [rewrite Hl; reflexivity | exact Hr].
Defined.

(** X3.  [registerAlert] does not look whether the id it draws is in use:
    when it is, the alert registered under that id is replaced where it
    stands.  The listing keeps its ids and their order, and the only
    alert listed under the id is the new one.  (The ids of a registry
    are pairwise distinct: they are the keys of the map.) *)
Theorem registerAlert_replaces_on_id_collision
    (rt : Runtime) (alert : AlertInput) (st : AlertService.State) (w : World) :
  NoDup (id <$> AlertService.listAlerts st) ->
  AlertService.generateId rt st ∈ id <$> AlertService.listAlerts st ->
  let full := (AlertService.registerAlert rt alert st w).1 in
  let st' := (AlertService.registerAlert rt alert st w).2 in
  id <$> AlertService.listAlerts st' = id <$> AlertService.listAlerts st /\
  full ∈ AlertService.listAlerts st' /\
  forall old, old ∈ AlertService.listAlerts st' -> id old = id full -> old = full.
Proof.
  intros Hnd Hin. cbv zeta.
  cbn [AlertService.registerAlert fst snd AlertService.listAlerts
       AlertService.alerts] in *.
  set (full := {| id := AlertService.generateId rt st |}).
  assert (Hk : id full ∈ id <$> AlertService.alerts st) by exact Hin.
  pose proof (map_set_ids_known full _ Hk) as Hids.
  split; [exact Hids|]. split; [apply map_set_elem|].
  intros old Hold Hid.
  apply (NoDup_ids_inj (AlertService.map_set full (AlertService.alerts st)));
    [rewrite Hids; exact Hnd | exact Hold | apply map_set_elem | exact Hid].
Qed.

Lemma registerAlert_replaces_on_id_collision_witness :
  let st := (AlertService.registerAlert stuck_random rain_alert two_alerts
               (initial_world 0)).2 in
  id <$> AlertService.listAlerts st = ["k3v9x"; "q7m2c"] /\
  (fun a => type (alert_condition a)) <$> AlertService.listAlerts st = [rain; wind_above].
Proof.
  assert (Hnd : NoDup (id <$> AlertService.listAlerts two_alerts)).
  { vm_compute. repeat (apply NoDup_cons; split;
      [intros Hin; repeat (apply elem_of_cons in Hin as [Hin|Hin];
         [discriminate|]); apply elem_of_nil in Hin; exact Hin|]).
    apply NoDup_nil. constructor. }
  assert (Hin : AlertService.generateId stuck_random two_alerts
                  ∈ id <$> AlertService.listAlerts two_alerts).
  { vm_compute. apply list_elem_of_here. }
  pose proof (registerAlert_replaces_on_id_collision stuck_random rain_alert
                two_alerts (initial_world 0) Hnd Hin) as (Hids & _ & _).
  split; [rewrite Hids; reflexivity | reflexivity].
Defined.

(** ** The scheduler *)

(** X4.  [startAlertScheduler] arms the timer once: the first call marks
    the scheduler started, with the configured period in milliseconds,
    and logs one line; any later call changes neither the service nor the
    world, until [stopAlertScheduler] has been called.  Neither function
    touches the registered alerts. *)
Theorem startAlertScheduler_arms_once
    (rt : Runtime) (cfg : Config) (st : AlertService.State) (w w2 : World) :
  AlertService.schedulerStarted st = false ->
  let st1 := (AlertService.startAlertScheduler rt cfg st w).1 in
  let w1 := (AlertService.startAlertScheduler rt cfg st w).2 in
  AlertService.schedulerStarted st1 = true /\
  AlertService.intervalHandle st1 = Some (alertPollIntervalSeconds cfg * 1000) /\
  AlertService.listAlerts st1 = AlertService.listAlerts st /\
  length (console w1) = S (length (console w)) /\
  requests w1 = requests w /\
  AlertService.startAlertScheduler rt cfg st1 w2 = (st1, w2) /\
  AlertService.schedulerStarted (AlertService.stopAlertScheduler st1) = false /\
  AlertService.intervalHandle (AlertService.stopAlertScheduler st1) = None /\
  AlertService.listAlerts (AlertService.stopAlertScheduler st1)
    = AlertService.listAlerts st.
Proof.
  intros Hs. cbv zeta. unfold AlertService.startAlertScheduler.
  rewrite Hs.
  cbn [fst snd AlertService.schedulerStarted AlertService.intervalHandle
       AlertService.listAlerts AlertService.alerts console_log console
       requests AlertService.stopAlertScheduler].
  rewrite length_app. cbn [length].
  repeat (split; [first [reflexivity | lia]|]). reflexivity.
Qed.

Lemma startAlertScheduler_arms_once_witness :
  let st1 := (AlertService.startAlertScheduler offline no_keys
                AlertService.initial (initial_world 0)).1 in
  AlertService.intervalHandle st1 = Some 600000 /\
  AlertService.startAlertScheduler offline no_keys st1 (initial_world 5)
    = (st1, initial_world 5).
Proof.
  pose proof (startAlertScheduler_arms_once offline no_keys AlertService.initial
                (initial_world 0) (initial_world 5) eq_refl)
    as (_ & Hi & _ & _ & _ & Hagain & _).
  split; [exact Hi | exact Hagain].
Defined.

(** ** What an evaluation does to the alert *)

Section Stamps.
Context (rt : Runtime) (cfg : Config).

Lemma notify_same_definition a msg p w :
  same_definition a (AlertService.notify rt a msg p w).1.
Proof.
  unfold AlertService.notify, same_definition. destruct a as [i n l c ch u s ca lt].
  cbn [channel webhookUrl].
  destruct ch; [reflexivity|].
  destruct u as [u|]; [destruct (truthy_str u)|]; reflexivity.
Qed.

Lemma notify_with_stamp a s msg p w :
  AlertService.notify rt (with_stamp a s) msg p w = AlertService.notify rt a msg p w.
Proof. reflexivity. Qed.

Lemma notify_if_same_definition b a msg p w a' w' :
  AlertService.notify_if rt b a msg p w = (Ok a', w') -> same_definition a a'.
Proof.
  unfold AlertService.notify_if. destruct b.
  - pose proof (notify_same_definition a msg p w) as H.
    destruct (AlertService.notify rt a msg p w) as [a1 w1].
    intros E. simplify_eq. exact H.
  - intros E. simplify_eq. reflexivity.
Qed.

Lemma evaluateAlert_same_definition a w a' w' :
  AlertService.evaluateAlert rt cfg a w = (Ok a', w') -> same_definition a a'.
Proof.
  unfold AlertService.evaluateAlert, bind, ret. intros H.
  repeat match type of H with
         | context [match ?x with _ => _ end] =>
             lazymatch x with
             | AlertService.notify_if _ _ _ _ _ _ => fail
             | _ => destruct x eqn:?
             end
         end; simplify_eq; try reflexivity;
    eapply notify_if_same_definition; eassumption.
Qed.

Lemma poll_one_same_definition a w :
  same_definition a (AlertService.poll_one rt cfg a w).1.
Proof.
  unfold AlertService.poll_one.
  destruct (AlertService.evaluateAlert rt cfg a w) as [[a'|e] w'] eqn:E;
    [eapply evaluateAlert_same_definition, E | reflexivity].
Qed.

Lemma poll_items_same_definition items w :
  Forall2 same_definition items (AlertService.poll_items rt cfg items w).1.
Proof.
  revert w. induction items as [|a rest IH]; intros w; [constructor|].
  cbn [AlertService.poll_items].
  pose proof (poll_one_same_definition a w) as Ha.
  destruct (AlertService.poll_one rt cfg a w) as [a' w1].
  pose proof (IH w1) as Hr.
  destruct (AlertService.poll_items rt cfg rest w1) as [rest' w2].
  constructor; assumption.
Qed.

Lemma notify_if_with_stamp b a s msg p w :
  (AlertService.notify_if rt b (with_stamp a s) msg p w).2
    = (AlertService.notify_if rt b a msg p w).2 /\
  (b = true ->
   (AlertService.notify_if rt b (with_stamp a s) msg p w).1
     = (AlertService.notify_if rt b a msg p w).1).
Proof.
  unfold AlertService.notify_if. destruct b.
  - rewrite notify_with_stamp.
    destruct (AlertService.notify rt a msg p w). split; reflexivity.
  - split; [reflexivity | discriminate].
Qed.
End Stamps.

(** X5.  A sweep of [pollAlerts] changes nothing of a registered alert but
    its [lastTriggeredAt]: the alerts are the same in number and order,
    each with the id, name, location, condition, channel, webhook URL,
    sensitivity and creation time it had; the scheduler is as it was. *)
Theorem pollAlerts_only_stamps
    (rt : Runtime) (cfg : Config) (st : AlertService.State) (w : World) :
  let st' := (AlertService.pollAlerts rt cfg st w).1 in
  Forall2 same_definition (AlertService.listAlerts st) (AlertService.listAlerts st') /\
  AlertService.schedulerStarted st' = AlertService.schedulerStarted st /\
  AlertService.intervalHandle st' = AlertService.intervalHandle st.
Proof.
  cbv zeta. unfold AlertService.pollAlerts.
  pose proof (poll_items_same_definition rt cfg (AlertService.listAlerts st) w) as H.
  destruct (AlertService.poll_items rt cfg (AlertService.listAlerts st) w)
    as [items w'].
  cbn [fst AlertService.listAlerts AlertService.alerts
       AlertService.schedulerStarted AlertService.intervalHandle] in *.
  split; [exact H|]. split; reflexivity.
Qed.

Ltac compare_stamped rt a s w1 :=
  let Hw := fresh "Hw" in
  let H1 := fresh "H" in
  let H2 := fresh "H" in
  let E1 := fresh "E" in
  let E2 := fresh "E" in
  match goal with
  | |- context [AlertService.notify_if rt ?b (with_stamp a s) ?m ?p w1] =>
      destruct (notify_if_with_stamp rt b a s m p w1) as [Hw _];
      pose proof (notify_if_same_definition rt b a m p w1) as H1;
      pose proof (notify_if_same_definition rt b (with_stamp a s) m p w1) as H2;
      destruct (AlertService.notify_if rt b a m p w1) as [[?|?] ?] eqn:E1;
      destruct (AlertService.notify_if rt b (with_stamp a s) m p w1)
        as [[?|?] ?] eqn:E2
  end;
  cbn [fst snd] in *;
  try (unfold AlertService.notify_if in E1, E2;
       repeat match goal with
              | H : context [if ?b then _ else _] |- _ => destruct b
              | H : context [let '(_, _) := ?x in _] |- _ => destruct x
              end; discriminate);
  split; [exact Hw|];
  specialize (H1 _ _ eq_refl); specialize (H2 _ _ eq_refl);
  unfold same_definition in *; rewrite H2, H1; reflexivity.

(** X6.  The service has no cool-down: an evaluation never reads
    [lastTriggeredAt].  Whatever stamp the alert carries, the evaluation
    makes the same requests, logs and posts the same, and fails with the
    same error or succeeds alike; when it succeeds the two alerts it
    leaves are the same up to the stamp. *)
Theorem evaluateAlert_ignores_lastTriggeredAt
    (rt : Runtime) (cfg : Config) (a : WeatherAlert) (s : option string)
    (w : World) :
  let r := AlertService.evaluateAlert rt cfg a w in
  let r' := AlertService.evaluateAlert rt cfg (with_stamp a s) w in
  r'.2 = r.2 /\
  match r.1, r'.1 with
  | Ok b, Ok b' => same_definition b b'
  | Err e, Err e' => e' = e
  | _, _ => False
  end.
Proof.
  cbv zeta. unfold AlertService.evaluateAlert, bind, ret.
  cbn [with_stamp alert_condition alert_location sensitivity].
  destruct (type (alert_condition a)).
  1: destruct (Aggregator.getForecast rt cfg _ _ _ w) as [[fc|e] w1];
       [|split; reflexivity].
  2-4: destruct (Aggregator.getCurrentWeather rt cfg _ _ w) as [[c|e] w1];
       [|split; reflexivity];
       (destruct (threshold (alert_condition a)) as [t|];
        [|split; reflexivity]).
  all: compare_stamped rt a s w1.
Qed.

(** ** A sweep without providers *)

Section Unconfigured.
Context (rt : Runtime) (cfg : Config).
Hypothesis no_wa : pk_weatherApi (hasProviderKeys cfg) = false.
Hypothesis no_ow : pk_openWeather (hasProviderKeys cfg) = false.

Lemma with_console_nil w : with_console w [] = w.
Proof. unfold with_console. rewrite app_nil_r. apply world_eta. Qed.

Lemma with_console_app w l1 l2 :
  with_console (with_console w l1) l2 = with_console w (l1 ++ l2).
Proof. unfold with_console. cbn. rewrite app_assoc. reflexivity. Qed.

Lemma evaluateAlert_unconfigured a w :
  currentCache w = [] -> forecastCache w = [] ->
  AlertService.evaluateAlert rt cfg a w = (Err Aggregator.no_provider, w).
Proof.
  intros Hc Hf. unfold AlertService.evaluateAlert, bind.
  destruct (type (alert_condition a)).
  - rewrite (getForecast_unconfigured rt cfg _ _ _ w no_wa no_ow Hf). reflexivity.
  - rewrite (getCurrentWeather_unconfigured rt cfg _ _ w no_wa no_ow Hc). reflexivity.
  - rewrite (getCurrentWeather_unconfigured rt cfg _ _ w no_wa no_ow Hc). reflexivity.
  - rewrite (getCurrentWeather_unconfigured rt cfg _ _ w no_wa no_ow Hc). reflexivity.
Qed.

Lemma poll_items_unconfigured items w :
  currentCache w = [] -> forecastCache w = [] ->
  AlertService.poll_items rt cfg items w =
    (items,
     with_console w
       ((fun a => evaluation_failed a Aggregator.no_provider) <$> items)).
Proof.
  revert w. induction items as [|a rest IH]; intros w Hc Hf.
  - cbn. rewrite with_console_nil. reflexivity.
  - cbn [AlertService.poll_items]. unfold AlertService.poll_one.
    rewrite (evaluateAlert_unconfigured a w Hc Hf).
    change (console_warn "Alert evaluation failed:"
              (id a +:+ " " +:+ message Aggregator.no_provider) w).2
      with (with_console w [evaluation_failed a Aggregator.no_provider]).
    rewrite IH by assumption.
    rewrite with_console_app, fmap_cons. reflexivity.
Qed.
End Unconfigured.

(** X7.  With neither provider key set, a sweep of [pollAlerts] stamps no
    alert, makes no request and dispatches nothing: every registered
    alert fails to evaluate, each failure is logged as one warning
    carrying the alert id and the message of the one terminal error, in
    the order of the registry, and the sweep goes on to the next alert. *)
Theorem pollAlerts_without_provider_keys
    (rt : Runtime) (cfg : Config) (st : AlertService.State) (w : World) :
  hasProviderKeys cfg = {| pk_openWeather := false; pk_weatherApi := false |} ->
  reachable rt cfg w ->
  AlertService.pollAlerts rt cfg st w =
    (st, with_console w
           ((fun a => evaluation_failed a Aggregator.no_provider)
              <$> AlertService.listAlerts st)).
Proof.
  intros Hk Hr.
  assert (Hwa : pk_weatherApi (hasProviderKeys cfg) = false) by (rewrite Hk; reflexivity).
  assert (How : pk_openWeather (hasProviderKeys cfg) = false) by (rewrite Hk; reflexivity).
  destruct (reachable_unconfigured rt cfg w Hr Hwa How) as [Hc Hf].
  unfold AlertService.pollAlerts.
  rewrite (poll_items_unconfigured rt cfg Hwa How _ w Hc Hf).
  destruct st. reflexivity.
Qed.

Lemma pollAlerts_without_provider_keys_witness :
  AlertService.pollAlerts offline no_keys two_alerts (initial_world 0) =
    (two_alerts,
     with_console (initial_world 0)
       [ConsoleWarn "Alert evaluation failed:"
          "k3v9x No weather provider available. Please set API keys in .env";
        ConsoleWarn "Alert evaluation failed:"
          "q7m2c No weather provider available. Please set API keys in .env"]).
Proof.
  apply (pollAlerts_without_provider_keys offline no_keys two_alerts
           (initial_world 0) eq_refl (reach_start offline no_keys 0)).
Defined.

(** ** Outcomes and requests of a computation *)

Lemma bind_ok_inv {A B} (m : M A) (k : A -> M B) w b w' :
  bind m k w = (Ok b, w') ->
  exists a w1, m w = (Ok a, w1) /\ k a w1 = (Ok b, w').
Proof.
  unfold bind. destruct (m w) as [[a|e] w1]; [eauto | discriminate].
Qed.

Ltac bind_inv H :=
  repeat (cbv beta zeta in H;
          match type of H with
          | bind _ _ _ = (Ok _, _) =>
              let a := fresh "a" in
              let w := fresh "w" in
              let E := fresh "E" in
              apply bind_ok_inv in H as (a & w & E & H)
          end).

Lemma adapter_requests_ok {A} rt (r : Result string) (url : string -> string)
    (tail : Body -> M A) w s :
  r = Ok s ->
  (forall b, keeps unchanged (tail b)) ->
  requests ((let* s := lift r in let* b := http_get rt (url s) in tail b) w).2
    = requests w ++ [GET (url s)].
Proof.
  intros -> Ht. unfold bind at 1, lift. rewrite bind_tail_unchanged by exact Ht.
  apply http_get_requests.
Qed.

(** ** The aggregator: priority and what is cached *)

Section Priority.
Context (rt : Runtime) (cfg : Config).

Lemma wa_getCurrent_requests q w qStr :
  wa.resolveQuery rt q = Ok qStr ->
  requests (wa.getCurrent rt cfg q w).2
    = requests w ++ [GET (wa.current_url rt cfg qStr)].
Proof.
  intros Hq. unfold wa.getCurrent.
  apply (adapter_requests_ok rt _ (wa.current_url rt cfg)); [exact Hq|].
  intros b. keeps_auto.
Qed.

Lemma wa_getForecast_requests q n w qStr :
  wa.resolveQuery rt q = Ok qStr ->
  requests (wa.getForecast rt cfg q n w).2
    = requests w ++ [GET (wa.forecast_url rt cfg qStr (nullish n 3))].
Proof.
  intros Hq. unfold wa.getForecast. cbv zeta.
  apply (adapter_requests_ok rt _ (fun s => wa.forecast_url rt cfg s (nullish n 3)));
    [exact Hq|].
  intros b. keeps_auto.
Qed.

Lemma ow_getCurrent_requests q u w params :
  ow.resolveQueryParams rt q = Ok params ->
  requests (ow.getCurrent rt cfg q u w).2
    = requests w ++ [GET (ow.current_url cfg params (nullish u (defaultUnits cfg)))].
Proof.
  intros Hq. unfold ow.getCurrent. cbv zeta.
  apply (adapter_requests_ok rt _
           (fun s => ow.current_url cfg s (nullish u (defaultUnits cfg))));
    [exact Hq|].
  intros b. keeps_auto.
Qed.

Lemma ow_getForecast_requests q u n w params :
  ow.resolveQueryParams rt q = Ok params ->
  requests (ow.getForecast rt cfg q u n w).2
    = requests w ++ [GET (ow.forecast_url cfg params (nullish u (defaultUnits cfg)))].
Proof.
  intros Hq. unfold ow.getForecast. cbv zeta.
  apply (adapter_requests_ok rt _
           (fun s => ow.forecast_url cfg s (nullish u (defaultUnits cfg))));
    [exact Hq|].
  intros b. keeps_auto.
Qed.

Lemma wa_getCurrent_provider q w d w' :
  wa.getCurrent rt cfg q w = (Ok d, w') ->
  provider d = "weatherapi" /\
  exists qStr, wa.resolveQuery rt q = Ok qStr /\
               requests w' = requests w ++ [GET (wa.current_url rt cfg qStr)].
Proof.
  intros H. pose proof H as H0. unfold wa.getCurrent in H. bind_inv H.
  unfold ret in H. injection H as <- <-. split; [reflexivity|].
  match goal with
  | E : lift (wa.resolveQuery rt q) _ = (Ok ?s, _) |- _ =>
      exists s; unfold lift in E; injection E as E ?; split; [exact E|];
      rewrite <- (wa_getCurrent_requests q w s E), H0; reflexivity
  end.
Qed.

Lemma cache_find_remove {V} key (c : LRUCache.t V) :
  LRUCache.find key (LRUCache.remove key c) = None.
Proof.
  unfold LRUCache.find, LRUCache.remove.
  induction c as [|e r IH]; [reflexivity|].
  cbn [List.filter]. destruct (String.eqb (ce_key e) key) eqn:E; cbn [negb].
  - exact IH.
  - cbn [List.find]. rewrite E. exact IH.
Qed.

Lemma cache_get_miss {V} ttl t key (c c' : LRUCache.t V) :
  LRUCache.get ttl t key c = (None, c') -> LRUCache.find key c' = None.
Proof.
  unfold LRUCache.get. destruct (LRUCache.find key c) as [e|] eqn:F.
  - destruct (LRUCache.expired ttl t e); [|discriminate].
    intros H. injection H as <-. apply cache_find_remove.
  - intros H. injection H as <-. exact F.
Qed.

Lemma currentCache_get_miss key w w0 :
  Aggregator.currentCache_get cfg key w = (Ok None, w0) ->
  LRUCache.find key (currentCache w0) = None /\ requests w0 = requests w.
Proof.
  unfold Aggregator.currentCache_get.
  destruct (LRUCache.get _ _ _ _) as [[v|] c'] eqn:G; intros H; simplify_eq.
  split; [eapply cache_get_miss, G | reflexivity].
Qed.

Lemma forecastCache_get_miss key w w0 :
  Aggregator.forecastCache_get cfg key w = (Ok None, w0) ->
  LRUCache.find key (forecastCache w0) = None /\ requests w0 = requests w.
Proof.
  unfold Aggregator.forecastCache_get.
  destruct (LRUCache.get _ _ _ _) as [[v|] c'] eqn:G; intros H; simplify_eq.
  split; [eapply cache_get_miss, G | reflexivity].
Qed.

Lemma historicalCache_get_miss key w w0 :
  Aggregator.historicalCache_get cfg key w = (Ok None, w0) ->
  LRUCache.find key (historicalCache w0) = None /\ requests w0 = requests w.
Proof.
  unfold Aggregator.historicalCache_get.
  destruct (LRUCache.get _ _ _ _) as [[v|] c'] eqn:G; intros H; simplify_eq.
  split; [eapply cache_get_miss, G | reflexivity].
Qed.

Lemma getCurrentWeather_failure_uncached q u w :
  is_ok (Aggregator.getCurrentWeather rt cfg q u w).1 = false ->
  LRUCache.find (current_key rt cfg q u)
    (currentCache (Aggregator.getCurrentWeather rt cfg q u w).2) = None.
Proof.
  rewrite getCurrentWeather_unfold. cbv zeta.
  destruct (currentCache_get_ok cfg (current_key rt cfg q u) w) as (o & w0 & E).
  rewrite E. destruct o as [c|]; [discriminate|].
  apply currentCache_get_miss in E as [E _].
  destruct (fetchCurrent_same_caches rt cfg q (nullish u (defaultUnits cfg)) w0)
    as (S1 & _ & _).
  unfold same_on in S1.
  destruct (Aggregator.fetchCurrent rt cfg q _ w0) as [[[d|]|e] w1];
    cbn [fst snd] in *; intros H; try discriminate; rewrite S1; exact E.
Qed.

Lemma getForecast_failure_uncached q u n w :
  is_ok (Aggregator.getForecast rt cfg q u n w).1 = false ->
  LRUCache.find
    (Aggregator.keyOf rt "forecast" q
       (Some (ExtraUnitsDays (nullish u (defaultUnits cfg)) (nullish n 3))))
    (forecastCache (Aggregator.getForecast rt cfg q u n w).2) = None.
Proof.
  rewrite getForecast_unfold. cbv zeta.
  set (key := Aggregator.keyOf rt "forecast" q _).
  destruct (forecastCache_get_ok cfg key w) as (o & w0 & E).
  rewrite E. destruct o as [c|]; [discriminate|].
  apply forecastCache_get_miss in E as [E _].
  destruct (fetchForecast_same_caches rt cfg q (nullish u (defaultUnits cfg))
              (nullish n 3) w0) as (_ & S1 & _).
  unfold same_on in S1.
  destruct (Aggregator.fetchForecast rt cfg q _ _ w0) as [[[d|]|e] w1];
    cbn [fst snd] in *; intros H; try discriminate; rewrite S1; exact E.
Qed.

Lemma getHistorical_failure_uncached q d w :
  is_ok (Aggregator.getHistorical rt cfg q d w).1 = false ->
  LRUCache.find (historical_key rt q d)
    (historicalCache (Aggregator.getHistorical rt cfg q d w).2) = None.
Proof.
  rewrite getHistorical_unfold. cbv zeta.
  destruct (historicalCache_get_ok cfg (historical_key rt q d) w) as (o & w0 & E).
  rewrite E. destruct o as [c|]; [discriminate|].
  apply historicalCache_get_miss in E as [E _].
  destruct (fetchHistorical_same_caches rt cfg q d w0) as (_ & _ & S1).
  unfold same_on in S1.
  destruct (Aggregator.fetchHistorical rt cfg q d w0) as [[[h|]|e] w1];
    cbn [fst snd] in *; intros H; try discriminate; rewrite S1; exact E.
Qed.
End Priority.

(** X8.  WeatherAPI comes first and its answer is final: when its key is
    set and its adapter answers a call that missed the cache,
    [getCurrentWeather] returns that record, tagged ["weatherapi"], and
    stores it under the key of the call; the one request of the call went
    to WeatherAPI, and OpenWeather was not asked, configured or not. *)
Theorem weatherapi_answer_is_final
    (rt : Runtime) (cfg : Config) (q : LocationQuery) (u : option Units)
    (w w0 w1 : World) (d : CurrentWeather) :
  pk_weatherApi (hasProviderKeys cfg) = true ->
  Aggregator.currentCache_get cfg (current_key rt cfg q u) w = (Ok None, w0) ->
  wa.getCurrent rt cfg q w0 = (Ok d, w1) ->
  let r := Aggregator.getCurrentWeather rt cfg q u w in
  r.1 = Ok d /\
  provider d = "weatherapi" /\
  (exists qStr, wa.resolveQuery rt q = Ok qStr /\
     requests r.2 = requests w ++ [GET (wa.current_url rt cfg qStr)]) /\
  LRUCache.find (current_key rt cfg q u) (currentCache r.2)
    = Some {| ce_key := current_key rt cfg q u; ce_value := d;
              ce_insertedAt := now r.2 |}.
Proof.
  intros Hk Hmiss Hwa r.
  assert (Hr : r = (Ok d, (Aggregator.currentCache_set (current_key rt cfg q u) d w1).2)).
  { subst r. rewrite getCurrentWeather_unfold. cbv zeta. rewrite Hmiss.
    unfold Aggregator.fetchCurrent.
    change (truthy_str (weatherApiKey cfg)) with (pk_weatherApi (hasProviderKeys cfg)).
    rewrite Hk. unfold bind at 1. unfold try_catch, bind at 1. rewrite Hwa.
    reflexivity. }
  destruct (wa_getCurrent_provider rt cfg q w0 d w1 Hwa) as (Hp & qStr & Hq & Hreq).
  destruct (currentCache_get_miss cfg (current_key rt cfg q u) w w0 Hmiss) as [_ Hw0].
  rewrite Hr. cbn [fst snd].
  split; [reflexivity|]. split; [exact Hp|]. split.
  - exists qStr. split; [exact Hq|].
    unfold Aggregator.currentCache_set. cbn [snd requests].
    rewrite Hreq, Hw0. reflexivity.
  - unfold Aggregator.currentCache_set. cbn [snd currentCache now].
    apply cache_find_set.
Qed.

Lemma weatherapi_answer_is_final_witness :
  let r := Aggregator.getCurrentWeather wa_answers both_keys oslo None
             (initial_world 1700000000000) in
  (provider <$> match r.1 with Ok d => Some d | Err _ => None end)
    = Some "weatherapi" /\
  length (requests r.2) = 1%nat.
Proof.
  intros r.
  destruct (ok_inv (wa.getCurrent wa_answers both_keys oslo
                      (initial_world 1700000000000)) eq_refl) as [d Hd].
  destruct (weatherapi_answer_is_final wa_answers both_keys oslo None
              (initial_world 1700000000000) (initial_world 1700000000000) _ d
              eq_refl eq_refl Hd) as (Hr & Hp & (qStr & _ & Hreq) & _).
  fold r in Hr, Hreq. rewrite Hr, Hreq. cbn [fmap option_fmap option_map].
  rewrite Hp. split; reflexivity.
Defined.

(** X9.  A failure is never cached: when [getCurrentWeather],
    [getForecast] or [getHistorical] ends in an error, its store holds no
    entry under the key of the call afterwards, so the next call with the
    same arguments asks the providers again. *)
Theorem failed_call_leaves_no_cache_entry
    (rt : Runtime) (cfg : Config) (q : LocationQuery) (u : option Units)
    (n : option Z) (dateISO : string) (w : World) :
  let current := Aggregator.getCurrentWeather rt cfg q u w in
  let forecast := Aggregator.getForecast rt cfg q u n w in
  let historical := Aggregator.getHistorical rt cfg q dateISO w in
  (is_ok current.1 = false ->
   LRUCache.find (current_key rt cfg q u) (currentCache current.2) = None) /\
  (is_ok forecast.1 = false ->
   LRUCache.find
     (Aggregator.keyOf rt "forecast" q
        (Some (ExtraUnitsDays (nullish u (defaultUnits cfg)) (nullish n 3))))
     (forecastCache forecast.2) = None) /\
  (is_ok historical.1 = false ->
   LRUCache.find (historical_key rt q dateISO) (historicalCache historical.2)
     = None).
Proof.
  cbv zeta. split; [|split].
  - apply getCurrentWeather_failure_uncached.
  - apply getForecast_failure_uncached.
  - apply getHistorical_failure_uncached.
Qed.

Lemma failed_call_leaves_no_cache_entry_witness :
  let r := Aggregator.getCurrentWeather offline both_keys oslo None
             (initial_world 0) in
  is_ok r.1 = false /\
  LRUCache.find (current_key offline both_keys oslo None) (currentCache r.2) = None.
Proof.
  intros r. split; [reflexivity|].
  apply (failed_call_leaves_no_cache_entry offline both_keys oslo None None
           EmptyString (initial_world 0)). reflexivity.
Defined.

(** ** The adapters *)

Lemma http_get_ok rt url w b el :
  axios_get rt (requests w) (now w) url = (HttpOk b, el) ->
  http_get rt url w =
    (Ok b, {| now := now w + el; requests := requests w ++ [GET url];
              console := console w; currentCache := currentCache w;
              forecastCache := forecastCache w;
              historicalCache := historicalCache w |}).
Proof. intros H. unfold http_get. rewrite H. reflexivity. Qed.

Lemma http_get_ok_inv rt url w b w' :
  http_get rt url w = (Ok b, w') ->
  exists el, axios_get rt (requests w) (now w) url = (HttpOk b, el) /\
             now w' = now w + el.
Proof.
  unfold http_get. destruct (axios_get rt _ _ url) as [[m|d] el];
    intros H; simplify_eq. eauto.
Qed.

Lemma lift_ok_inv {A} (r : Result A) w a w' :
  lift r w = (Ok a, w') -> r = Ok a /\ w' = w.
Proof. unfold lift. intros H. injection H as -> ->. auto. Qed.

Lemma required_ok_inv {A} rt (o : option A) w a w' :
  required rt o w = (Ok a, w') -> o = Some a /\ w' = w.
Proof.
  unfold required, ret, throw. destruct o; intros H; simplify_eq. auto.
Qed.

(** X10.  Whatever units were asked of the upstream, a record of the
    OpenWeather adapter is consistent across the two unit systems: the
    wind in kph is the wind in mph times 1.60934, the felt temperature in
    Fahrenheit is the one in Celsius times 9/5 plus 32.  It carries no UV
    index, and its condition text is never empty (["Unknown"] stands in
    for a missing description). *)
Theorem ow_getCurrent_units_agree
    (rt : Runtime) (cfg : Config) (q : LocationQuery) (u : option Units)
    (w w' : World) (d : CurrentWeather) :
  ow.getCurrent rt cfg q u w = (Ok d, w') ->
  (exists kph mph, windKph d = Some kph /\ windMph d = Some mph /\
                   (kph == mph * 1.60934)%Q) /\
  (exists c f, feelsLikeC d = Some c /\ feelsLikeF d = Some f /\
               (f == c * (9 / 5) + 32)%Q) /\
  uv d = None /\
  truthy_ostr (text (condition d)) = true.
Proof.
  intros H. unfold ow.getCurrent in H. bind_inv H.
  unfold ret in H. injection H as <- <-.
  cbn [windKph windMph feelsLikeC feelsLikeF uv condition text].
  split; [|split; [|split]].
  - eexists _, _. split; [reflexivity|]. split; [reflexivity|].
    destruct (nullish u (defaultUnits cfg)); field.
  - eexists _, _. split; [reflexivity|]. split; [reflexivity|].
    apply to_fahrenheit_of_celsius.
  - reflexivity.
  - unfold or_str.
    destruct (truthy_ostr (ow_weather0 _ ≫= description)) eqn:Ht;
      [exact Ht | reflexivity].
Qed.

Lemma ow_getCurrent_units_agree_witness :
  let r := ow.getCurrent upstream_28 ow_only oslo (Some imperial)
             (initial_world 0) in
  exists d, r.1 = Ok d /\
    exists kph mph, windKph d = Some kph /\ windMph d = Some mph /\
                    (kph == mph * 1.60934)%Q.
Proof.
  intros r. destruct (ok_inv r eq_refl) as [d Hd].
  exists d. split; [rewrite Hd; reflexivity|].
  apply (ow_getCurrent_units_agree upstream_28 ow_only oslo (Some imperial)
           (initial_world 0) r.2 d Hd).
Defined.

(** X11.  The WeatherAPI adapter relays the days of the upstream as they
    come: whatever count was asked (it only travels in the URL), a
    forecast it returns has one day per upstream day, in the upstream's
    order, neither truncated nor sorted, and no day at all when the body
    has no forecast. *)
Theorem wa_getForecast_relays_upstream_days
    (rt : Runtime) (cfg : Config) (q : LocationQuery) (n : option Z)
    (w w' : World) (fc : Forecast) :
  wa.getForecast rt cfg q n w = (Ok fc, w') ->
  exists qStr b elapsed,
    wa.resolveQuery rt q = Ok qStr /\
    axios_get rt (requests w) (now w)
      (wa.forecast_url rt cfg qStr (nullish n 3)) = (HttpOk b, elapsed) /\
    fc_provider fc = "weatherapi" /\
    date <$> days fc = fd_date <$> nullish (wa_forecastday (wa.body b)) [].
Proof.
  intros H. unfold wa.getForecast in H. bind_inv H.
  unfold ret in H. injection H as <- <-.
  apply lift_ok_inv in E as [Hq ->].
  apply http_get_ok_inv in E0 as (el & Hget & _).
  eexists _, _, el. split; [exact Hq|]. split; [exact Hget|].
  split; [reflexivity|]. cbn [days].
  rewrite <- list_fmap_compose. reflexivity.
Qed.

Lemma wa_getForecast_relays_upstream_days_witness :
  let r := wa.getForecast wa_forecasts wa_only oslo (Some 2) (initial_world 0) in
  exists fc, r.1 = Ok fc /\
    date <$> days fc
      = ["2024-05-01"; "2024-05-02"; "2024-05-05"; "2024-05-04"; "2024-05-03"].
Proof.
  intros r. destruct (ok_inv r eq_refl) as [fc Hfc].
  exists fc. split; [rewrite Hfc; reflexivity|].
  destruct (wa_getForecast_relays_upstream_days wa_forecasts wa_only oslo
              (Some 2) (initial_world 0) r.2 fc Hfc)
    as (qStr & b & el & Hq & Hget & _ & Hd).
  rewrite Hd. vm_compute in Hget. injection Hget as <- _. reflexivity.
Defined.

(** X12.  A history answer of WeatherAPI that names the place but holds
    neither a day nor current conditions is not an error: the adapter
    returns a record reporting 0 degrees in both units, dated with the
    first ten characters of the date asked and observed at the time the
    answer came, all other readings missing. *)
Theorem wa_getHistorical_without_data_reports_zero
    (rt : Runtime) (cfg : Config) (q : LocationQuery) (dateISO : string)
    (w : World) (qStr : string) (b : Body) (elapsed : Z) (l : WaLocation) :
  wa.resolveQuery rt q = Ok qStr ->
  axios_get rt (requests w) (now w) (wa.history_url rt cfg qStr dateISO)
    = (HttpOk b, elapsed) ->
  wa_location (wa.body b) = Some l ->
  wa_forecastday (wa.body b) ≫= head = None ->
  wa_current (wa.body b) = None ->
  exists h w',
    wa.getHistorical rt cfg q dateISO w = (Ok h, w') /\
    hw_date h = str_slice0_10 dateISO /\
    observedAt (hw_current h) = Date_toISOString rt (now w + elapsed) /\
    temperatureC (hw_current h) = 0%Q /\
    temperatureF (hw_current h) = 0%Q /\
    humidity (hw_current h) = None /\
    windKph (hw_current h) = None /\
    text (condition (hw_current h)) = None.
Proof.
  intros Hq Hget Hl Hday Hcur. eexists _, _.
  unfold wa.getHistorical. rewrite Hq. unfold bind at 1, lift.
  unfold bind at 1. rewrite (http_get_ok rt _ w b elapsed Hget).
  cbv zeta. rewrite Hl, Hday, Hcur.
  unfold bind, required, ret, now_toISOString. cbn.
  repeat split.
Qed.

Lemma wa_getHistorical_without_data_reports_zero_witness :
  exists h w',
    wa.getHistorical wa_history_empty wa_only oslo "2024-05-01T12:00:00Z"
      (initial_world 0) = (Ok h, w') /\
    hw_date h = "2024-05-01" /\
    temperatureC (hw_current h) = 0%Q.
Proof.
  destruct (wa_getHistorical_without_data_reports_zero wa_history_empty wa_only
              oslo "2024-05-01T12:00:00Z" (initial_world 0) "Oslo"
              (WaBody wa_no_data) 120
              {| wa_name := "Oslo"; wa_lat := 60%Q; wa_lon := 10%Q;
                 wa_country := Some "Norway" |}
              eq_refl eq_refl eq_refl eq_refl eq_refl)
    as (h & w' & Hr & Hd & _ & Ht & _).
  exists h, w'. split; [exact Hr|]. split; [rewrite Hd; reflexivity | exact Ht].
Defined.

(** *** One unreadable sample *)

Lemma aggregate_unreadable rt units items byDate :
  Exists (fun it => ~ readable it) items ->
  ow.aggregate rt units items byDate = Err (TypeError (type_error_message rt)) \/
  ow.aggregate rt units items byDate = Err (RangeError (range_error_message rt)).
Proof.
  revert byDate. induction items as [|item rest IH]; intros byDate Hex.
  - apply Exists_nil in Hex. destruct Hex.
  - cbn [ow.aggregate]. unfold ow.isoDate_of, toISOString.
    destruct (valid_time (dt item * 1000)) eqn:Hv; [|right; reflexivity].
    destruct (main item) as [m|] eqn:Hm; [|left; reflexivity].
    apply Exists_cons in Hex as [Hbad|Hex].
    + destruct Hbad. split; [exact Hv | rewrite Hm; eauto].
    + apply IH, Hex.
Qed.

Lemma ow_getForecast_aggregate_failed rt cfg q units ndays w params elapsed d
    items e :
  ow.resolveQueryParams rt q = Ok params ->
  axios_get rt (requests w) (now w)
    (ow.forecast_url cfg params (nullish units (defaultUnits cfg)))
    = (HttpOk (OwForecastBody d), elapsed) ->
  ow_list d = Some items ->
  ow.aggregate rt (nullish units (defaultUnits cfg)) items ∅ = Err e ->
  (ow.getForecast rt cfg q units ndays w).1 = Err e.
Proof.
  intros Hq Hget Hlist Hagg.
  unfold ow.getForecast. cbv zeta. rewrite Hq.
  unfold bind at 1, lift. unfold bind at 1.
  rewrite (http_get_ok rt _ w _ elapsed Hget).
  cbn [ow.forecast_body]. rewrite Hlist.
  unfold bind at 1, required, ret. unfold bind at 1.
  rewrite Hagg. reflexivity.
Qed.

(** X13.  The forecast of the OpenWeather adapter is all or nothing: one
    sample the adapter cannot read (a time no [Date] can hold, or no
    [main] object) anywhere in the list makes the whole call fail, with a
    [RangeError] or a [TypeError], after its one request; the readable
    samples are discarded with it. *)
Theorem ow_getForecast_fails_on_one_unreadable_sample
    (rt : Runtime) (cfg : Config) (q : LocationQuery) (units : option Units)
    (ndays : option Z) (w : World) (params : string) (elapsed : Z)
    (d : OwForecastJson) (items : list OwItem) :
  ow.resolveQueryParams rt q = Ok params ->
  axios_get rt (requests w) (now w)
    (ow.forecast_url cfg params (nullish units (defaultUnits cfg)))
    = (HttpOk (OwForecastBody d), elapsed) ->
  ow_list d = Some items ->
  Exists (fun it => ~ readable it) items ->
  let r := ow.getForecast rt cfg q units ndays w in
  (r.1 = Err (TypeError (type_error_message rt)) \/
   r.1 = Err (RangeError (range_error_message rt))) /\
  requests r.2 = requests w
    ++ [GET (ow.forecast_url cfg params (nullish units (defaultUnits cfg)))].
Proof.
  intros Hq Hget Hlist Hbad r. split.
  - destruct (aggregate_unreadable rt (nullish units (defaultUnits cfg)) items ∅ Hbad)
      as [E|E]; [left|right];
      apply (ow_getForecast_aggregate_failed rt cfg q units ndays w params
               elapsed d items _ Hq Hget Hlist E).
  - apply ow_getForecast_requests, Hq.
Qed.

Lemma ow_getForecast_fails_on_one_unreadable_sample_witness :
  let r := ow.getForecast upstream_one_bad_sample ow_only oslo None (Some 3)
             (initial_world 0) in
  r.1 = Err (TypeError "Cannot read properties of undefined") /\
  length (requests r.2) = 1%nat.
Proof.
  intros r.
  destruct (ow_getForecast_fails_on_one_unreadable_sample upstream_one_bad_sample
              ow_only oslo None (Some 3) (initial_world 0) "q=Oslo" 120
              one_bad_sample _ eq_refl eq_refl eq_refl) as [Hr Hreq].
  - apply Exists_app. right. apply Exists_cons_hd.
    intros [_ [m Hm]]. discriminate Hm.
  - fold r in Hr, Hreq. split; [|rewrite Hreq; reflexivity].
    destruct Hr as [Hr|Hr]; [exact Hr|].
    exfalso. revert Hr. vm_compute. discriminate.
Defined.

(** *** A negative count *)

Lemma slice0_negative {A} (n : Z) (l : list A) :
  n < 0 -> slice0 n l = take (length l - Z.to_nat (- n)) l.
Proof.
  intros Hn. unfold slice0.
  destruct (0 <=? n) eqn:E; [apply Z.leb_le in E; lia|].
  f_equal. lia.
Qed.

(** X14.  A negative day count is not refused by the OpenWeather adapter:
    [slice(0, days)] then counts from the end, and the forecast holds all
    the dates with samples, in ascending order, but the last [-days] of
    them. *)
Theorem ow_getForecast_negative_count_drops_last_days
    (rt : Runtime) (cfg : Config) (q : LocationQuery) (units : option Units)
    (ndays : option Z) (w : World) (params : string) (elapsed : Z)
    (d : OwForecastJson) (items : list OwItem) (cy : OwCity) (c : OwCoord) :
  ow.resolveQueryParams rt q = Ok params ->
  axios_get rt (requests w) (now w)
    (ow.forecast_url cfg params (nullish units (defaultUnits cfg)))
    = (HttpOk (OwForecastBody d), elapsed) ->
  ow_list d = Some items ->
  ow_city d = Some cy ->
  city_coord cy = Some c ->
  Forall readable items ->
  nullish ndays 3 < 0 ->
  exists fc w' dates,
    ow.getForecast rt cfg q units ndays w = (Ok fc, w') /\
    dates_with_samples rt items dates /\
    date <$> days fc
      = take (length dates - Z.to_nat (- nullish ndays 3)) dates.
Proof.
  intros Hparams Hget Hlist Hcity Hcoord Hread Hn.
  set (u := nullish units (defaultUnits cfg)) in *.
  destruct (aggregate_buckets rt u items [] ∅ (buckets_empty rt u) Hread)
    as (byDate & Hagg & Hb).
  rewrite app_nil_l in Hb.
  set (dates := sort_strings (map_to_list byDate).*1).
  destruct (sort_strings_sorted (map_to_list byDate).*1
              (NoDup_fst_map_to_list byDate)) as [Hsorted Hmem].
  assert (Hkeys : forall s, s ∈ dates <-> is_Some (byDate !! s)).
  { intros s. unfold dates. rewrite Hmem. apply map_keys_elem. }
  destruct (days_out_all rt byDate
              (take (length dates - Z.to_nat (- nullish ndays 3)) dates))
    as (ds & Hds & Hdates & Hfd).
  { intros s Hs. apply Hkeys. eapply subseteq_take, Hs. }
  eexists _, _, dates.
  split; [|split].
  - unfold ow.getForecast. cbv zeta. fold u. rewrite Hparams.
    unfold bind at 1, lift. unfold bind at 1, http_get. rewrite Hget.
    cbn [ow.forecast_body]. rewrite Hlist.
    unfold bind at 1, required, ret. unfold bind at 1, lift. rewrite Hagg.
    unfold bind at 1, lift, ow.sortedDates.
    rewrite slice0_negative by exact Hn. fold dates. rewrite Hds.
    unfold bind at 1. rewrite Hcity. unfold bind, ret. rewrite Hcoord.
    reflexivity.
  - split; [exact Hsorted|]. intros s. rewrite Hkeys.
    apply (buckets_keys rt u items byDate s Hb).
  - exact Hdates.
Qed.

Lemma ow_getForecast_negative_count_drops_last_days_witness :
  exists fc w',
    ow.getForecast upstream_two_days ow_only oslo None (Some (-1))
      (initial_world 0) = (Ok fc, w') /\
    date <$> days fc = ["1970-01-02"].
Proof.
  destruct (ow_getForecast_negative_count_drops_last_days upstream_two_days
              ow_only oslo None (Some (-1)) (initial_world 0) "q=Oslo" 120
              two_days_body two_days _ _ eq_refl eq_refl eq_refl eq_refl eq_refl)
    as (fc & w' & dates & Hr & _ & Hd).
  - repeat constructor; vm_compute; eauto.
  - reflexivity.
  - exists fc, w'. split; [exact Hr|].
    assert (E : ow.getForecast upstream_two_days ow_only oslo None (Some (-1))
                  (initial_world 0)
                = (Ok fc, w')) by exact Hr.
    vm_compute in E. injection E as <- _. reflexivity.
Defined.

(** ** Where the requests of the aggregator go *)

#[global] Instance contacts_only_preorder P : PreOrder (contacts_only P).
Proof.
  split.
  - intros w. exists []. rewrite app_nil_r. split; [reflexivity | constructor].
  - intros w1 w2 w3 (r1 & E1 & F1) (r2 & E2 & F2). exists (r1 ++ r2).
    rewrite E2, E1, app_assoc. split; [reflexivity | apply Forall_app; auto].
Qed.

Lemma contacts_only_same_requests P w w' :
  requests w' = requests w -> contacts_only P w w'.
Proof.
  intros E. exists []. rewrite app_nil_r. split; [exact E | constructor].
Qed.

Lemma adapter_contacts {A} rt P (r : Result string) (url : string -> string)
    (tail : Body -> M A) :
  (forall s, P (GET (url s))) ->
  (forall b, keeps unchanged (tail b)) ->
  keeps (contacts_only P)
    (let* s := lift r in let* b := http_get rt (url s) in tail b).
Proof.
  intros HP Ht w. destruct r as [s|e].
  - exists [GET (url s)]. split.
    + apply (adapter_requests_ok rt (Ok s) url tail w s eq_refl Ht).
    + repeat constructor. apply HP.
  - apply contacts_only_same_requests. reflexivity.
Qed.

Section Hosts.
Context (rt : Runtime) (cfg : Config).

Lemma console_warn_contacts label detail :
  keeps (contacts_only (to_configured_provider cfg)) (console_warn label detail).
Proof. intros w. apply contacts_only_same_requests. reflexivity. Qed.

Lemma wa_getCurrent_contacts q :
  pk_weatherApi (hasProviderKeys cfg) = true ->
  keeps (contacts_only (to_configured_provider cfg)) (wa.getCurrent rt cfg q).
Proof.
  intros Hk. unfold wa.getCurrent.
  apply (adapter_contacts rt (to_configured_provider cfg) _ (wa.current_url rt cfg)).
  - intros s. left. split; [exact Hk | reflexivity].
  - intros b. keeps_auto.
Qed.

Lemma wa_getForecast_contacts q n :
  pk_weatherApi (hasProviderKeys cfg) = true ->
  keeps (contacts_only (to_configured_provider cfg)) (wa.getForecast rt cfg q n).
Proof.
  intros Hk. unfold wa.getForecast. cbv zeta.
  apply (adapter_contacts rt (to_configured_provider cfg) _ (fun s => wa.forecast_url rt cfg s (nullish n 3))).
  - intros s. left. split; [exact Hk | reflexivity].
  - intros b. keeps_auto.
Qed.

Lemma wa_getHistorical_contacts q d :
  pk_weatherApi (hasProviderKeys cfg) = true ->
  keeps (contacts_only (to_configured_provider cfg)) (wa.getHistorical rt cfg q d).
Proof.
  intros Hk. unfold wa.getHistorical.
  apply (adapter_contacts rt (to_configured_provider cfg) _ (fun s => wa.history_url rt cfg s d)).
  - intros s. left. split; [exact Hk | reflexivity].
  - intros b. keeps_auto.
Qed.

Lemma ow_getCurrent_contacts q u :
  pk_openWeather (hasProviderKeys cfg) = true ->
  keeps (contacts_only (to_configured_provider cfg)) (ow.getCurrent rt cfg q u).
Proof.
  intros Hk. unfold ow.getCurrent. cbv zeta.
  apply (adapter_contacts rt (to_configured_provider cfg) _
           (fun s => ow.current_url cfg s (nullish u (defaultUnits cfg)))).
  - intros s. right. split; [exact Hk | reflexivity].
  - intros b. keeps_auto.
Qed.

Lemma ow_getForecast_contacts q u n :
  pk_openWeather (hasProviderKeys cfg) = true ->
  keeps (contacts_only (to_configured_provider cfg)) (ow.getForecast rt cfg q u n).
Proof.
  intros Hk. unfold ow.getForecast. cbv zeta.
  apply (adapter_contacts rt (to_configured_provider cfg) _
           (fun s => ow.forecast_url cfg s (nullish u (defaultUnits cfg)))).
  - intros s. right. split; [exact Hk | reflexivity].
  - intros b. keeps_auto.
Qed.

Lemma fetchCurrent_contacts q u :
  keeps (contacts_only (to_configured_provider cfg)) (Aggregator.fetchCurrent rt cfg q u).
Proof.
  unfold Aggregator.fetchCurrent.
  apply keeps_bind; [apply _ | | intros [d|]].
  - destruct (truthy_str (weatherApiKey cfg)) eqn:Hk;
      [|apply keeps_ret; apply _].
    apply keeps_try_catch; [apply _ | | intros e].
    + apply keeps_bind; [apply _ | apply wa_getCurrent_contacts, Hk | intros d].
      apply keeps_ret; apply _.
    + apply keeps_bind; [apply _ | apply console_warn_contacts | intros _].
      apply keeps_ret; apply _.
  - apply keeps_ret; apply _.
  - destruct (truthy_str (openWeatherApiKey cfg)) eqn:Hk;
      [|apply keeps_ret; apply _].
    apply keeps_bind; [apply _ | apply ow_getCurrent_contacts, Hk | intros d].
    apply keeps_ret; apply _.
Qed.

Lemma fetchForecast_contacts q u n :
  keeps (contacts_only (to_configured_provider cfg)) (Aggregator.fetchForecast rt cfg q u n).
Proof.
  unfold Aggregator.fetchForecast.
  apply keeps_bind; [apply _ | | intros [d|]].
  - destruct (truthy_str (weatherApiKey cfg)) eqn:Hk;
      [|apply keeps_ret; apply _].
    apply keeps_try_catch; [apply _ | | intros e].
    + apply keeps_bind; [apply _ | apply wa_getForecast_contacts, Hk | intros d].
      apply keeps_ret; apply _.
    + apply keeps_bind; [apply _ | apply console_warn_contacts | intros _].
      apply keeps_ret; apply _.
  - apply keeps_ret; apply _.
  - destruct (truthy_str (openWeatherApiKey cfg)) eqn:Hk;
      [|apply keeps_ret; apply _].
    apply keeps_bind; [apply _ | apply ow_getForecast_contacts, Hk | intros d].
    apply keeps_ret; apply _.
Qed.

Lemma fetchHistorical_contacts q d :
  keeps (contacts_only (to_configured_provider cfg)) (Aggregator.fetchHistorical rt cfg q d).
Proof.
  unfold Aggregator.fetchHistorical.
  destruct (truthy_str (weatherApiKey cfg)) eqn:Hk;
    [|apply keeps_ret; apply _].
  apply keeps_try_catch; [apply _ | | intros e].
  - apply keeps_bind; [apply _ | apply wa_getHistorical_contacts, Hk | intros h].
    apply keeps_ret; apply _.
  - apply keeps_bind; [apply _ | apply console_warn_contacts | intros _].
    apply keeps_ret; apply _.
Qed.

Lemma getCurrentWeather_contacts q u :
  keeps (contacts_only (to_configured_provider cfg)) (Aggregator.getCurrentWeather rt cfg q u).
Proof.
  unfold Aggregator.getCurrentWeather. cbv zeta.
  apply keeps_bind; [apply _ | | intros [c|]].
  - intros w. apply contacts_only_same_requests, currentCache_get_requests.
  - apply keeps_ret; apply _.
  - apply keeps_bind; [apply _ | apply fetchCurrent_contacts | intros [d|]].
    + apply keeps_bind; [apply _ | | intros _; apply keeps_ret; apply _].
      intros w. apply contacts_only_same_requests. reflexivity.
    + apply keeps_throw; apply _.
Qed.

Lemma getForecast_contacts q u n :
  keeps (contacts_only (to_configured_provider cfg)) (Aggregator.getForecast rt cfg q u n).
Proof.
  unfold Aggregator.getForecast. cbv zeta.
  apply keeps_bind; [apply _ | | intros [c|]].
  - intros w. apply contacts_only_same_requests.
    unfold Aggregator.forecastCache_get. destruct (LRUCache.get _ _ _ _).
    reflexivity.
  - apply keeps_ret; apply _.
  - apply keeps_bind; [apply _ | apply fetchForecast_contacts | intros [d|]].
    + apply keeps_bind; [apply _ | | intros _; apply keeps_ret; apply _].
      intros w. apply contacts_only_same_requests. reflexivity.
    + apply keeps_throw; apply _.
Qed.

Lemma getHistorical_contacts q d :
  keeps (contacts_only (to_configured_provider cfg)) (Aggregator.getHistorical rt cfg q d).
Proof.
  unfold Aggregator.getHistorical. cbv zeta.
  apply keeps_bind; [apply _ | | intros [c|]].
  - intros w. apply contacts_only_same_requests.
    unfold Aggregator.historicalCache_get. destruct (LRUCache.get _ _ _ _).
    reflexivity.
  - apply keeps_ret; apply _.
  - apply keeps_bind; [apply _ | apply fetchHistorical_contacts | intros [h|]].
    + apply keeps_bind; [apply _ | | intros _; apply keeps_ret; apply _].
      intros w. apply contacts_only_same_requests. reflexivity.
    + apply keeps_throw; apply _.
Qed.
End Hosts.

(** X15.  The aggregator only talks to providers that are configured:
    every request that [getCurrentWeather], [getForecast] or
    [getHistorical] makes, whatever its outcome, is a GET to
    api.weatherapi.com with the WeatherAPI key set, or a GET to
    api.openweathermap.org with the OpenWeather key set, as
    [hasProviderKeys] reports them. *)
Theorem aggregator_contacts_only_configured_providers
    (rt : Runtime) (cfg : Config) (q : LocationQuery) (u : option Units)
    (n : option Z) (dateISO : string) (w : World) :
  contacts_only (to_configured_provider cfg) w
    (Aggregator.getCurrentWeather rt cfg q u w).2 /\
  contacts_only (to_configured_provider cfg) w
    (Aggregator.getForecast rt cfg q u n w).2 /\
  contacts_only (to_configured_provider cfg) w
    (Aggregator.getHistorical rt cfg q dateISO w).2.
Proof.
  split; [|split].
  - apply getCurrentWeather_contacts.
  - apply getForecast_contacts.
  - apply getHistorical_contacts.
Qed.

(** ** Activity insights *)

Lemma Qle_bool_false (a b : Q) : Qle_bool a b = false <-> (b < a)%Q.
Proof.
  split.
  - intros H. apply Qnot_le_lt. intros Hle. apply Qle_bool_iff in Hle. congruence.
  - intros H. destruct (Qle_bool a b) eqn:E; [|reflexivity].
    apply Qle_bool_iff in E. exfalso. apply (Qlt_not_le _ _ H E).
Qed.

(** Case analysis on the comparisons of a goal, each turned into the
    inequality it decides. *)
Ltac compare_cases :=
  repeat match goal with
         | |- context [Qle_bool ?a ?b] =>
             let E := fresh "E" in
             destruct (Qle_bool a b) eqn:E;
             [apply Qle_bool_iff in E | apply Qle_bool_false in E]
         end.

Ltac risk_solver :=
  cbn [fst snd andb orb Insights.not_high] in *;
  intuition (try discriminate; try lra).

Lemma rain_block_risk rainChance cond :
  ((Insights.rain_block rainChance cond).1 = Insights.risk_high <->
     (70 <= rainChance)%Q \/ wet cond) /\
  ((Insights.rain_block rainChance cond).1 = Insights.risk_low <->
     (rainChance < 40)%Q /\ ~ wet cond).
Proof.
  unfold Insights.rain_block, wet.
  destruct (Str.includes cond "rain"); destruct (Str.includes cond "storm");
    rewrite ?orb_true_r, ?orb_false_r; compare_cases; cbn [fst snd];
    intuition (try discriminate; try lra).
Qed.

Lemma wind_block_risk wind st :
  ((Insights.wind_block wind st).1 = Insights.risk_high <->
     (40 <= wind)%Q \/ st.1 = Insights.risk_high) /\
  ((Insights.wind_block wind st).1 = Insights.risk_low <->
     (wind < 25)%Q /\ st.1 = Insights.risk_low).
Proof.
  destruct st as [[| |] tips]; unfold Insights.wind_block; compare_cases;
    risk_solver.
Qed.

Lemma temp_block_risk tempC st :
  ((Insights.temp_block tempC st).1 = Insights.risk_high <->
     (32 <= tempC)%Q \/ (tempC <= -5)%Q \/ st.1 = Insights.risk_high) /\
  ((Insights.temp_block tempC st).1 = Insights.risk_low <->
     (5 < tempC)%Q /\ (tempC < 26)%Q /\ st.1 = Insights.risk_low).
Proof.
  destruct st as [[| |] tips]; unfold Insights.temp_block; compare_cases;
    risk_solver.
Qed.
Lemma rain_block_tips rainChance cond :
  ((Insights.rain_block rainChance cond).1 <> Insights.risk_low ->
   (Insights.rain_block rainChance cond).2 <> []) /\
  (length (Insights.rain_block rainChance cond).2 <= 1)%nat.
Proof.
  unfold Insights.rain_block.
  destruct (_ || _ || _); [|destruct (Qle_bool 40 rainChance)];
    cbn [fst snd length]; split; (congruence || lia).
Qed.

Lemma wind_block_tips wind st :
  ((st.1 <> Insights.risk_low -> st.2 <> []) ->
   (Insights.wind_block wind st).1 <> Insights.risk_low ->
   (Insights.wind_block wind st).2 <> []) /\
  (length (Insights.wind_block wind st).2 <= S (length st.2))%nat.
Proof.
  destruct st as [risk tips]. unfold Insights.wind_block.
  destruct (Qle_bool 40 wind); [|destruct (_ && _)]; cbn [fst snd];
    rewrite ?length_app; cbn [length]; (split; [|lia]); intros Hst Hr; auto;
    intros E; apply app_eq_nil in E as [_ E]; discriminate.
Qed.

Lemma temp_block_tips tempC st :
  ((st.1 <> Insights.risk_low -> st.2 <> []) ->
   (Insights.temp_block tempC st).1 <> Insights.risk_low ->
   (Insights.temp_block tempC st).2 <> []) /\
  (length (Insights.temp_block tempC st).2 <= S (length st.2))%nat.
Proof.
  destruct st as [risk tips]. unfold Insights.temp_block.
  destruct (Qle_bool 32 tempC);
    [|destruct (_ && _);
      [|destruct (Qle_bool tempC (-5)); [|destruct (_ && _)]]];
    cbn [fst snd]; rewrite ?length_app; cbn [length]; (split; [|lia]);
    intros Hst Hr; auto;
    intros E; apply app_eq_nil in E as [_ E]; discriminate.
Qed.

Lemma activity_tips_length a wind rainChance :
  (length (Insights.activity_tips a wind rainChance) <= 2)%nat.
Proof.
  unfold Insights.activity_tips.
  repeat match goal with
         | |- context [if ?b then _ else _] => destruct b
         end; cbn [length app]; lia.
Qed.

Lemma take_1_head {A} (l : list A) :
  take 1 l = match head l with Some x => [x] | None => [] end.
Proof. destruct l; reflexivity. Qed.

Lemma assessActivity_by_rain_chance toLowerCase rt act current f f' :
  Insights.rainRiskPct f = Insights.rainRiskPct f' ->
  Insights.assessActivity toLowerCase rt act current f
  = Insights.assessActivity toLowerCase rt act current f'.
Proof. intros E. unfold Insights.assessActivity. rewrite E. reflexivity. Qed.

(** X16.  The risk level [assessActivity] reports depends on the weather
    alone, not on the activity.  It is high exactly when the chance of
    rain is 70 or more, or the lower-cased condition text mentions rain
    or a storm, or the wind reaches 40 kph, or the temperature reaches
    32 degrees or falls to -5 or below.  It is low exactly when the
    chance of rain is under 40, the text mentions neither, the wind is
    under 25 kph and the temperature lies strictly between 5 and 26
    degrees; and moderate otherwise. *)
Theorem assessActivity_risk_level
    (toLowerCase : string -> string) (rt : Runtime) (act : string)
    (current : CurrentWeather) (forecast : option Forecast) :
  let r := Insights.riskLevel
             (Insights.assessActivity toLowerCase rt act current forecast) in
  let rainChance := Insights.rainRiskPct forecast in
  let wind := nullish (windKph current) 0%Q in
  let tempC := temperatureC current in
  let cond := Insights.cond_of toLowerCase current in
  (r = Insights.risk_high <->
     (70 <= rainChance)%Q \/ wet cond \/ (40 <= wind)%Q \/
     (32 <= tempC)%Q \/ (tempC <= -5)%Q) /\
  (r = Insights.risk_low <->
     (rainChance < 40)%Q /\ ~ wet cond /\ (wind < 25)%Q /\
     (5 < tempC)%Q /\ (tempC < 26)%Q).
Proof.
  cbv zeta. unfold Insights.assessActivity. cbv zeta.
  set (rb := Insights.rain_block _ _).
  set (wb := Insights.wind_block _ rb).
  set (tb := Insights.temp_block _ wb).
  destruct (rain_block_risk (Insights.rainRiskPct forecast)
              (Insights.cond_of toLowerCase current)) as [Rh Rl].
  destruct (wind_block_risk (nullish (windKph current) 0%Q) rb) as [Wh Wl].
  destruct (temp_block_risk (temperatureC current) wb) as [Th Tl].
  fold rb in Rh, Rl. fold wb in Wh, Wl, Th, Tl. fold tb in Th, Tl.
  destruct tb as [risk tips]. cbn [Insights.riskLevel fst] in *.
  rewrite Th, Tl, Wh, Wl, Rh, Rl. tauto.
Qed.

(** X17.  Of the forecast, [assessActivity] reads the first day only:
    two forecasts with the same first day give the same assessment
    whatever their later days hold, and a forecast without days gives the
    assessment of no forecast.  The chance of rain it works with is never
    negative. *)
Theorem assessActivity_reads_first_forecast_day_only
    (toLowerCase : string -> string) (rt : Runtime) (act : string)
    (current : CurrentWeather) (f f' : Forecast) :
  head (days f) = head (days f') ->
  Insights.assessActivity toLowerCase rt act current (Some f)
    = Insights.assessActivity toLowerCase rt act current (Some f') /\
  (days f = [] ->
   Insights.assessActivity toLowerCase rt act current (Some f)
     = Insights.assessActivity toLowerCase rt act current None) /\
  (0 <= Insights.rainRiskPct (Some f))%Q.
Proof.
  intros Hh. split; [|split].
  - apply assessActivity_by_rain_chance. unfold Insights.rainRiskPct.
    rewrite !take_1_head, Hh. reflexivity.
  - intros Hd. apply assessActivity_by_rain_chance.
    unfold Insights.rainRiskPct. rewrite Hd. reflexivity.
  - unfold Insights.rainRiskPct. rewrite take_1_head.
    destruct (head (days f)) as [d|]; cbn; [apply Q.le_max_r | lra].
Qed.

Lemma assessActivity_reads_first_forecast_day_only_witness :
  Insights.assessActivity (fun s => s) offline "hiking" mild_day
    (Some (forecast_of [10%Q; 95%Q; 100%Q]))
  = Insights.assessActivity (fun s => s) offline "hiking" mild_day
      (Some (forecast_of [10%Q])).
Proof.
  apply (assessActivity_reads_first_forecast_day_only (fun s => s) offline
           "hiking" mild_day (forecast_of [10%Q; 95%Q; 100%Q])
           (forecast_of [10%Q]) eq_refl).
Defined.

(** X18.  Every raised risk comes with advice: when the level is not
    low the list of tips is not empty.  The list never holds more than
    five tips (one each for rain, wind and temperature, two for the
    activity). *)
Theorem assessActivity_tips
    (toLowerCase : string -> string) (rt : Runtime) (act : string)
    (current : CurrentWeather) (forecast : option Forecast) :
  let r := Insights.assessActivity toLowerCase rt act current forecast in
  (Insights.riskLevel r <> Insights.risk_low -> Insights.tips r <> []) /\
  (length (Insights.tips r) <= 5)%nat.
Proof.
  cbv zeta. unfold Insights.assessActivity. cbv zeta.
  set (rb := Insights.rain_block _ _).
  set (wb := Insights.wind_block _ rb).
  set (tb := Insights.temp_block _ wb).
  destruct (rain_block_tips (Insights.rainRiskPct forecast)
              (Insights.cond_of toLowerCase current)) as [Re Rn].
  destruct (wind_block_tips (nullish (windKph current) 0%Q) rb) as [We Wn].
  destruct (temp_block_tips (temperatureC current) wb) as [Te Tn].
  fold rb in Re, Rn, Wn. fold wb in We, Wn, Te, Tn. fold tb in Te, Tn.
  pose proof (activity_tips_length (toLowerCase act)
                (nullish (windKph current) 0%Q) (Insights.rainRiskPct forecast))
    as An.
  destruct tb as [risk tips]. cbn [Insights.riskLevel Insights.tips fst snd] in *.
  split.
  - intros Hr E. apply app_eq_nil in E as [E _]. revert E. apply Te; auto.
  - rewrite length_app. lia.
Qed.

(** ** The command line and the bearer check *)

Lemma prefix_app (p r : string) : String.prefix p (p +:+ r) = true.
Proof.
  induction p as [|c p IH].
  - destruct r; reflexivity.
  - change (String c p +:+ r) with (String c (p +:+ r)). simpl.
    destruct (ascii_dec c c); [exact IH | contradiction].
Qed.

Lemma prefix_inv (p s : string) :
  String.prefix p s = true -> exists r, s = p +:+ r.
Proof.
  revert s. induction p as [|c p IH]; intros s H.
  - exists s. reflexivity.
  - destruct s as [|c' s]; simpl in H; [discriminate|].
    destruct (ascii_dec c c') as [<-|]; [|discriminate].
    destruct (IH s H) as [r ->]. exists r. reflexivity.
Qed.

Lemma includes_spec (s sub : string) :
  Str.includes s sub = true <-> exists a b, s = a +:+ sub +:+ b.
Proof.
  induction s as [|c s IH]; cbn [Str.includes].
  - rewrite orb_false_r. split.
    + intros H. apply prefix_inv in H as [r Hr]. exists EmptyString, r. exact Hr.
    + intros (a & b & H). destruct a; [|discriminate].
      change (EmptyString = sub +:+ b) in H. rewrite H. apply prefix_app.
  - rewrite orb_true_iff, IH. split.
    + intros [H|(a & b & ->)].
      * apply prefix_inv in H as [r Hr]. exists EmptyString, r. exact Hr.
      * exists (String c a), b. reflexivity.
    + intros (a & b & H). destruct a as [|c' a].
      * left. change (String c s = sub +:+ b) in H. rewrite H.
        apply prefix_app.
      * right. change (String c s = String c' (a +:+ sub +:+ b)) in H.
        injection H as _ ->. eauto.
Qed.

Lemma slice_from_app (p v : string) :
  Str.slice_from (String.length p) (p +:+ v) = v.
Proof. induction p as [|c p IH]; [destruct v; reflexivity | exact IH]. Qed.

Lemma find_first_match {A} (f : A -> bool) pre x post :
  Forall (fun a => f a = false) pre -> f x = true ->
  List.find f (pre ++ x :: post) = Some x.
Proof.
  intros Hpre Hx. induction Hpre as [|a pre Ha _ IH]; cbn.
  - rewrite Hx. reflexivity.
  - rewrite Ha. exact IH.
Qed.

Lemma find_no_match {A} (f : A -> bool) l :
  Forall (fun a => f a = false) l -> List.find f l = None.
Proof.
  intros H. induction H as [|a l Ha _ IH]; cbn; [reflexivity|].
  rewrite Ha. exact IH.
Qed.

Lemma unauthorized_one_header argv h :
  Cli.requireAuth argv = true ->
  Cli.unauthorized argv (Cli.OneHeader h) = false <->
  h <> EmptyString /\ exists a b, h = a +:+ Cli.bearerToken argv +:+ b.
Proof.
  intros Hreq. unfold Cli.unauthorized. rewrite Hreq. cbn [Cli.token_of].
  rewrite orb_false_iff, !negb_false_iff, includes_spec.
  unfold truthy_str. rewrite negb_true_iff, String.eqb_neq. reflexivity.
Qed.

(** X19.  [getArg] reads the first argument of the form [--key=value]
    and returns everything after the first equals sign, later arguments
    of the same key being ignored; when no argument starts with
    [--key=] it returns the default. *)
Theorem getArg_reads_first_matching_argument
    (argv : list string) (key : string) (defaultValue : option string) :
  let prefix := "--" +:+ key +:+ "=" in
  (forall pre v post,
     argv = pre ++ (prefix +:+ v) :: post ->
     Forall (fun a => Str.startsWith a prefix = false) pre ->
     Cli.getArg argv key defaultValue = Some v) /\
  (Forall (fun a => Str.startsWith a prefix = false) argv ->
   Cli.getArg argv key defaultValue = defaultValue).
Proof.
  cbv zeta. split.
  - intros pre v post -> Hpre. unfold Cli.getArg. cbv zeta.
    rewrite (find_first_match _ pre _ post Hpre) by apply prefix_app.
    rewrite slice_from_app. reflexivity.
  - intros Hno. unfold Cli.getArg. cbv zeta.
    rewrite (find_no_match _ argv Hno). reflexivity.
Qed.

Lemma getArg_reads_first_matching_argument_witness :
  Cli.getArg argv_token "token" None = Some "s3cret" /\
  Cli.getArg argv_token "port" (Some "3000") = Some "3000".
Proof.
  destruct (getArg_reads_first_matching_argument argv_token "token" None)
    as [Hfirst _].
  destruct (getArg_reads_first_matching_argument argv_token "port" (Some "3000"))
    as [_ Hnone].
  split.
  - apply (Hfirst ["node"; "weatherwise"; "--transport=http"; "--require-auth"]
             "s3cret" ["--token=other"] eq_refl).
    repeat constructor.
  - apply Hnone. repeat constructor.
Defined.

(** X20.  With [--require-auth], the test on [POST /mcp] is a substring
    test, not an equality: a request passes exactly when its
    Authorization header is not empty and contains the configured token
    somewhere.  A request without the header, or with an empty list of
    headers, is answered 401. *)
Theorem mcp_bearer_check_is_a_substring_test
    (argv : list string) (h : string) :
  Cli.hasFlag argv "require-auth" = true ->
  (Cli.unauthorized argv (Cli.OneHeader h) = false <->
   h <> EmptyString /\ exists a b, h = a +:+ Cli.bearerToken argv +:+ b) /\
  Cli.unauthorized argv Cli.NoHeader = true /\
  Cli.unauthorized argv (Cli.ManyHeaders []) = true.
Proof.
  intros Hreq. split; [apply unauthorized_one_header, Hreq|].
  unfold Cli.unauthorized, Cli.requireAuth. rewrite Hreq. split; reflexivity.
Qed.

Lemma mcp_bearer_check_is_a_substring_test_witness :
  Cli.unauthorized argv_token (Cli.OneHeader "Bearer s3cret") = false /\
  Cli.unauthorized argv_token (Cli.OneHeader "xxs3cretxx") = false /\
  Cli.unauthorized argv_token (Cli.OneHeader "Bearer other") = true /\
  Cli.unauthorized argv_token Cli.NoHeader = true.
Proof.
  destruct (mcp_bearer_check_is_a_substring_test argv_token "xxs3cretxx" eq_refl)
    as (Hsub & Hno & _).
  split; [reflexivity|]. split; [|split; [reflexivity | exact Hno]].
  apply Hsub. split; [discriminate|]. exists "xx", "xx". reflexivity.
Defined.

(** X21.  When the bearer check is asked for but no [--token=] argument
    is given, the token defaults to the empty string, which every string
    contains: any request with a non-empty Authorization header passes
    the check, whatever the header says. *)
Theorem mcp_bearer_check_without_token_accepts_any_header
    (argv : list string) (h : string) :
  Cli.hasFlag argv "require-auth" = true ->
  Forall (fun a => Str.startsWith a "--token=" = false) argv ->
  h <> EmptyString ->
  Cli.unauthorized argv (Cli.OneHeader h) = false.
Proof.
  intros Hreq Hno Hh. apply unauthorized_one_header; [exact Hreq|].
  split; [exact Hh|]. exists EmptyString, h.
  unfold Cli.bearerToken, Cli.getArg. cbv zeta.
  rewrite (find_no_match
             (fun a => Str.startsWith a ("--" +:+ "token" +:+ "=")) argv Hno).
  reflexivity.
Qed.

Lemma mcp_bearer_check_without_token_accepts_any_header_witness :
  Cli.unauthorized argv_no_token (Cli.OneHeader "anything") = false.
Proof.
  apply (mcp_bearer_check_without_token_accepts_any_header argv_no_token
           "anything" eq_refl).
  - repeat constructor.
  - discriminate.
Defined.

(** ** How often a sweep notifies *)

Section Dispatch.
Context (rt : Runtime) (cfg : Config).

Lemma notify_dispatched a msg p w :
  dispatched (if posts_to_webhook a then [id a] else [])
             (if logs_to_console a then [id a] else [])
             w (AlertService.notify rt a msg p w).2.
Proof.
  unfold AlertService.notify, dispatched, posts_to_webhook, logs_to_console.
  cbn [channel webhookUrl id].
  destruct (channel a).
  - unfold posted_ids, logged_ids. cbn. rewrite omap_app, app_nil_r.
    split; reflexivity.
  - destruct (webhookUrl a) as [u|]; cbn [truthy_ostr];
      [destruct (truthy_str u)|]; cbn [snd];
      try (rewrite !app_nil_r; split; reflexivity).
    unfold AlertService.post_webhook.
    destruct (axios_post rt _ _ u _) as [[m|] el];
      unfold posted_ids, logged_ids; cbn; rewrite ?omap_app, ?app_nil_r;
      split; reflexivity.
Qed.

Lemma dispatched_silent ps ls w w' w'' :
  dispatched ps ls w w' -> silent w' w'' -> dispatched ps ls w w''.
Proof. intros [E1 E2] [S1 S2]. split; congruence. Qed.

Lemma silent_dispatched ps ls w w' w'' :
  silent w w' -> dispatched ps ls w' w'' -> dispatched ps ls w w''.
Proof. intros [S1 S2] [E1 E2]. split; congruence. Qed.

Lemma dispatched_nil w w' : silent w w' -> dispatched [] [] w w'.
Proof. intros [S1 S2]. split; rewrite app_nil_r; assumption. Qed.

Lemma dispatched_app p1 l1 p2 l2 w w' w'' :
  dispatched p1 l1 w w' -> dispatched p2 l2 w' w'' ->
  dispatched (p1 ++ p2) (l1 ++ l2) w w''.
Proof.
  intros [E1 E2] [F1 F2]. split; rewrite ?F1, ?F2, ?E1, ?E2, app_assoc; reflexivity.
Qed.

Lemma notify_if_dispatched b a msg p w :
  exists ps ls,
    dispatched ps ls w (AlertService.notify_if rt b a msg p w).2 /\
    ps `sublist_of` (if posts_to_webhook a then [id a] else []) /\
    ls `sublist_of` (if logs_to_console a then [id a] else []).
Proof.
  unfold AlertService.notify_if. destruct b.
  - pose proof (notify_dispatched a msg p w) as H.
    destruct (AlertService.notify rt a msg p w) as [a' w'].
    eexists _, _. split; [exact H|]. split; reflexivity.
  - exists [], []. split; [apply dispatched_nil; reflexivity|].
    split; apply sublist_nil_l.
Qed.

Lemma evaluateAlert_dispatched a w :
  exists ps ls,
    dispatched ps ls w (AlertService.evaluateAlert rt cfg a w).2 /\
    ps `sublist_of` (if posts_to_webhook a then [id a] else []) /\
    ls `sublist_of` (if logs_to_console a then [id a] else []).
Proof.
  assert (Hnone : forall w', silent w w' ->
            exists ps ls, dispatched ps ls w w' /\
              ps `sublist_of` (if posts_to_webhook a then [id a] else []) /\
              ls `sublist_of` (if logs_to_console a then [id a] else [])).
  { intros w' Hs. exists [], []. split; [apply dispatched_nil, Hs|].
    split; apply sublist_nil_l. }
  assert (Hthen : forall w1 b msg p, silent w w1 ->
            exists ps ls,
              dispatched ps ls w (AlertService.notify_if rt b a msg p w1).2 /\
              ps `sublist_of` (if posts_to_webhook a then [id a] else []) /\
              ls `sublist_of` (if logs_to_console a then [id a] else [])).
  { intros w1 b msg p Hs.
    destruct (notify_if_dispatched b a msg p w1) as (ps & ls & Hd & Hp & Hl).
    exists ps, ls. split; [eapply silent_dispatched; eassumption|]. auto. }
  unfold AlertService.evaluateAlert, bind, ret.
  destruct (type (alert_condition a)).
  - pose proof (getForecast_grows rt cfg (alert_location a) None
                  (Some (nullish (daysAhead (alert_condition a)) 1)) w) as Hg.
    apply grows_silent in Hg.
    destruct (Aggregator.getForecast rt cfg _ _ _ w) as [[fc|e] w1];
      cbn [snd] in *; [apply Hthen, Hg | apply Hnone, Hg].
  - pose proof (getCurrentWeather_grows rt cfg (alert_location a) None w) as Hg.
    apply grows_silent in Hg.
    destruct (Aggregator.getCurrentWeather rt cfg _ _ w) as [[c|e] w1];
      cbn [snd] in *; [|apply Hnone, Hg].
    destruct (threshold (alert_condition a)); [apply Hthen, Hg | apply Hnone, Hg].
  - pose proof (getCurrentWeather_grows rt cfg (alert_location a) None w) as Hg.
    apply grows_silent in Hg.
    destruct (Aggregator.getCurrentWeather rt cfg _ _ w) as [[c|e] w1];
      cbn [snd] in *; [|apply Hnone, Hg].
    destruct (threshold (alert_condition a)); [apply Hthen, Hg | apply Hnone, Hg].
  - pose proof (getCurrentWeather_grows rt cfg (alert_location a) None w) as Hg.
    apply grows_silent in Hg.
    destruct (Aggregator.getCurrentWeather rt cfg _ _ w) as [[c|e] w1];
      cbn [snd] in *; [|apply Hnone, Hg].
    destruct (threshold (alert_condition a)); [apply Hthen, Hg | apply Hnone, Hg].
Qed.

Lemma poll_one_dispatched a w :
  exists ps ls,
    dispatched ps ls w (AlertService.poll_one rt cfg a w).2 /\
    ps `sublist_of` (if posts_to_webhook a then [id a] else []) /\
    ls `sublist_of` (if logs_to_console a then [id a] else []).
Proof.
  unfold AlertService.poll_one.
  destruct (evaluateAlert_dispatched a w) as (ps & ls & Hd & Hp & Hl).
  destruct (AlertService.evaluateAlert rt cfg a w) as [[a'|e] w'];
    cbn [snd] in *; exists ps, ls; (split; [|auto]); [exact Hd|].
  eapply dispatched_silent; [exact Hd|].
  apply grows_silent, console_warn_grows.
Qed.

Lemma filter_ids_cons (f : WeatherAlert -> bool) a rest :
  id <$> List.filter f (a :: rest)
  = (if f a then [id a] else []) ++ (id <$> List.filter f rest).
Proof. cbn [List.filter]. destruct (f a); reflexivity. Qed.

Lemma poll_items_dispatched items w :
  exists ps ls,
    dispatched ps ls w (AlertService.poll_items rt cfg items w).2 /\
    ps `sublist_of` (id <$> List.filter posts_to_webhook items) /\
    ls `sublist_of` (id <$> List.filter logs_to_console items).
Proof.
  revert w. induction items as [|a rest IH]; intros w.
  - exists [], []. split; [apply dispatched_nil; reflexivity|].
    split; apply sublist_nil_l.
  - cbn [AlertService.poll_items].
    destruct (poll_one_dispatched a w) as (p1 & l1 & Hd1 & Hp1 & Hl1).
    destruct (AlertService.poll_one rt cfg a w) as [a' w1].
    destruct (IH w1) as (p2 & l2 & Hd2 & Hp2 & Hl2).
    destruct (AlertService.poll_items rt cfg rest w1) as [rest' w2].
    cbn [snd] in *. exists (p1 ++ p2), (l1 ++ l2).
    split; [eapply dispatched_app; eassumption|].
    rewrite !filter_ids_cons. split; apply sublist_app; assumption.
Qed.
End Dispatch.

(** X22.  A sweep of [pollAlerts] notifies each alert at most once, on
    its own channel, in the order of the registry: the ids it posts to
    webhooks are, in order, ids of the alerts on the webhook channel that
    have a URL, each used at most once, and the ids it logs as console
    alerts are, in order, ids of the alerts on the console channel, each
    used at most once. *)
Theorem pollAlerts_notifies_each_alert_at_most_once
    (rt : Runtime) (cfg : Config) (st : AlertService.State) (w : World) :
  exists ps ls,
    dispatched ps ls w (AlertService.pollAlerts rt cfg st w).2 /\
    ps `sublist_of`
      (id <$> List.filter posts_to_webhook (AlertService.listAlerts st)) /\
    ls `sublist_of`
      (id <$> List.filter logs_to_console (AlertService.listAlerts st)).
Proof.
  unfold AlertService.pollAlerts.
  destruct (poll_items_dispatched rt cfg (AlertService.listAlerts st) w)
    as (ps & ls & H).
  destruct (AlertService.poll_items rt cfg (AlertService.listAlerts st) w)
    as [items w'].
  exists ps, ls. exact H.
Qed.

(** ** The insights tool *)

Section Tool.
Context (rt : Runtime) (cfg : Config).

Lemma fetchForecast_at_most q u n :
  at_most 2 (Aggregator.fetchForecast rt cfg q u n).
Proof.
  unfold Aggregator.fetchForecast.
  apply (at_most_bind 1 1).
  - destruct (truthy_str (weatherApiKey cfg)).
    + apply (at_most_try_catch 1 0).
      * apply (at_most_bind 1 0); [apply wa_getForecast_at_most|].
        intros d. apply at_most_unchanged, keeps_ret, _.
      * intros e. apply (at_most_bind 0 0); [apply at_most_console_warn|].
        intros _. apply at_most_unchanged, keeps_ret, _.
    + apply (at_most_mono 0); [lia|]. apply at_most_unchanged, keeps_ret, _.
  - intros [d|]; [apply (at_most_mono 0); [lia|]; apply at_most_unchanged, keeps_ret, _|].
    destruct (truthy_str (openWeatherApiKey cfg)).
    + apply (at_most_bind 1 0); [apply ow_getForecast_at_most|].
      intros d. apply at_most_unchanged, keeps_ret, _.
    + apply (at_most_mono 0); [lia|]. apply at_most_unchanged, keeps_ret, _.
Qed.

Lemma getForecast_at_most q u n :
  at_most 2 (Aggregator.getForecast rt cfg q u n).
Proof.
  unfold Aggregator.getForecast. cbv zeta.
  apply (at_most_bind 0 2).
  - intros w. apply gets_at_most_same_requests.
    unfold Aggregator.forecastCache_get. destruct (LRUCache.get _ _ _ _).
    reflexivity.
  - intros [c|]; [apply (at_most_mono 0); [lia|]; apply at_most_unchanged, keeps_ret, _|].
    apply (at_most_bind 2 0); [apply fetchForecast_at_most|].
    intros [d|]; [|apply at_most_unchanged, keeps_throw, _].
    apply (at_most_bind 0 0).
    + intros w. apply gets_at_most_same_requests. reflexivity.
    + intros _. apply at_most_unchanged, keeps_ret, _.
Qed.
End Tool.

(** X23.  The [weather_insights] tool asks for the current weather, then
    for the default forecast, and assesses the activity on the two: it
    fails with the error of the first of the two calls that fails (the
    forecast is not asked for when the current weather failed), and
    otherwise answers the assessment of the current record with that
    forecast.  It makes at most four requests, all of them GET requests
    to configured providers. *)
Theorem weather_insights_composes_the_two_calls
    (toLowerCase : string -> string) (rt : Runtime) (cfg : Config)
    (activity : string) (location : LocationQuery) (w : World) :
  let r := Server.weather_insights toLowerCase rt cfg activity location w in
  gets_at_most 4 w r.2 /\
  contacts_only (to_configured_provider cfg) w r.2 /\
  match Aggregator.getCurrentWeather rt cfg location None w with
  | (Err e, w1) => r = (Err e, w1)
  | (Ok current, w1) =>
      match Aggregator.getForecast rt cfg location None None w1 with
      | (Err e, w2) => r = (Err e, w2)
      | (Ok forecast, w2) =>
          r = (Ok (Insights.assessActivity toLowerCase rt activity current
                     (Some forecast)), w2)
      end
  end.
Proof.
  cbv zeta. split; [|split].
  - unfold Server.weather_insights.
    apply (at_most_bind 2 2); [apply getCurrentWeather_at_most|].
    intros current.
    apply (at_most_bind 2 0); [apply getForecast_at_most|].
    intros forecast. apply at_most_unchanged, keeps_ret, _.
  - unfold Server.weather_insights.
    apply keeps_bind; [apply _ | apply getCurrentWeather_contacts | intros current].
    apply keeps_bind; [apply _ | apply getForecast_contacts | intros forecast].
    apply keeps_ret; apply _.
  - unfold Server.weather_insights, bind, ret.
    destruct (Aggregator.getCurrentWeather rt cfg location None w)
      as [[current|e] w1]; [|reflexivity].
    destruct (Aggregator.getForecast rt cfg location None None w1)
      as [[forecast|e] w2]; reflexivity.
Qed.

(** ** An invalid query at the aggregator *)

(** X24.  A query that resolves neither to a city nor to coordinates
    never reaches the network through [getCurrentWeather]: on a cache
    miss the call makes no request and fails.  The error the caller sees
    is the invalid-query error of the OpenWeather adapter when that
    provider is configured, and the terminal no-provider error when it is
    not; the rejection by WeatherAPI, when configured, is only logged. *)
Theorem getCurrentWeather_rejects_invalid_query
    (rt : Runtime) (cfg : Config) (q : LocationQuery) (u : option Units)
    (w w0 : World) :
  resolves q = false ->
  Aggregator.currentCache_get cfg (current_key rt cfg q u) w = (Ok None, w0) ->
  let r := Aggregator.getCurrentWeather rt cfg q u w in
  requests r.2 = requests w /\
  r.1 = Err (if pk_openWeather (hasProviderKeys cfg)
             then ow.invalid_query else Aggregator.no_provider) /\
  console r.2 = console w ++
    (if pk_weatherApi (hasProviderKeys cfg)
     then [ConsoleWarn "WeatherAPI current failed, falling back to OpenWeather:"
             (message wa.invalid_query)]
     else []).
Proof.
  intros Hq Hmiss r.
  destruct (currentCache_get_miss cfg _ w w0 Hmiss) as [_ Hreq].
  assert (Hcon : console w0 = console w).
  { revert Hmiss. unfold Aggregator.currentCache_get.
    destruct (LRUCache.get _ _ _ _). intros H. injection H as _ <-. reflexivity. }
  assert (Hwa : wa.getCurrent rt cfg q w0 = (Err wa.invalid_query, w0)).
  { unfold wa.getCurrent, bind, lift.
    rewrite (wa_resolveQuery_unresolved rt q Hq). reflexivity. }
  assert (How : forall w1, ow.getCurrent rt cfg q
                             (Some (nullish u (defaultUnits cfg))) w1
                           = (Err ow.invalid_query, w1)).
  { intros w1. unfold ow.getCurrent, bind, lift.
    rewrite (ow_resolveQueryParams_unresolved rt q Hq). reflexivity. }
  assert (Hr : r =
    (Err (if pk_openWeather (hasProviderKeys cfg)
          then ow.invalid_query else Aggregator.no_provider),
     with_console w0
       (if pk_weatherApi (hasProviderKeys cfg)
        then [ConsoleWarn "WeatherAPI current failed, falling back to OpenWeather:"
                (message wa.invalid_query)]
        else []))).
  { subst r. rewrite getCurrentWeather_unfold. cbv zeta. rewrite Hmiss.
    cbn [hasProviderKeys pk_openWeather pk_weatherApi].
    destruct (truthy_str (weatherApiKey cfg)) eqn:Kwa.
    - rewrite (fetchCurrent_wa_failed rt cfg q _ w0 _ w0 Kwa Hwa).
      unfold after_wa_current_failure, bind. cbn [console_warn fst snd].
      destruct (truthy_str (openWeatherApiKey cfg)); [rewrite How|];
        reflexivity.
    - unfold Aggregator.fetchCurrent, bind, ret. rewrite Kwa.
      destruct (truthy_str (openWeatherApiKey cfg)); [rewrite How|];
        rewrite with_console_nil; reflexivity. }
  rewrite Hr. cbn [fst snd with_console requests console].
  split; [exact Hreq|]. split; [reflexivity|]. rewrite Hcon. reflexivity.
Qed.

Lemma getCurrentWeather_rejects_invalid_query_witness :
  let r := Aggregator.getCurrentWeather offline both_keys nowhere None
             (initial_world 0) in
  r.1 = Err (Error "OpenWeather: provide city or lat/lon") /\
  requests r.2 = [].
Proof.
  intros r.
  destruct (getCurrentWeather_rejects_invalid_query offline both_keys nowhere
              None (initial_world 0) (initial_world 0) eq_refl eq_refl)
    as (Hreq & Herr & _).
  split; [exact Herr | exact Hreq].
Defined.

(** ** When an evaluation fails *)

Lemma notify_if_ok rt b a msg p w :
  is_ok (AlertService.notify_if rt b a msg p w).1 = true.
Proof.
  unfold AlertService.notify_if. destruct b; [|reflexivity].
  destruct (AlertService.notify rt a msg p w). reflexivity.
Qed.

(** X25.  An evaluation fails exactly when its weather lookup fails, and
    with the error of the lookup: the forecast for a rain alert, the
    current weather for the other types.  Nothing else in
    [evaluateAlert] throws; in particular a webhook that cannot be
    reached is logged by [notify] and does not fail the evaluation. *)
Theorem evaluateAlert_fails_only_with_its_lookup
    (rt : Runtime) (cfg : Config) (a : WeatherAlert) (w : World) (e : JsError) :
  (AlertService.evaluateAlert rt cfg a w).1 = Err e <->
  match type (alert_condition a) with
  | rain =>
      (Aggregator.getForecast rt cfg (alert_location a) None
         (Some (nullish (daysAhead (alert_condition a)) 1)) w).1 = Err e
  | _ =>
      (Aggregator.getCurrentWeather rt cfg (alert_location a) None w).1 = Err e
  end.
Proof.
  assert (Hn : forall b msg p w1,
            (AlertService.notify_if rt b a msg p w1).1 = Err e <-> False).
  { intros b msg p w1. pose proof (notify_if_ok rt b a msg p w1) as H.
    destruct (AlertService.notify_if rt b a msg p w1) as [[x|e'] w2];
      [split; [discriminate | tauto] | discriminate]. }
  assert (He : forall A B (e' : JsError),
            @Err A e' = Err e <-> @Err B e' = Err e).
  { intros A B e'. split; intros H; injection H as ->; reflexivity. }
  unfold AlertService.evaluateAlert, bind, ret.
  destruct (type (alert_condition a)).
  - destruct (Aggregator.getForecast rt cfg _ _ _ w) as [[fc|e'] w1];
      cbn [fst]; [rewrite Hn; split; [tauto | discriminate] | apply He].
  - destruct (Aggregator.getCurrentWeather rt cfg _ _ w) as [[c|e'] w1];
      cbn [fst]; [|apply He].
    destruct (threshold (alert_condition a));
      [rewrite Hn|]; (split; [try tauto | discriminate]); discriminate.
  - destruct (Aggregator.getCurrentWeather rt cfg _ _ w) as [[c|e'] w1];
      cbn [fst]; [|apply He].
    destruct (threshold (alert_condition a));
      [rewrite Hn|]; (split; [try tauto | discriminate]); discriminate.
  - destruct (Aggregator.getCurrentWeather rt cfg _ _ w) as [[c|e'] w1];
      cbn [fst]; [|apply He].
    destruct (threshold (alert_condition a));
      [rewrite Hn|]; (split; [try tauto | discriminate]); discriminate.
Qed.

(** ** Which answers the WeatherAPI adapter accepts *)

(** X26.  [getCurrent] of the WeatherAPI adapter succeeds exactly when
    the query resolves, the request is answered, the body holds both a
    [location] and a [current] object, and the [last_updated] of the
    latter, if present and not empty, is a date the engine can parse.
    In every other case it fails, with the invalid-query error, the
    transport error, a [TypeError] or a [RangeError]. *)
Theorem wa_getCurrent_succeeds_exactly_when
    (rt : Runtime) (cfg : Config) (q : LocationQuery) (w : World) :
  (is_ok (wa.getCurrent rt cfg q w).1 = true <->
   exists qStr b el l c,
     wa.resolveQuery rt q = Ok qStr /\
     axios_get rt (requests w) (now w) (wa.current_url rt cfg qStr)
       = (HttpOk b, el) /\
     wa_location (wa.body b) = Some l /\
     wa_current (wa.body b) = Some c /\
     match last_updated c with
     | Some s => truthy_str s = true -> is_Some (Date_parse rt s)
     | None => True
     end) /\
  (forall e, (wa.getCurrent rt cfg q w).1 = Err e ->
     e = wa.invalid_query \/ (exists m, e = AxiosError m) \/
     e = TypeError (type_error_message rt) \/
     e = RangeError (range_error_message rt)).
Proof.
  unfold wa.getCurrent, bind, lift, http_get, required, ret, throw,
    parsed_toISOString, now_toISOString.
  destruct (wa.resolveQuery rt q) as [qStr|e0] eqn:Hq.
  2:{ unfold wa.resolveQuery in Hq.
      assert (e0 = wa.invalid_query) as ->.
      { repeat match type of Hq with
               | context [match ?x with _ => _ end] => destruct x
               end; congruence. }
      cbn [fst is_ok]. split.
      - split; [discriminate|]. intros (? & ? & ? & ? & ? & H & _). discriminate.
      - intros e H. injection H as <-. auto. }
  destruct (axios_get rt (requests w) (now w) (wa.current_url rt cfg qStr))
    as [[m|b] el] eqn:Hget; cbv beta iota zeta.
  { cbn [fst is_ok]. split.
    - split; [discriminate|].
      intros (qs & b' & el' & l' & c' & H1 & H2 & _).
      assert (qs = qStr) as -> by congruence.
      rewrite Hget in H2. discriminate.
    - intros e H. injection H as <-. eauto. }
  assert (Hsame : forall qs b' el',
            Ok qStr = Ok qs ->
            axios_get rt (requests w) (now w) (wa.current_url rt cfg qs)
              = (HttpOk b', el') -> b' = b).
  { intros qs b' el' H1 H2. assert (qs = qStr) as -> by congruence.
    rewrite Hget in H2. congruence. }
  destruct (wa_location (wa.body b)) as [l|] eqn:Hl; cbv beta iota zeta.
  2:{ cbn [fst is_ok]. split.
      - split; [discriminate|].
        intros (qs & b' & el' & l' & c' & H1 & H2 & H3 & _).
        rewrite (Hsame _ _ _ H1 H2) in H3. congruence.
      - intros e H. injection H as <-. auto. }
  destruct (wa_current (wa.body b)) as [c|] eqn:Hc; cbv beta iota zeta.
  2:{ cbn [fst is_ok]. split.
      - split; [discriminate|].
        intros (qs & b' & el' & l' & c' & H1 & H2 & _ & H4 & _).
        rewrite (Hsame _ _ _ H1 H2) in H4. congruence.
      - intros e H. injection H as <-. auto. }
  destruct (last_updated c) as [s|] eqn:Hs.
  - destruct (truthy_str s) eqn:Ht.
    + destruct (Date_parse rt s) as [ms|] eqn:Hp; cbn [fst is_ok]; split.
      * split; [intros _|reflexivity].
        exists qStr, b, el, l, c. rewrite Hs.
        split; [reflexivity|]. split; [exact Hget|]. split; [exact Hl|].
        split; [exact Hc|]. intros _. rewrite Hp. eauto.
      * intros e H. discriminate.
      * split; [discriminate|].
        intros (qs & b' & el' & l' & c' & H1 & H2 & _ & H4 & Hd).
        rewrite (Hsame _ _ _ H1 H2) in H4. rewrite Hc in H4.
        assert (c' = c) as -> by congruence. rewrite Hs in Hd.
        destruct (Hd Ht) as [ms Hms]. congruence.
      * intros e H. injection H as <-. auto.
    + cbn [fst is_ok]. split.
      * split; [intros _|reflexivity].
        exists qStr, b, el, l, c. rewrite Hs.
        split; [reflexivity|]. split; [exact Hget|]. split; [exact Hl|].
        split; [exact Hc|]. congruence.
      * intros e H. discriminate.
  - cbn [fst is_ok]. split.
    + split; [intros _|reflexivity].
      exists qStr, b, el, l, c. rewrite Hs.
      split; [reflexivity|]. split; [exact Hget|]. split; [exact Hl|].
      split; [exact Hc|]. exact I.
    + intros e H. discriminate.
Qed.

(** ** Where the requests of a sweep go *)

Lemma contacts_only_weaken (P Q : Request -> Prop) w w' :
  (forall r, P r -> Q r) -> contacts_only P w w' -> contacts_only Q w w'.
Proof.
  intros HPQ (rs & E & F). exists rs. split; [exact E|].
  eapply Forall_impl; [exact F | exact HPQ].
Qed.

Section SweepRequests.
Context (rt : Runtime) (cfg : Config) (alerts : list WeatherAlert).

Lemma provider_sweep_request r :
  is_get r -> to_configured_provider cfg r -> sweep_request cfg alerts r.
Proof. destruct r; [intros _ H; exact H | intros []]. Qed.

Lemma to_configured_provider_get r : to_configured_provider cfg r -> is_get r.
Proof. destruct r; [intros _; exact I | intros []]. Qed.

Lemma getCurrentWeather_sweep q u :
  keeps (contacts_only (sweep_request cfg alerts))
    (Aggregator.getCurrentWeather rt cfg q u).
Proof.
  intros w. eapply contacts_only_weaken; [|apply getCurrentWeather_contacts].
  intros r Hr. apply provider_sweep_request;
    [eapply to_configured_provider_get, Hr | exact Hr].
Qed.

Lemma getForecast_sweep q u n :
  keeps (contacts_only (sweep_request cfg alerts))
    (Aggregator.getForecast rt cfg q u n).
Proof.
  intros w. eapply contacts_only_weaken; [|apply getForecast_contacts].
  intros r Hr. apply provider_sweep_request;
    [eapply to_configured_provider_get, Hr | exact Hr].
Qed.

Lemma notify_sweep a msg p w :
  a ∈ alerts ->
  contacts_only (sweep_request cfg alerts) w (AlertService.notify rt a msg p w).2.
Proof.
  intros Hin. unfold AlertService.notify. cbn [channel webhookUrl id].
  destruct (channel a) eqn:Hch.
  - apply contacts_only_same_requests. reflexivity.
  - destruct (webhookUrl a) as [url|] eqn:Hurl;
      [|apply contacts_only_same_requests; reflexivity].
    destruct (truthy_str url); [|apply contacts_only_same_requests; reflexivity].
    cbn [snd]. unfold AlertService.post_webhook.
    match goal with
    | |- context [axios_post rt ?rs ?t url ?body] =>
        exists [POST url body]; split;
        [destruct (axios_post rt rs t url body) as [[m|] el]; reflexivity|]
    end.
    repeat constructor. exists a.
    split; [exact Hin|]. split; [exact Hch|]. split; [exact Hurl|].
    split; [reflexivity|]. split; [|eexists; reflexivity].
    unfold same_definition, with_stamp. cbn. rewrite Hch, Hurl. reflexivity.
Qed.

Lemma notify_if_sweep b a msg p :
  a ∈ alerts ->
  keeps (contacts_only (sweep_request cfg alerts))
    (AlertService.notify_if rt b a msg p).
Proof.
  intros Hin w. unfold AlertService.notify_if. destruct b; [|reflexivity].
  pose proof (notify_sweep a msg p w Hin) as H.
  destruct (AlertService.notify rt a msg p w). exact H.
Qed.

Lemma evaluateAlert_sweep a :
  a ∈ alerts ->
  keeps (contacts_only (sweep_request cfg alerts))
    (AlertService.evaluateAlert rt cfg a).
Proof.
  intros Hin. unfold AlertService.evaluateAlert.
  destruct (type (alert_condition a)).
  - cbv zeta. apply keeps_bind; [apply _ | apply getForecast_sweep | intros fc].
    apply notify_if_sweep, Hin.
  - apply keeps_bind; [apply _ | apply getCurrentWeather_sweep | intros c].
    destruct (threshold (alert_condition a));
      [apply notify_if_sweep, Hin | apply keeps_ret; apply _].
  - apply keeps_bind; [apply _ | apply getCurrentWeather_sweep | intros c].
    destruct (threshold (alert_condition a));
      [apply notify_if_sweep, Hin | apply keeps_ret; apply _].
  - apply keeps_bind; [apply _ | apply getCurrentWeather_sweep | intros c].
    destruct (threshold (alert_condition a));
      [apply notify_if_sweep, Hin | apply keeps_ret; apply _].
Qed.

Lemma poll_one_sweep a w :
  a ∈ alerts ->
  contacts_only (sweep_request cfg alerts) w (AlertService.poll_one rt cfg a w).2.
Proof.
  intros Hin. unfold AlertService.poll_one.
  pose proof (evaluateAlert_sweep a Hin w) as H.
  destruct (AlertService.evaluateAlert rt cfg a w) as [[a'|e] w']; [exact H|].
  etrans; [exact H|]. apply contacts_only_same_requests. reflexivity.
Qed.

Lemma poll_items_sweep items w :
  items ⊆ alerts ->
  contacts_only (sweep_request cfg alerts) w
    (AlertService.poll_items rt cfg items w).2.
Proof.
  revert w. induction items as [|a rest IH]; intros w Hsub; [reflexivity|].
  cbn [AlertService.poll_items].
  pose proof (poll_one_sweep a w) as Ha.
  destruct (AlertService.poll_one rt cfg a w) as [a' w1].
  pose proof (IH w1) as Hr.
  destruct (AlertService.poll_items rt cfg rest w1) as [rest' w2].
  cbn [snd] in *. etrans.
  - apply Ha, Hsub, list_elem_of_here.
  - apply Hr. intros x Hx. apply Hsub, list_elem_of_further, Hx.
Qed.
End SweepRequests.

(** X27.  A sweep of [pollAlerts] contacts nobody else: each of its
    requests is a GET to a configured provider, or a POST to the
    [webhookUrl] of a registered alert on the webhook channel, whose body
    carries the id of that alert and the alert itself, unchanged but for
    its fresh [lastTriggeredAt]. *)
Theorem pollAlerts_requests_go_to_providers_and_registered_webhooks
    (rt : Runtime) (cfg : Config) (st : AlertService.State) (w : World) :
  contacts_only (sweep_request cfg (AlertService.listAlerts st)) w
    (AlertService.pollAlerts rt cfg st w).2.
Proof.
  unfold AlertService.pollAlerts.
  pose proof (poll_items_sweep rt cfg (AlertService.listAlerts st)
                (AlertService.listAlerts st) w) as H.
  destruct (AlertService.poll_items rt cfg (AlertService.listAlerts st) w)
    as [items w'].
  apply H. intros x Hx. exact Hx.
Qed.

Lemma pollAlerts_requests_go_to_providers_and_registered_webhooks_witness :
  let w' := (AlertService.pollAlerts upstream_28 ow_only one_webhook_alert
               (initial_world 1700000000000)).2 in
  Forall (sweep_request ow_only [heat_webhook]) (requests w') /\
  (fun r => match r with
            | GET url => url
            | POST url _ => url
            end) <$> requests w'
  = ["https://api.openweathermap.org/data/2.5/weather?q=Oslo&appid=ow-key&units=metric";
     "https://hooks.example/heat"].
Proof.
  intros w'.
  destruct (pollAlerts_requests_go_to_providers_and_registered_webhooks
              upstream_28 ow_only one_webhook_alert
              (initial_world 1700000000000)) as (rs & E & F).
  fold w' in E. cbn [initial_world requests app] in E.
  split; [rewrite E; exact F | reflexivity].
Defined.
